(** * IBUS connection handling of GLFW (glfw/ibus_glfw.c)

    A shallow embedding of [glfw/ibus_glfw.c]: the functions of the file are
    written as programs of a small state-and-failure monad over a machine made
    of the [_GLFWIBUSData] structure, the malloc heap that holds its strings,
    the static buffer of [get_ibus_address_file_name] and the trace of the
    calls made to the outside (environment, file system, D-Bus layer).  The
    answers of the outside come from a [World]. *)

From Stdlib Require Import String Ascii List ZArith Lia Bool Arith.
Import ListNotations.

Set Implicit Arguments.

(* ================================================================== *)
(** ** C strings and character arrays *)

(** The characters of a NUL-terminated string, the terminator left out. *)
Definition cstring := list ascii.

Definition NUL : ascii := Ascii.zero.
Definition LF : ascii := Ascii.ascii_of_nat 10.
Definition CR : ascii := Ascii.ascii_of_nat 13.

(** A string literal of the source. *)
Definition cs (s : string) : cstring := list_ascii_of_string s.
Arguments cs s%_string.

(** [strcmp(a, b) == 0] *)
Definition streq (a b : cstring) : bool :=
  if list_eq_dec ascii_dec a b then true else false.

(** Reading a character array as a C string: the characters before the first
    NUL; [None] when the array holds no NUL (the read runs over its end). *)
Fixpoint until_nul (buf : list ascii) : option cstring :=
  match buf with
  | [] => None
  | ch :: rest =>
      if Ascii.eqb ch NUL then Some []
      else option_map (cons ch) (until_nul rest)
  end.

(** The C string that starts at [buf + i]. *)
Definition c_str (buf : list ascii) (i : nat) : option cstring :=
  until_nul (skipn i buf).

(** [buf[i] = ch], for [i] inside the array. *)
Definition poke (buf : list ascii) (i : nat) (ch : ascii) : list ascii :=
  firstn i buf ++ ch :: skipn (S i) buf.

(** [strrchr(s, ch)] as the index of the last [ch] in [s] ([None] for NULL). *)
Fixpoint strrchr (s : cstring) (ch : ascii) : option nat :=
  match s with
  | [] => None
  | x :: rest =>
      match strrchr rest ch with
      | Some i => Some (S i)
      | None => if Ascii.eqb x ch then Some 0 else None
      end
  end.

(** [strncmp(buf, lit, sizeof(lit)-1) == 0] for a literal [lit] without NUL:
    the comparison stops at a NUL of [buf], which then differs from [lit], so
    the result is 0 exactly when the first characters of [buf] are [lit]. *)
Definition strncmp_lit (buf : list ascii) (lit : cstring) : bool :=
  streq (firstn (length lit) buf) lit.

(** Integer conversions of the C code: [int] is 32 bits, [size_t] 64 bits. *)
Definition int_of (z : Z) : Z := ((z + 2 ^ 31) mod 2 ^ 32 - 2 ^ 31)%Z.
Definition size_t_of (z : Z) : Z := (z mod 2 ^ 64)%Z.

(** [static inline GLFWbool MIN(size_t a, size_t b)]: the minimum, returned
    through [GLFWbool], which is [int]. *)
Definition MIN (a b : Z) : Z := int_of (if (a <? b)%Z then a else b).

(** [memcpy(dst, src, n)] for a source C string [src] (its NUL is the byte
    after its characters); [None] when [n] bytes do not fit. *)
Definition memcpy (dst : list ascii) (src : cstring) (n : nat) : option (list ascii) :=
  if (n <=? length dst) && (n <=? S (length src))
  then Some (firstn n (src ++ [NUL]) ++ skipn n dst)
  else None.

(** [snprintf(buf + off, size, ...)] where [text] is the whole formatted
    output: at most [size - 1] characters and a NUL are written, nothing when
    [size] is 0.  The value returned by the C function is [length text]. *)
Definition snprintf (buf : list ascii) (off size : nat) (text : cstring) : list ascii :=
  match size with
  | 0 => buf
  | S k =>
      let out := firstn k text ++ [NUL] in
      firstn off buf ++ out ++ skipn (off + length out) buf
  end.

(** [PATH_MAX] of <limits.h> on Linux. *)
Definition PATH_MAX : nat := 4096.
Arguments PATH_MAX : simpl never.

(* ================================================================== *)
(** ** The machine *)

Definition DBusConnection := nat.

(** A [char*] into the malloc heap; [None] is NULL. *)
Definition charp := option nat.

(** The fields of [_GLFWIBUSData] that the file uses. *)
Record _GLFWIBUSData := mkIBUS {
  ok : bool;
  inited : bool;
  address_file_mtime : Z;
  conn : option DBusConnection;
  input_ctx_path : charp;
  address_file_name : charp;
  address : charp
}.

(** The calls that leave the file, in the order they are made. *)
Inductive Event :=
| EGetenv (name : string)
| EInputError (fmt : string)
| EDebug (fmt : string)
| EMachineId
| EFopen (path : option cstring)
| EFclose
| EStat (path : option cstring)
| EIsConnected (c : DBusConnection)
| EClose (c : DBusConnection)
| EConnect (addr : option cstring)
| ECallWithReply (c : DBusConnection) (node path iface method : string) (arg : cstring)
| EFlush (c : DBusConnection)
| EAddMatch (c : DBusConnection) (rule : string)
| ERegisterObjectPath (c : DBusConnection) (path : option cstring)
| ECallVoid (c : option DBusConnection) (node : string) (path : option cstring)
            (iface method : string) (args : list Z)
| ECallNoReply (c : option DBusConnection) (node : string) (path : option cstring)
               (iface method : string) (args : list Z)
| EDispatch (c : DBusConnection).

Record Machine := mkMachine {
  ibus : _GLFWIBUSData;
  heap : list (nat * cstring);   (* the live malloc blocks *)
  brk : nat;                     (* the next block malloc hands out *)
  ans : list ascii;              (* static char ans[PATH_MAX] *)
  trace : list Event
}.

(** An open address file: its content and what [fstat] answers. *)
Record File := mkFile {
  f_contents : list ascii;
  f_mtime : option Z
}.

(** A reply of the bus, as [glfw_dbus_get_args] sees it. *)
Inductive DBusMessage :=
| MsgObjectPath (path : cstring)
| MsgOther.

(** The answers of the outside during one call into the file. *)
Record World := mkWorld {
  w_debugKeyboard : bool;
  w_getenv : string -> option cstring;
  w_stat : cstring -> option Z;
  w_fopen : cstring -> option File;
  w_machine_id : cstring;
  w_connect_to : cstring -> option DBusConnection;
  w_is_connected : DBusConnection -> bool;
  w_call_method_with_reply : DBusConnection -> string -> bool;
  w_call_void_method : DBusConnection -> option cstring -> string -> bool;
  w_call_method_no_reply : DBusConnection -> option cstring -> string -> bool
}.

(** Field updates. *)
Definition set_ok (b : bool) (d : _GLFWIBUSData) : _GLFWIBUSData :=
  mkIBUS b (inited d) (address_file_mtime d) (conn d) (input_ctx_path d)
         (address_file_name d) (address d).
Definition set_inited (b : bool) (d : _GLFWIBUSData) : _GLFWIBUSData :=
  mkIBUS (ok d) b (address_file_mtime d) (conn d) (input_ctx_path d)
         (address_file_name d) (address d).
Definition set_address_file_mtime (t : Z) (d : _GLFWIBUSData) : _GLFWIBUSData :=
  mkIBUS (ok d) (inited d) t (conn d) (input_ctx_path d)
         (address_file_name d) (address d).
Definition set_conn (c : option DBusConnection) (d : _GLFWIBUSData) : _GLFWIBUSData :=
  mkIBUS (ok d) (inited d) (address_file_mtime d) c (input_ctx_path d)
         (address_file_name d) (address d).
Definition set_input_ctx_path (p : charp) (d : _GLFWIBUSData) : _GLFWIBUSData :=
  mkIBUS (ok d) (inited d) (address_file_mtime d) (conn d) p
         (address_file_name d) (address d).
Definition set_address_file_name (p : charp) (d : _GLFWIBUSData) : _GLFWIBUSData :=
  mkIBUS (ok d) (inited d) (address_file_mtime d) (conn d) (input_ctx_path d)
         p (address d).
Definition set_address (p : charp) (d : _GLFWIBUSData) : _GLFWIBUSData :=
  mkIBUS (ok d) (inited d) (address_file_mtime d) (conn d) (input_ctx_path d)
         (address_file_name d) p.

Definition with_ibus (f : _GLFWIBUSData -> _GLFWIBUSData) (m : Machine) : Machine :=
  mkMachine (f (ibus m)) (heap m) (brk m) (ans m) (trace m).
Definition with_ans (b : list ascii) (m : Machine) : Machine :=
  mkMachine (ibus m) (heap m) (brk m) b (trace m).
Definition log (e : Event) (m : Machine) : Machine :=
  mkMachine (ibus m) (heap m) (brk m) (ans m) (trace m ++ [e]).
Definition with_heap (h : list (nat * cstring)) (b : nat) (m : Machine) : Machine :=
  mkMachine (ibus m) h b (ans m) (trace m).

(** The heap: lookup and removal of a block. *)
Fixpoint heap_lookup (h : list (nat * cstring)) (a : nat) : option cstring :=
  match h with
  | [] => None
  | (b, s) :: rest => if Nat.eqb a b then Some s else heap_lookup rest a
  end.

Fixpoint heap_remove (h : list (nat * cstring)) (a : nat) : list (nat * cstring) :=
  match h with
  | [] => []
  | (b, s) :: rest => if Nat.eqb a b then heap_remove rest a else (b, s) :: heap_remove rest a
  end.

(* ================================================================== *)
(** ** The monad of the C code

    A computation runs on a machine and either returns a value and the new
    machine, or has no defined behaviour ([None]: a read over the end of an
    array, a write outside it, [free] of a block that is not live). *)

Definition M (A : Type) : Type := Machine -> option (A * Machine).

Definition ret {A} (a : A) : M A := fun m => Some (a, m).

Definition bind {A B} (x : M A) (k : A -> M B) : M B :=
  fun m => match x m with
           | Some (a, m') => k a m'
           | None => None
           end.

Definition undefined {A} : M A := fun _ => None.

Declare Scope c_scope.
Delimit Scope c_scope with c.
Notation "x <- e ;; k" := (bind e (fun x => k))
  (at level 61, e at next level, right associativity) : c_scope.
Notation "e ;; k" := (bind e (fun _ => k))
  (at level 61, right associativity) : c_scope.
Open Scope c_scope.

Definition emit (e : Event) : M unit := fun m => Some (tt, log e m).

(** [ibus->field] and [ibus->field = v]. *)
Definition load {A} (field : _GLFWIBUSData -> A) : M A :=
  fun m => Some (field (ibus m), m).
Definition store (upd : _GLFWIBUSData -> _GLFWIBUSData) : M unit :=
  fun m => Some (tt, with_ibus upd m).

(** The static array [ans]. *)
Definition get_ans : M (list ascii) := fun m => Some (ans m, m).
Definition set_ans (b : list ascii) : M unit := fun m => Some (tt, with_ans b m).

(** [free(p)]: nothing for NULL, undefined for a block that is not live. *)
Definition free (p : charp) : M unit :=
  fun m => match p with
           | None => Some (tt, m)
           | Some a =>
               match heap_lookup (heap m) a with
               | Some _ => Some (tt, with_heap (heap_remove (heap m) a) (brk m) m)
               | None => None
               end
           end.

(** [strdup(s)]: a new block holding [s] (allocation is taken to succeed). *)
Definition strdup (s : cstring) : M charp :=
  fun m => Some (Some (brk m), with_heap ((brk m, s) :: heap m) (S (brk m)) m).

(** The string behind a [char*] handed to the outside: [None] for NULL,
    undefined for a block that is not live. *)
Definition deref (p : charp) : M (option cstring) :=
  fun m => match p with
           | None => Some (None, m)
           | Some a =>
               match heap_lookup (heap m) a with
               | Some s => Some (Some s, m)
               | None => None
               end
           end.

(** A C string read out of a character array; running over the end of the
    array is undefined. *)
Definition read_str (buf : list ascii) (i : nat) : M cstring :=
  match c_str buf i with
  | Some s => ret s
  | None => undefined
  end.

(** [if (p && p[0])] on a string of the environment. *)
Definition nonempty (p : option cstring) : option cstring :=
  match p with
  | Some ((_ :: _) as s) => Some s
  | _ => None
  end.

(** The six capabilities of [enum Capabilities]. *)
Definition IBUS_CAP_PREEDIT_TEXT : Z := Z.shiftl 1 0.
Definition IBUS_CAP_AUXILIARY_TEXT : Z := Z.shiftl 1 1.
Definition IBUS_CAP_LOOKUP_TABLE : Z := Z.shiftl 1 2.
Definition IBUS_CAP_FOCUS : Z := Z.shiftl 1 3.
Definition IBUS_CAP_PROPERTY : Z := Z.shiftl 1 4.
Definition IBUS_CAP_SURROUNDING_TEXT : Z := Z.shiftl 1 5.

(** The two messages of [debug]; each ends with a newline. *)
Definition connecting_message : string :=
  "Connecting to IBUS daemon @ %s for IME input management
".
Definition connected_message : string :=
  "Connected to IBUS daemon for IME input management
".

Definition IBUS_SERVICE : string := "org.freedesktop.IBus".
Definition IBUS_PATH : string := "/org/freedesktop/IBus".
Definition IBUS_INTERFACE : string := "org.freedesktop.IBus".
Definition IBUS_INPUT_INTERFACE : string := "org.freedesktop.IBus.InputContext".

(** [fgets(buf, size, f)] on the unread rest of the file: at most [size - 1]
    characters, up to and with the first newline. *)
Fixpoint fgets_take (n : nat) (rest : list ascii) : list ascii * list ascii :=
  match n, rest with
  | 0, _ => ([], rest)
  | _, [] => ([], [])
  | S k, ch :: tl =>
      if Ascii.eqb ch LF then ([ch], tl)
      else let (a, b) := fgets_take k tl in (ch :: a, b)
  end.

(** The array after a successful [fgets] (the characters read and a NUL) and
    the rest of the file; [None] at the end of the file. *)
Definition fgets (size : nat) (rest : list ascii) : option (list ascii * list ascii) :=
  match rest with
  | [] => None
  | _ => let (chunk, r) := fgets_take (size - 1) rest in Some (chunk ++ [NUL], r)
  end.

(** [strlen(buf)] of an array that holds a NUL. *)
Definition strlen (buf : list ascii) : nat :=
  match until_nul buf with
  | Some s => length s
  | None => length buf
  end.

(** Lines 134 to 136 of the source: the two tests on the end of the line. *)
Definition strip_line_end (buf : list ascii) : list ascii :=
  let sz := strlen buf in
  let buf1 := if Ascii.eqb (nth (sz - 1) buf NUL) LF then poke buf (sz - 1) NUL else buf in
  if Ascii.eqb (nth (sz - 2) buf1 NUL) CR then poke buf1 (sz - 2) NUL else buf1.

(** The [while (fgets(...))] loop of [read_ibus_address]: the array [buf] at
    the [break], or [None] when the file ends without a match.  Every [fgets]
    that succeeds takes at least one character, so a fuel of the length of
    the file is never used up (lemma [scan_address_fuel]). *)
Fixpoint scan_address (fuel : nat) (rest : list ascii) : option (list ascii) :=
  match fgets 1024 rest with
  | None => None
  | Some (buf, rest') =>
      if strncmp_lit buf (cs "IBUS_ADDRESS=") then Some (strip_line_end buf)
      else match fuel with
           | 0 => None
           | S f => scan_address f rest'
           end
  end.

(* ================================================================== *)
(** ** The functions of ibus_glfw.c *)

Section Program.

Variable w : World.

Definition getenv (name : string) : M (option cstring) :=
  emit (EGetenv name) ;; ret (w_getenv w name).

Definition _glfwInputError (fmt : string) : M unit := emit (EInputError fmt).

Definition debug (fmt : string) : M unit :=
  if w_debugKeyboard w then emit (EDebug fmt) else ret tt.

(** [stat(path, &s)] and [fopen(path, "r")]; a NULL path fails (EFAULT). *)
Definition stat (path : option cstring) : M (option Z) :=
  emit (EStat path) ;;
  ret (match path with Some p => w_stat w p | None => None end).

Definition fopen (path : option cstring) : M (option File) :=
  emit (EFopen path) ;;
  ret (match path with Some p => w_fopen w p | None => None end).

Definition fclose : M unit := emit EFclose.

Definition dbus_get_local_machine_id : M cstring :=
  emit EMachineId ;; ret (w_machine_id w).

Definition glfw_dbus_close_connection (c : DBusConnection) : M unit := emit (EClose c).

Definition glfw_dbus_connect_to (addr : option cstring) : M (option DBusConnection) :=
  emit (EConnect addr) ;;
  ret (match addr with Some a => w_connect_to w a | None => None end).

Definition dbus_connection_get_is_connected (c : DBusConnection) : M bool :=
  emit (EIsConnected c) ;; ret (w_is_connected w c).

(** The reply comes later, through [glfw_ibus_dispatch]: the call only queues
    the request and names the continuation. *)
Definition glfw_dbus_call_method_with_reply (c : DBusConnection)
    (node path iface method : string) (arg : cstring) : M bool :=
  emit (ECallWithReply c node path iface method arg) ;;
  ret (w_call_method_with_reply w c method).

Definition glfw_dbus_call_void_method (c : option DBusConnection) (node : string)
    (path : option cstring) (iface method : string) (args : list Z) : M bool :=
  emit (ECallVoid c node path iface method args) ;;
  ret (match c with Some c => w_call_void_method w c path method | None => false end).

Definition glfw_dbus_call_method_no_reply (c : option DBusConnection) (node : string)
    (path : option cstring) (iface method : string) (args : list Z) : M bool :=
  emit (ECallNoReply c node path iface method args) ;;
  ret (match c with Some c => w_call_method_no_reply w c path method | None => false end).

Definition dbus_connection_flush (c : DBusConnection) : M unit := emit (EFlush c).
Definition dbus_bus_add_match (c : DBusConnection) (rule : string) : M unit :=
  emit (EAddMatch c rule).
Definition dbus_connection_try_register_object_path (c : DBusConnection)
    (path : option cstring) : M unit :=
  emit (ERegisterObjectPath c path).
Definition glfw_dbus_dispatch (c : DBusConnection) : M unit := emit (EDispatch c).

(** [glfw_dbus_get_args(msg, errmsg, DBUS_TYPE_OBJECT_PATH, &path, ...)]: the
    path of the reply, or the error reported and [None]. *)
Definition glfw_dbus_get_args (msg : DBusMessage) (failmsg : string) : M (option cstring) :=
  match msg with
  | MsgObjectPath p => ret (Some p)
  | MsgOther => _glfwInputError failmsg ;; ret None
  end.

Definition has_env_var (name : string) (val : cstring) : M bool :=
  q <- getenv name ;;
  ret (match q with
       | Some q => streq q val
       | None => false
       end).

(** [snprintf(ans + offset, sizeof(ans) - offset, ...)]; an [offset] past
    the array is undefined.  Returns the length of the whole output (an
    environment string is shorter than INT_MAX). *)
Definition snprintf_ans (offset : nat) (text : cstring) : M nat :=
  if PATH_MAX <? offset then undefined
  else
    b <- get_ans ;;
    set_ans (snprintf b offset (PATH_MAX - offset) text) ;;
    ret (length text).

(** Returns [true] for the pointer to the static array [ans], [false] for
    NULL.  The copy [display] of the DISPLAY string is local to the call. *)
Definition get_ibus_address_file_name : M bool :=
  addr <- getenv "IBUS_ADDRESS" ;;
  match nonempty addr with
  | Some addr =>
      let n := Z.to_nat (size_t_of (MIN (Z.of_nat (length addr)) (Z.of_nat PATH_MAX))) in
      b <- get_ans ;;
      match memcpy b addr n with
      | Some b => set_ans b ;; ret true
      | None => undefined
      end
  | None =>
      de <- getenv "DISPLAY" ;;
      let de := match nonempty de with Some d => d | None => cs ":0.0" end in
      let display := de ++ [NUL] in
      let disp_num := strrchr de ":" in
      let screen_num := strrchr de "." in
      match disp_num with
      | None =>
          _glfwInputError "Could not get IBUS address file name as DISPLAY env var has no colon" ;;
          ret false
      | Some i =>
          let display := poke display i NUL in
          let disp_num := S i in
          let display := match screen_num with
                         | Some j => poke display j NUL
                         | None => display
                         end in
          h <- read_str display 0 ;;
          let host := match h with [] => cs "unix" | _ => h end in
          disp <- read_str display disp_num ;;
          set_ans (repeat NUL PATH_MAX) ;;
          let compose (offset : nat) : M bool :=
            key <- dbus_get_local_machine_id ;;
            snprintf_ans offset (cs "/ibus/bus/" ++ key ++ cs "-" ++ host ++ cs "-" ++ disp) ;;
            ret true in
          conf_env <- getenv "XDG_CONFIG_HOME" ;;
          match nonempty conf_env with
          | Some conf_env =>
              offset <- snprintf_ans 0 conf_env ;;
              compose offset
          | None =>
              conf_env <- getenv "HOME" ;;
              match nonempty conf_env with
              | None =>
                  _glfwInputError "Could not get IBUS address file name as no HOME env var is set" ;;
                  ret false
              | Some conf_env =>
                  offset <- snprintf_ans 0 (conf_env ++ cs "/.config") ;;
                  compose offset
              end
          end
      end
  end.

(** The array [buf] is written from its start by every [fgets] and read only
    up to its NUL, so it is kept local to the call. *)
Definition read_ibus_address : M bool :=
  name <- load address_file_name ;;
  name <- deref name ;;
  addr_file <- fopen name ;;
  match addr_file with
  | None =>
      _glfwInputError "Failed to open IBUS address file: %s with error: %s" ;;
      ret false
  | Some f =>
      let stat_result := f_mtime f in
      let found := scan_address (length (f_contents f)) (f_contents f) in
      fclose ;;
      match stat_result with
      | None =>
          _glfwInputError "Failed to stat IBUS address file: %s with error: %s" ;;
          ret false
      | Some st_mtime =>
          store (set_address_file_mtime st_mtime) ;;
          match found with
          | Some buf =>
              p <- load address ;;
              free p ;;
              s <- read_str buf (length (cs "IBUS_ADDRESS=")) ;;
              q <- strdup s ;;
              store (set_address q) ;;
              ret true
          | None =>
              _glfwInputError "Could not find IBUS_ADDRESS in %s" ;;
              ret false
          end
      end
  end.

Definition setup_connection : M bool :=
  let client_name := cs "GLFW_Application" in
  address_file_name_ <- get_ibus_address_file_name ;;
  store (set_ok false) ;;
  if negb address_file_name_ then ret false else
  p <- load address_file_name ;;
  free p ;;
  b <- get_ans ;;
  s <- read_str b 0 ;;
  q <- strdup s ;;
  store (set_address_file_name q) ;;
  r <- read_ibus_address ;;
  if negb r then ret false else
  c <- load conn ;;
  match c with
  | Some c => glfw_dbus_close_connection c ;; store (set_conn None)
  | None => ret tt
  end ;;
  debug connecting_message ;;
  a <- load address ;;
  a <- deref a ;;
  c <- glfw_dbus_connect_to a ;;
  store (set_conn c) ;;
  match c with
  | None => ret false
  | Some c =>
      p <- load input_ctx_path ;;
      free p ;;
      store (set_input_ctx_path None) ;;
      r <- glfw_dbus_call_method_with_reply c IBUS_SERVICE IBUS_PATH IBUS_INTERFACE
             "CreateInputContext" client_name ;;
      if negb r then ret false else
      dbus_connection_flush c ;;
      dbus_bus_add_match c "type='signal',interface='org.freedesktop.IBus.InputContext'" ;;
      p <- load input_ctx_path ;;
      p <- deref p ;;
      dbus_connection_try_register_object_path c p ;;
      dbus_connection_flush c ;;
      ret true
  end.

Definition check_connection : M bool :=
  i <- load inited ;;
  if negb i then ret false else
  c <- load conn ;;
  live <- match c with
          | Some c => dbus_connection_get_is_connected c
          | None => ret false
          end ;;
  if live then ret true else
  name <- load address_file_name ;;
  name <- deref name ;;
  s <- stat name ;;
  mtime <- load address_file_mtime ;;
  if match s with
     | None => true
     | Some st_mtime => negb (st_mtime =? mtime)%Z
     end
  then
    r <- read_ibus_address ;;
    if negb r then ret false else setup_connection
  else ret false.

Definition simple_message (method : string) : M unit :=
  r <- check_connection ;;
  if r then
    c <- load conn ;;
    p <- load input_ctx_path ;;
    p <- deref p ;;
    glfw_dbus_call_void_method c IBUS_SERVICE p IBUS_INPUT_INTERFACE method [] ;;
    ret tt
  else ret tt.

Definition glfw_ibus_set_focused (focused : bool) : M unit :=
  simple_message (if focused then "FocusIn" else "FocusOut").

Definition set_cursor_geometry (x y wd h : Z) : M unit :=
  r <- check_connection ;;
  if r then
    c <- load conn ;;
    p <- load input_ctx_path ;;
    p <- deref p ;;
    glfw_dbus_call_method_no_reply c IBUS_SERVICE p IBUS_INPUT_INTERFACE
      "SetCursorLocation" [x; y; wd; h] ;;
    ret tt
  else ret tt.

(** The continuation of the CreateInputContext request, run by the bus layer
    with the reply [msg] or with an error message. *)
Definition input_context_created (msg : DBusMessage) (errmsg : option cstring) : M unit :=
  match errmsg with
  | Some _ =>
      _glfwInputError "IBUS: Failed to create input context with error: %s"
  | None =>
      path <- glfw_dbus_get_args msg "Failed to get IBUS context path from reply" ;;
      match path with
      | None => ret tt
      | Some path =>
          p <- load input_ctx_path ;;
          free p ;;
          q <- strdup path ;;
          store (set_input_ctx_path q) ;;
          let caps := Z.lor IBUS_CAP_FOCUS IBUS_CAP_PREEDIT_TEXT in
          c <- load conn ;;
          p <- load input_ctx_path ;;
          p <- deref p ;;
          r <- glfw_dbus_call_void_method c IBUS_SERVICE p IBUS_INPUT_INTERFACE
                 "SetCapabilities" [caps] ;;
          if negb r then ret tt else
          glfw_ibus_set_focused false ;;
          set_cursor_geometry 0 0 0 0 ;;
          debug connected_message ;;
          store (set_ok true)
      end
  end.

Definition glfw_connect_to_ibus : M unit :=
  i <- load inited ;;
  if i then ret tt else
  let connect : M unit :=
    store (set_inited true) ;;
    setup_connection ;;
    ret tt in
  x <- has_env_var "XMODIFIERS" (cs "@im=ibus") ;;
  if x then connect else
  g <- has_env_var "GTK_IM_MODULE" (cs "ibus") ;;
  if g then connect else
  q <- has_env_var "QT_IM_MODULE" (cs "ibus") ;;
  if q then connect else ret tt.

(** The macro [F(x)] of [glfw_ibus_terminate]. *)
Definition F (field : _GLFWIBUSData -> charp)
    (set_field : charp -> _GLFWIBUSData -> _GLFWIBUSData) : M unit :=
  p <- load field ;;
  match p with
  | Some _ => free p ;; store (set_field None)
  | None => ret tt
  end.

Definition glfw_ibus_terminate : M unit :=
  c <- load conn ;;
  match c with
  | Some c => glfw_dbus_close_connection c ;; store (set_conn None)
  | None => ret tt
  end ;;
  F input_ctx_path set_input_ctx_path ;;
  F address set_address ;;
  F address_file_name set_address_file_name ;;
  store (set_ok false).

Definition glfw_ibus_dispatch : M unit :=
  c <- load conn ;;
  match c with
  | Some c => glfw_dbus_dispatch c
  | None => ret tt
  end.

End Program.

(* ================================================================== *)
(** ** Predicates on machines and programs *)

(** A program respects a relation between machines when every run that
    returns relates the machine before to the machine after. *)
Definition respects (R : Machine -> Machine -> Prop) {A} (c : M A) : Prop :=
  forall m a m', c m = Some (a, m') -> R m m'.

(** The heap after [free(p)]. *)
Definition freed (p : charp) (h : list (nat * cstring)) : list (nat * cstring) :=
  match p with
  | Some a => heap_remove h a
  | None => h
  end.

(** A [char*] field is sound when it is NULL or points to a live block. *)
Definition live (h : list (nat * cstring)) (p : charp) : Prop :=
  match p with
  | Some a => heap_lookup h a <> None
  | None => True
  end.

Definition apart (p q : charp) : Prop :=
  match p, q with
  | Some a, Some b => a <> b
  | _, _ => True
  end.

(** The session owns its strings: each field is NULL or a live block of its
    own, and the blocks still to be handed out are not in the heap. *)
Record owned (m : Machine) : Prop := mkOwned {
  own_ctx : live (heap m) (input_ctx_path (ibus m));
  own_addr : live (heap m) (address (ibus m));
  own_name : live (heap m) (address_file_name (ibus m));
  own_ctx_addr : apart (input_ctx_path (ibus m)) (address (ibus m));
  own_ctx_name : apart (input_ctx_path (ibus m)) (address_file_name (ibus m));
  own_addr_name : apart (address (ibus m)) (address_file_name (ibus m));
  own_fresh : forall a, brk m <= a -> heap_lookup (heap m) a = None
}.

(** The machine [glfw_ibus_terminate] leaves: the connection closed, the
    three strings freed, every handle NULL, [ok] false. *)
Definition terminated (m : Machine) : Machine :=
  mkMachine
    (mkIBUS false (inited (ibus m)) (address_file_mtime (ibus m)) None None None None)
    (freed (address_file_name (ibus m))
       (freed (address (ibus m)) (freed (input_ctx_path (ibus m)) (heap m))))
    (brk m) (ans m)
    (trace m ++ match conn (ibus m) with Some c => [EClose c] | None => [] end).

(** The machine after the staleness check of a session whose address file
    name is NULL: [stat] and [fopen] were called with NULL and failed. *)
Definition null_path_probe (m : Machine) : Machine :=
  log (EInputError "Failed to open IBUS address file: %s with error: %s")
      (log (EFopen None) (log (EStat None) m)).

(* ================================================================== *)
(** ** Concrete sessions and worlds *)

(** An environment given by a list of settings. *)
Fixpoint env_of (l : list (string * string)) (name : string) : option cstring :=
  match l with
  | [] => None
  | (n, v) :: rest => if String.eqb name n then Some (cs v) else env_of rest name
  end.

(** A world with the environment [env] and the address files [files] (path,
    content, mtime), in which every connection succeeds with the handle 7
    and stays live, and every method call succeeds. *)
Definition world_of (env : list (string * string))
    (files : list (string * (list ascii * Z))) : World :=
  let find (p : cstring) :=
    match List.find (fun f => streq (cs (fst f)) p) files with
    | Some f => Some (snd f)
    | None => None
    end in
  mkWorld false (env_of env)
    (fun p => option_map snd (find p))
    (fun p => option_map (fun f => mkFile (fst f) (Some (snd f))) (find p))
    (cs "mid")
    (fun _ => Some 7)
    (fun _ => true)
    (fun _ _ => true)
    (fun _ _ _ => true)
    (fun _ _ _ => true).

(** The session of a process that has not called into the file yet. *)
Definition initial : Machine :=
  mkMachine (mkIBUS false false 0 None None None None) [] 1 (repeat NUL PATH_MAX) [].

(** A connected session: context created, address read from a file of mtime 5. *)
Definition connected : Machine :=
  mkMachine
    (mkIBUS true true 5 (Some 7) (Some 3) (Some 1) (Some 2))
    [(3, cs "/org/freedesktop/IBus/InputContext_1");
     (2, cs "unix:path=/tmp/ibus");
     (1, cs "/home/u/.config/ibus/bus/mid-unix-0")]
    4 (repeat NUL PATH_MAX) [].

(* ================================================================== *)
(** ** Relations between the machine before and after a run *)

(** [ok] is not raised: it is true after only if it was true before. *)
Definition ok_falls (m m' : Machine) : Prop :=
  ok (ibus m') = true -> ok (ibus m) = true.

(** A component of the machine is left as it was. *)
Definition keeps {A} (f : Machine -> A) (m m' : Machine) : Prop := f m' = f m.

(** A trace extended by events that all satisfy [P]. *)
Definition extends (P : Event -> Prop) (t t' : list Event) : Prop :=
  exists evs, t' = t ++ evs /\ Forall P evs.

(** The trace grows by events that all satisfy [P]. *)
Definition grows (P : Event -> Prop) (m m' : Machine) : Prop :=
  extends P (trace m) (trace m').

(** Both relations hold. *)
Definition both (R1 R2 : Machine -> Machine -> Prop) (m m' : Machine) : Prop :=
  R1 m m' /\ R2 m m'.

(** Calls into the D-Bus layer that open, close or use a connection. *)
Definition bus_event (e : Event) : Prop :=
  match e with
  | EGetenv _ | EInputError _ | EDebug _ | EMachineId
  | EFopen _ | EFclose | EStat _ | EIsConnected _ => False
  | _ => True
  end.

Definition no_bus (e : Event) : Prop := ~ bus_event e.

(** The events of the address resolver and of the address file reader. *)
Definition resolver_event (e : Event) : Prop :=
  match e with
  | EGetenv _ | EInputError _ | EMachineId => True
  | _ => False
  end.

Definition reader_event (e : Event) : Prop :=
  match e with
  | EFopen _ | EFclose | EInputError _ => True
  | _ => False
  end.

(** Several events logged at once. *)
Definition logs (evs : list Event) (m : Machine) : Machine :=
  mkMachine (ibus m) (heap m) (brk m) (ans m) (trace m ++ evs).

(** What the [SetCapabilities] call of the continuation answers. *)
Definition set_capabilities_reply (w : World) (path : cstring) (m : Machine) : bool :=
  match conn (ibus m) with
  | Some c => w_call_void_method w c (Some path) "SetCapabilities"
  | None => false
  end.

(** What a run of the address resolver may change: the static array and
    the trace, by its own events. *)
Definition resolver_step (m m' : Machine) : Prop :=
  ibus m' = ibus m /\ heap m' = heap m /\ brk m' = brk m /\ grows resolver_event m m'.

(** What a run of [read_ibus_address] leaves alone. *)
Definition reader_step (m m' : Machine) : Prop :=
  ok (ibus m') = ok (ibus m) /\
  inited (ibus m') = inited (ibus m) /\
  conn (ibus m') = conn (ibus m) /\
  input_ctx_path (ibus m') = input_ctx_path (ibus m) /\
  address_file_name (ibus m') = address_file_name (ibus m) /\
  ans m' = ans m /\
  brk m <= brk m' /\
  grows reader_event m m'.

(** Every event but the registration of an object path handler. *)
Definition not_register (e : Event) : Prop :=
  match e with
  | ERegisterObjectPath _ _ => False
  | _ => True
  end.

(** An address file as ibus-daemon writes it. *)
Definition address_file : list ascii :=
  cs "# This file is created by ibus-daemon, please do not modify it" ++ [LF] ++
  cs "IBUS_ADDRESS=unix:path=/tmp/ibus" ++ [LF] ++
  cs "IBUS_DAEMON_PID=1" ++ [LF].

(** A desktop that selects ibus, on display :1.0, with its address file. *)
Definition desktop : World :=
  world_of
    [("XMODIFIERS", "@im=ibus"); ("DISPLAY", ":1.0"); ("HOME", "/home/u")]%string
    [("/home/u/.config/ibus/bus/mid-unix-1"%string, (address_file, 5%Z))].

(** The gate of the specification ([should_activate]): some selector
    variable of the environment has its expected value. *)
Definition env_is (w : World) (name : string) (val : cstring) : bool :=
  match w_getenv w name with
  | Some q => streq q val
  | None => false
  end.

Definition should_activate (w : World) : bool :=
  env_is w "XMODIFIERS" (cs "@im=ibus") ||
  env_is w "GTK_IM_MODULE" (cs "ibus") ||
  env_is w "QT_IM_MODULE" (cs "ibus").

(** The variables the gate of [glfw_connect_to_ibus] looks at: it stops at
    the first selector it finds. *)
Definition gate_events (w : World) : list Event :=
  EGetenv "XMODIFIERS" ::
  if env_is w "XMODIFIERS" (cs "@im=ibus") then [] else
  EGetenv "GTK_IM_MODULE" ::
  if env_is w "GTK_IM_MODULE" (cs "ibus") then [] else
  [EGetenv "QT_IM_MODULE"].

(** A session that was activated before and has no connection. *)
Definition activated : Machine :=
  mkMachine (mkIBUS false true 0 None None None None) [] 1 (repeat NUL PATH_MAX) [].

(** The address file as [read_ibus_address] opens it: the string behind
    [address_file_name], and the file the world has under that name. *)
Definition file_name_of (m : Machine) : option cstring :=
  match address_file_name (ibus m) with
  | Some a => heap_lookup (heap m) a
  | None => None
  end.

Definition opened (w : World) (m : Machine) : option File :=
  match file_name_of m with
  | Some p => w_fopen w p
  | None => None
  end.

(** The address line found in a file: the array [buf] at the [break]. *)
Definition found_in (f : File) : option (list ascii) :=
  scan_address (length (f_contents f)) (f_contents f).

(** The address file of the connected session rewritten without an address
    line, with the new mtime 9; the daemon is not reachable. *)
Definition restarting : World :=
  mkWorld false (env_of [])
    (fun p => if streq p (cs "/home/u/.config/ibus/bus/mid-unix-0") then Some 9%Z else None)
    (fun p => if streq p (cs "/home/u/.config/ibus/bus/mid-unix-0")
              then Some (mkFile (cs "# ibus-daemon is restarting" ++ [LF]) (Some 9%Z))
              else None)
    (cs "mid")
    (fun _ => None)
    (fun _ => false)
    (fun _ _ => false)
    (fun _ _ _ => false)
    (fun _ _ _ => false).

(** The connection of the session does not report itself live. *)
Definition not_live (w : World) (m : Machine) : Prop :=
  match conn (ibus m) with
  | Some c => w_is_connected w c = false
  | None => True
  end.

(** The test of [check_connection] on the address file: [stat] fails or the
    mtime differs from the stored one. *)
Definition stale (w : World) (m : Machine) : bool :=
  match match file_name_of m with
        | Some p => w_stat w p
        | None => None
        end
  with
  | Some st_mtime => negb (st_mtime =? address_file_mtime (ibus m))%Z
  | None => true
  end.

(** The machine after the liveness test and the [stat] of [check_connection]. *)
Definition probed (m : Machine) : Machine :=
  logs (match conn (ibus m) with Some c => [EIsConnected c] | None => [] end ++
        [EStat (file_name_of m)]) m.

(** The close of the old connection, and a debug line. *)
Definition closing (c : option DBusConnection) : list Event :=
  match c with
  | Some c => [EClose c]
  | None => []
  end.

Definition debug_line (w : World) (fmt : string) : list Event :=
  if w_debugKeyboard w then [EDebug fmt] else [].

(** A full reconnect between [m] and [m']: after events that do not touch
    the bus, the old connection (if any) is closed, then a connection is
    opened with the address [a], which is the string of the [address] field
    after the call, in a block allocated during the call; the handle is
    what the bus layer answered. *)
Definition reconnected (w : World) (m m' : Machine) : Prop :=
  exists pre a q post,
    trace m' = trace m ++ pre ++ closing (conn (ibus m)) ++
               debug_line w connecting_message ++
               [EConnect (Some a)] ++ post /\
    Forall no_bus pre /\
    address (ibus m') = Some q /\ brk m <= q /\
    heap_lookup (heap m') q = Some a /\
    conn (ibus m') = w_connect_to w a.

(** A run that stops before it touches the connection. *)
Definition untouched (m m' : Machine) : Prop :=
  conn (ibus m') = conn (ibus m) /\ grows no_bus m m'.

(** The context path of the session is a block handed out before. *)
Definition ctx_below (m : Machine) : Prop :=
  forall p, input_ctx_path (ibus m) = Some p -> p < brk m.

(** The daemon has restarted: the old connection is dead, the address file
    of display :0 is rewritten with mtime 9, new connections get handle 8. *)
Definition restarted : World :=
  mkWorld false
    (env_of [("DISPLAY", ":0"); ("HOME", "/home/u")]%string)
    (fun p => if streq p (cs "/home/u/.config/ibus/bus/mid-unix-0") then Some 9%Z else None)
    (fun p => if streq p (cs "/home/u/.config/ibus/bus/mid-unix-0")
              then Some (mkFile address_file (Some 9%Z))
              else None)
    (cs "mid")
    (fun _ => Some 8)
    (fun _ => false)
    (fun _ _ => true)
    (fun _ _ _ => true)
    (fun _ _ _ => true).

(** The override variable set to a string of PATH_MAX characters. *)
Definition too_long : World :=
  mkWorld false
    (fun name => if String.eqb name "IBUS_ADDRESS"
                 then Some (repeat "a"%char PATH_MAX) else None)
    (fun _ => None) (fun _ => None) (cs "mid") (fun _ => None) (fun _ => false)
    (fun _ _ => false) (fun _ _ _ => false) (fun _ _ _ => false).

(** The desktop with the override variable set. *)
Definition overridden : World :=
  world_of
    [("IBUS_ADDRESS", "/run/ibus"); ("XMODIFIERS", "@im=ibus");
     ("DISPLAY", ":1.0"); ("HOME", "/home/u")]%string
    [].

(** The host and the display number that lines 85 to 98 of the source cut
    out of the DISPLAY string [de]: the copy is cut at its last colon and at
    its last dot, the host is read from its start and the display number
    from behind the colon; an empty host becomes "unix". *)
Definition display_segments (de : cstring) : option (cstring * cstring) :=
  match strrchr de ":" with
  | None => None
  | Some i =>
      let display := poke (de ++ [NUL]) i NUL in
      let display := match strrchr de "." with
                     | Some j => poke display j NUL
                     | None => display
                     end in
      match c_str display 0, c_str display (S i) with
      | Some h, Some disp => Some (match h with [] => cs "unix" | _ => h end, disp)
      | _, _ => None
      end
  end.

(** The split as the specification words it: the host is what stands before
    the first colon, the display number runs from behind the first colon to
    the first dot, or to the end. *)
Fixpoint before (ch : ascii) (s : cstring) : cstring :=
  match s with
  | [] => []
  | x :: rest => if Ascii.eqb x ch then [] else x :: before ch rest
  end.

Fixpoint behind (ch : ascii) (s : cstring) : cstring :=
  match s with
  | [] => []
  | x :: rest => if Ascii.eqb x ch then rest else behind ch rest
  end.

Definition spec_segments (de : cstring) : cstring * cstring :=
  (match before ":" de with [] => cs "unix" | h => h end,
   before "." (behind ":" de)).

(** The DISPLAY string the resolver works on, and the configuration
    directory it puts in front of the name. *)
Definition display_of (w : World) : cstring :=
  match nonempty (w_getenv w "DISPLAY") with
  | Some d => d
  | None => cs ":0.0"
  end.

Definition config_home (w : World) : option cstring :=
  match nonempty (w_getenv w "XDG_CONFIG_HOME") with
  | Some c => Some c
  | None =>
      match nonempty (w_getenv w "HOME") with
      | Some h => Some (h ++ cs "/.config")
      | None => None
      end
  end.

(** The variables the resolver reads after IBUS_ADDRESS when it derives the
    name from the display. *)
Definition derive_events (w : World) : list Event :=
  [EGetenv "IBUS_ADDRESS"; EGetenv "DISPLAY"; EGetenv "XDG_CONFIG_HOME"] ++
  match nonempty (w_getenv w "XDG_CONFIG_HOME") with
  | Some _ => []
  | None => [EGetenv "HOME"]
  end ++ [EMachineId].

(** An IPv6 display, and a configuration directory of PATH_MAX characters. *)
Definition remote_display : World :=
  world_of [("DISPLAY", "[::1]:0.0"); ("HOME", "/home/u")]%string [].

Definition deep_config_home : World :=
  mkWorld false
    (fun name => if String.eqb name "XDG_CONFIG_HOME" then Some (repeat "x"%char PATH_MAX)
                 else if String.eqb name "DISPLAY" then Some (cs ":1.0") else None)
    (fun _ => None) (fun _ => None) (cs "mid") (fun _ => None) (fun _ => false)
    (fun _ _ => false) (fun _ _ _ => false) (fun _ _ _ => false).

(** The key of the address line. *)
Definition address_key : cstring := cs "IBUS_ADDRESS=".

(** A line (without its newline) that [fgets] reads whole and that is not
    the address line. *)
Definition other_line (l : list ascii) : Prop :=
  ~ In LF l /\ length l < 1023 /\ firstn (length address_key) l <> address_key.

(** A value without NUL, LF and CR. *)
Definition plain (v : cstring) : Prop := ~ In NUL v /\ ~ In LF v /\ ~ In CR v.

(** The end of the address line: LF, CR LF, or the end of the file. *)
Definition ends_line (eol rest : list ascii) : Prop :=
  eol = [LF] \/ eol = [CR; LF] \/ (eol = [] /\ rest = []).

(** Lines, each followed by a newline. *)
Definition lf_lines (lines : list (list ascii)) : list ascii :=
  concat (map (fun l => l ++ [LF]) lines).

(** An address file that ends its lines with CR alone. *)
Definition cr_file : list ascii :=
  cs "IBUS_ADDRESS=unix:path=/tmp/ibus" ++ [CR] ++ cs "IBUS_DAEMON_PID=1" ++ [CR].

Definition cr_desktop : World :=
  world_of [] [("/home/u/.config/ibus/bus/mid-unix-0"%string, (cr_file, 9%Z))].

(** An address line of more than 1023 characters. *)
Definition long_file : list ascii :=
  cs "IBUS_ADDRESS=" ++ repeat "a"%char 1020 ++ [LF].

Definition long_desktop : World :=
  world_of [] [("/home/u/.config/ibus/bus/mid-unix-0"%string, (long_file, 9%Z))].

(** An activated session whose address file name is resolved for display
    :1.0 and whose address is not read yet. *)
Definition resolved : Machine :=
  mkMachine (mkIBUS false true 0 None None (Some 1) None)
            [(1, cs "/home/u/.config/ibus/bus/mid-unix-1")] 2 (repeat NUL PATH_MAX) [].

(* ================================================================== *)
(** ** Sessions: the calls other files make *)

(** The functions of the file that other files call: the four that
    ibus_glfw.h declares, and the continuation that the bus layer runs when
    the reply to CreateInputContext arrives. *)
Inductive Call :=
| ConnectToIbus
| Terminate
| Dispatch
| SetFocused (focused : bool)
| InputContextCreated (msg : DBusMessage) (errmsg : option cstring).

Definition call (w : World) (c : Call) : M unit :=
  match c with
  | ConnectToIbus => glfw_connect_to_ibus w
  | Terminate => glfw_ibus_terminate
  | Dispatch => glfw_ibus_dispatch
  | SetFocused focused => glfw_ibus_set_focused w focused
  | InputContextCreated msg errmsg => input_context_created w msg errmsg
  end.

(** The sessions a process can be in: it starts with the zeroed structure and
    makes calls, each in the world of its moment. *)
Inductive reachable : Machine -> Prop :=
| reachable_initial : reachable initial
| reachable_call w c m m' :
    reachable m -> call w c m = Some (tt, m') -> reachable m'.

(** No string is leaked: every live block is the string of a field. *)
Definition tight (m : Machine) : Prop :=
  forall a, heap_lookup (heap m) a <> None ->
    input_ctx_path (ibus m) = Some a \/
    address (ibus m) = Some a \/
    address_file_name (ibus m) = Some a.


(** A sequence of calls, each in the world of its moment. *)
Fixpoint calls (l : list (World * Call)) : M unit :=
  match l with
  | [] => ret tt
  | (w, c) :: rest => call w c ;; calls rest
  end.

(** The calls the host makes (the continuation is run by the bus layer). *)
Definition host_call (c : Call) : Prop :=
  match c with
  | InputContextCreated _ _ => False
  | _ => True
  end.

Definition getenv_event (e : Event) : Prop :=
  match e with
  | EGetenv _ => True
  | _ => False
  end.

(** The session is activated and holds no connection and no string. *)
Definition down (m : Machine) : Prop :=
  inited (ibus m) = true /\ conn (ibus m) = None /\
  input_ctx_path (ibus m) = None /\ address (ibus m) = None /\
  address_file_name (ibus m) = None /\ ok (ibus m) = false.

(** The session was never activated and holds nothing. *)
Definition idle (m : Machine) : Prop :=
  inited (ibus m) = false /\ conn (ibus m) = None /\
  input_ctx_path (ibus m) = None /\ address (ibus m) = None /\
  address_file_name (ibus m) = None /\ ok (ibus m) = false.

(** The desktop of before with a DISPLAY that has no colon, and one with
    neither HOME nor XDG_CONFIG_HOME. *)
Definition colonless : World :=
  world_of [("XMODIFIERS", "@im=ibus"); ("DISPLAY", "wayland-0"); ("HOME", "/home/u")]%string [].

Definition homeless : World :=
  world_of [("XMODIFIERS", "@im=ibus"); ("DISPLAY", ":0")]%string [].

(** A configuration directory of one character more than PATH_MAX. *)
Definition overlong_config_home : World :=
  mkWorld false
    (fun name => if String.eqb name "XDG_CONFIG_HOME" then Some (repeat "x"%char (S PATH_MAX))
                 else if String.eqb name "DISPLAY" then Some (cs ":1.0") else None)
    (fun _ => None) (fun _ => None) (cs "mid") (fun _ => None) (fun _ => false)
    (fun _ _ => false) (fun _ _ _ => false) (fun _ _ _ => false).

(** An address line of 2000 characters in the address file of display :1. *)
Definition long_line_desktop : World :=
  world_of []
    [("/home/u/.config/ibus/bus/mid-unix-1"%string,
      (cs "IBUS_ADDRESS=" ++ repeat "a"%char 1010 ++ repeat "b"%char 977 ++ [LF], 9%Z))].

(** The string behind [input_ctx_path], as it is handed to the bus. *)
Definition context_path_of (m : Machine) : option cstring :=
  match input_ctx_path (ibus m) with
  | Some a => heap_lookup (heap m) a
  | None => None
  end.

(** The environment fits the static array: an override shorter than the
    array, or else a configuration directory that ends inside it. *)
Definition fits (w : World) : Prop :=
  match nonempty (w_getenv w "IBUS_ADDRESS") with
  | Some addr => length addr < PATH_MAX
  | None =>
      match config_home w with
      | Some conf => length conf <= PATH_MAX
      | None => True
      end
  end.

(** The static array has its PATH_MAX bytes and a NUL in the last one. *)
Definition array_ok (m : Machine) : Prop :=
  length (ans m) = PATH_MAX /\ nth (PATH_MAX - 1) (ans m) NUL = NUL.

(** The connection of the session is kept or closed: the trace has grown,
    and the handle the session held is still its handle, or
    [glfw_dbus_close_connection] was called on it. *)
Definition kept_or_closed (m m' : Machine) : Prop :=
  exists evs,
    trace m' = trace m ++ evs /\
    forall c, conn (ibus m) = Some c -> conn (ibus m') = Some c \/ In (EClose c) evs.

(** An address file whose address line ends the file, with a CR in the
    last place but one. *)
Definition cr_inside_file : list ascii :=
  cs "IBUS_ADDRESS=unix:path=/tmp/ibus" ++ [CR] ++ cs "x".

Definition cr_inside_desktop : World :=
  world_of [] [("/home/u/.config/ibus/bus/mid-unix-0"%string, (cr_inside_file, 9%Z))].

(** The machine [setup_connection] reads the address file on: [ok] is
    cleared, the old file name is freed and [address_file_name] is a copy of
    the string [s] that the resolver left in the static array (lines 179 to
    182). *)
Definition renamed (s : cstring) (m : Machine) : Machine :=
  with_ibus (set_address_file_name (Some (brk m)))
    (with_heap ((brk m, s) :: freed (address_file_name (ibus m)) (heap m)) (S (brk m))
       (with_ibus (set_ok false) m)).




(* ================================================================== *)
(** ** Running programs: general lemmas *)

Lemma bind_inv A B (c : M A) (k : A -> M B) m b m2 :
  bind c k m = Some (b, m2) ->
  exists a m1, c m = Some (a, m1) /\ k a m1 = Some (b, m2).
Proof.
  unfold bind. destruct (c m) as [[a m1]|]; [|discriminate].
  intros H. exists a, m1. split; [reflexivity | exact H].
Qed.

Lemma bind_run A B (c : M A) (k : A -> M B) m a m1 :
  c m = Some (a, m1) -> bind c k m = k a m1.
Proof. intros H. unfold bind. rewrite H. reflexivity. Qed.
Arguments bind_run {A B c} k {m a m1} _.

Section Respects.

Variable R : Machine -> Machine -> Prop.
Hypothesis R_refl : forall m, R m m.
Hypothesis R_trans : forall m1 m2 m3, R m1 m2 -> R m2 m3 -> R m1 m3.

Lemma respects_ret A (a : A) : respects R (ret a).
Proof. intros m a' m' H. inversion H. apply R_refl. Qed.

Lemma respects_undefined A : respects R (@undefined A).
Proof. intros m a m' H. discriminate. Qed.

Lemma respects_bind A B (c : M A) (k : A -> M B) :
  respects R c -> (forall a, respects R (k a)) -> respects R (bind c k).
Proof.
  intros Hc Hk m b m2 H. apply bind_inv in H as (a & m1 & H1 & H2).
  apply R_trans with m1; [eapply Hc | eapply Hk]; eassumption.
Qed.

Lemma respects_load A (f : _GLFWIBUSData -> A) : respects R (load f).
Proof. intros m a m' H. inversion H. apply R_refl. Qed.

Lemma respects_get_ans : respects R get_ans.
Proof. intros m a m' H. inversion H. apply R_refl. Qed.

Lemma respects_deref p : respects R (deref p).
Proof.
  intros m a m' H. unfold deref in H. destruct p as [a0|].
  - destruct (heap_lookup (heap m) a0); inversion H. apply R_refl.
  - inversion H. apply R_refl.
Qed.

Lemma respects_read_str buf i : respects R (read_str buf i).
Proof.
  unfold read_str. destruct (c_str buf i).
  - apply respects_ret.
  - apply respects_undefined.
Qed.

Lemma respects_emit e : (forall m, R m (log e m)) -> respects R (emit e).
Proof. intros HR m a m' H. inversion H. apply HR. Qed.

Lemma respects_store upd : (forall m, R m (with_ibus upd m)) -> respects R (store upd).
Proof. intros HR m a m' H. inversion H. apply HR. Qed.

Lemma respects_set_ans b : (forall m, R m (with_ans b m)) -> respects R (set_ans b).
Proof. intros HR m a m' H. inversion H. apply HR. Qed.

Lemma respects_free p : (forall m h, R m (with_heap h (brk m) m)) -> respects R (free p).
Proof.
  intros HR m a m' H. unfold free in H. destruct p as [a0|].
  - destruct (heap_lookup (heap m) a0); inversion H. apply HR.
  - inversion H. apply R_refl.
Qed.

Lemma respects_strdup s :
  (forall m, R m (with_heap ((brk m, s) :: heap m) (S (brk m)) m)) ->
  respects R (strdup s).
Proof. intros HR m a m' H. inversion H. apply HR. Qed.

End Respects.

(** The heap. *)
Lemma heap_lookup_remove_same h a : heap_lookup (heap_remove h a) a = None.
Proof.
  induction h as [|[b s] h IH]; simpl; [reflexivity|].
  destruct (Nat.eqb a b) eqn:E; [exact IH|]. simpl. rewrite E. exact IH.
Qed.

Lemma heap_lookup_remove_other h a b :
  a <> b -> heap_lookup (heap_remove h a) b = heap_lookup h b.
Proof.
  intros Hab. induction h as [|[c s] h IH]; simpl; [reflexivity|].
  destruct (Nat.eqb a c) eqn:E.
  - apply Nat.eqb_eq in E. subst c.
    destruct (Nat.eqb b a) eqn:E'; [apply Nat.eqb_eq in E'; congruence | exact IH].
  - simpl. rewrite IH. reflexivity.
Qed.

Lemma live_freed h p q : live h q -> apart p q -> live (freed p h) q.
Proof.
  destruct p as [a|], q as [b|]; simpl; auto.
  intros Hq Hab. rewrite heap_lookup_remove_other; assumption.
Qed.

Lemma free_live p m :
  live (heap m) p -> free p m = Some (tt, with_heap (freed p (heap m)) (brk m) m).
Proof.
  destruct p as [a|]; simpl; intros H.
  - destruct (heap_lookup (heap m) a); [reflexivity | congruence].
  - destruct m; reflexivity.
Qed.


(* ================================================================== *)
(** ** Frames: what the functions leave alone *)

Lemma extends_refl P t : extends P t t.
Proof. exists []. rewrite app_nil_r. split; [reflexivity | constructor]. Qed.

Lemma extends_app P t t' evs :
  extends P t t' -> Forall P evs -> extends P t (t' ++ evs).
Proof.
  intros (e1 & H1 & F1) F2. exists (e1 ++ evs). split.
  - rewrite H1, app_assoc. reflexivity.
  - apply Forall_app. split; assumption.
Qed.

Lemma extends_snoc P t t' e : extends P t t' -> P e -> extends P t (t' ++ [e]).
Proof. intros H He. apply extends_app; [exact H | repeat constructor; exact He]. Qed.

Lemma extends_weaken (P Q : Event -> Prop) t t' :
  (forall e, P e -> Q e) -> extends P t t' -> extends Q t t'.
Proof.
  intros HPQ (evs & H & F). exists evs. split; [exact H|].
  eapply Forall_impl; [exact HPQ | exact F].
Qed.

Lemma extends_trans P t1 t2 t3 : extends P t1 t2 -> extends P t2 t3 -> extends P t1 t3.
Proof. intros H1 (e2 & H2 & F2). subst t3. apply extends_app; assumption. Qed.

Lemma grows_same P m m' : trace m' = trace m -> grows P m m'.
Proof. intros H. exists []. rewrite app_nil_r. split; [exact H | constructor]. Qed.

Lemma grows_one P e m m' : trace m' = trace m ++ [e] -> P e -> grows P m m'.
Proof. intros H He. exists [e]. split; [exact H | repeat constructor; exact He]. Qed.

Lemma grows_trans P m1 m2 m3 : grows P m1 m2 -> grows P m2 m3 -> grows P m1 m3.
Proof. apply extends_trans. Qed.

Lemma grows_weaken (P Q : Event -> Prop) m m' :
  (forall e, P e -> Q e) -> grows P m m' -> grows Q m m'.
Proof. apply extends_weaken. Qed.

Lemma grows_refl P m : grows P m m.
Proof. apply grows_same. reflexivity. Qed.

Lemma ok_falls_refl m : ok_falls m m.
Proof. unfold ok_falls. auto. Qed.

Lemma ok_falls_trans m1 m2 m3 : ok_falls m1 m2 -> ok_falls m2 m3 -> ok_falls m1 m3.
Proof. unfold ok_falls. auto. Qed.

Lemma resolver_step_refl m : resolver_step m m.
Proof. unfold resolver_step. auto using grows_refl. Qed.

Lemma resolver_step_trans m1 m2 m3 :
  resolver_step m1 m2 -> resolver_step m2 m3 -> resolver_step m1 m3.
Proof.
  unfold resolver_step. intros (A1 & B1 & C1 & D1) (A2 & B2 & C2 & D2).
  repeat split; try congruence. eapply grows_trans; eassumption.
Qed.

Lemma reader_step_refl m : reader_step m m.
Proof. unfold reader_step. repeat split; auto using grows_refl. Qed.

Lemma reader_step_trans m1 m2 m3 :
  reader_step m1 m2 -> reader_step m2 m3 -> reader_step m1 m3.
Proof.
  unfold reader_step.
  intros (A1 & B1 & C1 & D1 & E1 & F1 & G1 & H1) (A2 & B2 & C2 & D2 & E2 & F2 & G2 & H2).
  repeat split; try congruence; [lia | eapply grows_trans; eassumption].
Qed.

(** Unfolding the calls of the program down to the operations of the monad. *)
Ltac unfold_program :=
  cbv beta delta
    [getenv _glfwInputError debug stat fopen fclose dbus_get_local_machine_id
     glfw_dbus_close_connection glfw_dbus_connect_to dbus_connection_get_is_connected
     glfw_dbus_call_method_with_reply glfw_dbus_call_void_method
     glfw_dbus_call_method_no_reply dbus_connection_flush dbus_bus_add_match
     dbus_connection_try_register_object_path glfw_dbus_dispatch glfw_dbus_get_args
     has_env_var snprintf_ans get_ibus_address_file_name read_ibus_address setup_connection
     check_connection simple_message glfw_ibus_set_focused set_cursor_geometry
     glfw_connect_to_ibus F glfw_ibus_terminate glfw_ibus_dispatch].

Ltac machine_simpl :=
  cbn [ok inited address_file_mtime conn input_ctx_path address_file_name address
       ibus heap brk ans trace
       log logs with_ibus with_ans with_heap
       set_ok set_inited set_address_file_mtime set_conn set_input_ctx_path
       set_address_file_name set_address].

(** The side condition of a store, a log or a heap change. *)
Ltac frame_fin :=
  unfold resolver_step, reader_step, ok_falls, keeps;
  machine_simpl;
  repeat match goal with |- _ /\ _ => split end;
  first [ reflexivity | discriminate | solve [auto]
        | apply Nat.le_refl | apply Nat.le_succ_diag_r
        | apply grows_same; reflexivity
        | eapply grows_one; [reflexivity | exact I] ].

(** A program built from the operations of the monad respects [R] when its
    operations do. *)
Ltac respects_step Hr Ht :=
  first
    [ progress cbv zeta
    | match goal with
      | |- respects _ (bind _ _) => apply respects_bind; [exact Ht | | intros ?]
      | |- respects _ (ret _) => apply respects_ret; exact Hr
      | |- respects _ undefined => apply respects_undefined
      | |- respects _ (load _) => apply respects_load; exact Hr
      | |- respects _ get_ans => apply respects_get_ans; exact Hr
      | |- respects _ (deref _) => apply respects_deref; exact Hr
      | |- respects _ (read_str _ _) => apply respects_read_str; exact Hr
      | |- respects _ (emit _) => apply respects_emit; intros; frame_fin
      | |- respects _ (store _) => apply respects_store; intros; frame_fin
      | |- respects _ (set_ans _) => apply respects_set_ans; intros; frame_fin
      | |- respects _ (free _) => apply respects_free; [exact Hr | intros; frame_fin]
      | |- respects _ (strdup _) => apply respects_strdup; intros; frame_fin
      | |- respects _ (match ?x with _ => _ end) => destruct x
      end ].

Ltac respects_tac Hr Ht := unfold_program; repeat respects_step Hr Ht.

Lemma resolver_frame w : respects resolver_step (get_ibus_address_file_name w).
Proof. respects_tac resolver_step_refl resolver_step_trans. Qed.

Lemma reader_frame w : respects reader_step (read_ibus_address w).
Proof. respects_tac reader_step_refl reader_step_trans. Qed.

Lemma setup_connection_ok_falls w : respects ok_falls (setup_connection w).
Proof. respects_tac ok_falls_refl ok_falls_trans. Qed.

Lemma check_connection_ok_falls w : respects ok_falls (check_connection w).
Proof. respects_tac ok_falls_refl ok_falls_trans. Qed.

Lemma glfw_ibus_set_focused_ok_falls w focused :
  respects ok_falls (glfw_ibus_set_focused w focused).
Proof. respects_tac ok_falls_refl ok_falls_trans. Qed.

Lemma set_cursor_geometry_ok_falls w x y wd h :
  respects ok_falls (set_cursor_geometry w x y wd h).
Proof. respects_tac ok_falls_refl ok_falls_trans. Qed.

Lemma glfw_connect_to_ibus_ok_falls w : respects ok_falls (glfw_connect_to_ibus w).
Proof. respects_tac ok_falls_refl ok_falls_trans. Qed.

Lemma glfw_ibus_terminate_ok_falls : respects ok_falls glfw_ibus_terminate.
Proof. respects_tac ok_falls_refl ok_falls_trans. Qed.

Lemma glfw_ibus_dispatch_ok_falls : respects ok_falls glfw_ibus_dispatch.
Proof. respects_tac ok_falls_refl ok_falls_trans. Qed.

(* ================================================================== *)
(** ** Termination of the session *)

(** What a call of [glfw_ibus_terminate] does on a session that owns its strings. *)
Lemma terminate_run o i t c p n a h b an tr :
  live h p -> live h a -> live h n -> apart p a -> apart p n -> apart a n ->
  glfw_ibus_terminate (mkMachine (mkIBUS o i t c p n a) h b an tr) =
  Some (tt, mkMachine (mkIBUS false i t None None None None)
                      (freed n (freed a (freed p h))) b an
                      (tr ++ match c with Some c => [EClose c] | None => [] end)).
Proof.
  intros Hp Ha Hn Hpa Hpn Han.
  unfold glfw_ibus_terminate, F, bind, load, store, free, glfw_dbus_close_connection, emit, ret.
  destruct c as [c|]; cbn.
  all: destruct p as [p|], a as [a|], n as [n|]; cbn in *.
  all: repeat match goal with
         | |- context [heap_lookup (heap_remove _ ?x) ?y] =>
             rewrite (@heap_lookup_remove_other _ x y) by congruence
         | |- context [match heap_lookup ?h ?x with _ => _ end] =>
             destruct (heap_lookup h x) eqn:?; [|congruence]; cbn
         end.
  all: try rewrite app_nil_r; reflexivity.
Qed.

Lemma terminate_owned (m : Machine) :
  owned m -> glfw_ibus_terminate m = Some (tt, terminated m).
Proof.
  intros [Hc Ha Hn Hca Hcn Han _].
  destruct m as [[o i t c p n a] h b an tr]. simpl in *.
  apply terminate_run; assumption.
Qed.

(** C9: [glfw_ibus_terminate] is idempotent.  On a session that owns its
    strings the call returns; a second call returns the same machine, so two
    calls leave what one call leaves; the connection handle and the three
    string fields are NULL and [ok] is false after the first call; each
    non-NULL field was freed once (the heap lost exactly its block) and the
    second call frees and closes nothing. *)
Theorem terminate_idempotent (m : Machine) :
  owned m ->
  glfw_ibus_terminate m = Some (tt, terminated m) /\
  glfw_ibus_terminate (terminated m) = Some (tt, terminated m) /\
  (glfw_ibus_terminate ;; glfw_ibus_terminate) m = glfw_ibus_terminate m /\
  conn (ibus (terminated m)) = None /\
  input_ctx_path (ibus (terminated m)) = None /\
  address (ibus (terminated m)) = None /\
  address_file_name (ibus (terminated m)) = None /\
  ok (ibus (terminated m)) = false /\
  heap (terminated m) =
    freed (address_file_name (ibus m))
      (freed (address (ibus m)) (freed (input_ctx_path (ibus m)) (heap m))) /\
  trace (terminated m) =
    trace m ++ match conn (ibus m) with Some c => [EClose c] | None => [] end.
Proof.
  intros Ho.
  pose proof (terminate_owned Ho) as H1.
  assert (H2 : glfw_ibus_terminate (terminated m) = Some (tt, terminated m)).
  { unfold terminated at 1.
    rewrite terminate_run; simpl; auto.
    rewrite app_nil_r. reflexivity. }
  split; [exact H1|]. split; [exact H2|]. split.
  - unfold bind. rewrite H1. exact H2.
  - repeat split.
Qed.

Lemma connected_owned : owned connected.
Proof.
  constructor; simpl; try discriminate.
  intros a Ha.
  destruct (Nat.eqb_spec a 3); [lia|].
  destruct (Nat.eqb_spec a 2); [lia|].
  destruct (Nat.eqb_spec a 1); [lia|]. reflexivity.
Qed.

Lemma terminate_idempotent_witness :
  owned connected /\
  glfw_ibus_terminate (terminated connected) = Some (tt, terminated connected).
Proof.
  split; [exact connected_owned|].
  exact (proj1 (proj2 (terminate_idempotent connected_owned))).
Defined.

Lemma check_connection_null_path w m :
  inited (ibus m) = true -> conn (ibus m) = None -> address_file_name (ibus m) = None ->
  check_connection w m = Some (false, null_path_probe m).
Proof.
  intros Hi Hc Hn. destruct m as [[o i t c p n a] h b an tr]. simpl in *. subst.
  reflexivity.
Qed.

(** C10: [glfw_ibus_terminate] leaves [inited] as it was, so in an activated
    session a following [glfw_ibus_set_focused] or [set_cursor_geometry]
    passes the activation test of [check_connection] and, the connection
    handle being NULL, calls [stat] with the NULL [address_file_name] (and
    then [fopen] with it, which fails and is reported). *)
Theorem null_stat_after_terminate (w : World) (m : Machine) :
  owned m -> inited (ibus m) = true ->
  glfw_ibus_terminate m = Some (tt, terminated m) /\
  inited (ibus (terminated m)) = true /\
  conn (ibus (terminated m)) = None /\
  address_file_name (ibus (terminated m)) = None /\
  (forall focused,
      glfw_ibus_set_focused w focused (terminated m) =
      Some (tt, null_path_probe (terminated m))) /\
  (forall x y wd h,
      set_cursor_geometry w x y wd h (terminated m) =
      Some (tt, null_path_probe (terminated m))) /\
  trace (null_path_probe (terminated m)) =
    trace (terminated m) ++
    [EStat None; EFopen None;
     EInputError "Failed to open IBUS address file: %s with error: %s"].
Proof.
  intros Ho Hi.
  assert (Hck : check_connection w (terminated m) = Some (false, null_path_probe (terminated m))).
  { apply check_connection_null_path; simpl; auto. }
  split; [apply terminate_owned; exact Ho|].
  repeat split; auto.
  - intros focused. unfold glfw_ibus_set_focused, simple_message, bind. rewrite Hck. reflexivity.
  - intros x y wd h. unfold set_cursor_geometry, bind. rewrite Hck. reflexivity.
  - simpl. rewrite <- !app_assoc. reflexivity.
Qed.

Lemma null_stat_after_terminate_witness :
  owned connected /\ inited (ibus connected) = true /\
  glfw_ibus_set_focused (world_of [] []) true (terminated connected) =
  Some (tt, null_path_probe (terminated connected)).
Proof.
  split; [exact connected_owned|]. split; [reflexivity|].
  exact (proj1 (proj2 (proj2 (proj2 (proj2
    (null_stat_after_terminate (world_of [] []) connected_owned eq_refl))))) true).
Defined.

(* ================================================================== *)
(** ** Running a program step by step *)

Ltac machine_simpl_all :=
  cbn [ok inited address_file_mtime conn input_ctx_path address_file_name address
       ibus heap brk ans trace
       log logs with_ibus with_ans with_heap
       set_ok set_inited set_address_file_mtime set_conn set_input_ctx_path
       set_address_file_name set_address] in *.

Lemma free_inv p m x m' :
  free p m = Some (x, m') ->
  live (heap m) p /\ m' = with_heap (freed p (heap m)) (brk m) m.
Proof.
  unfold free. destruct p as [a|]; simpl.
  - destruct (heap_lookup (heap m) a); [|discriminate].
    intros H. inversion H. split; [discriminate | reflexivity].
  - intros H. inversion H. subst. split; [exact I | destruct m'; reflexivity].
Qed.

Lemma deref_inv p m x m' :
  deref p m = Some (x, m') ->
  m' = m /\
  x = match p with
      | Some a => heap_lookup (heap m) a
      | None => None
      end /\
  live (heap m) p.
Proof.
  unfold deref. destruct p as [a|]; simpl.
  - destruct (heap_lookup (heap m) a); [|discriminate].
    intros H. inversion H. repeat split. discriminate.
  - intros H. inversion H. repeat split.
Qed.

Lemma read_str_inv buf i m s m' :
  read_str buf i m = Some (s, m') -> m' = m /\ c_str buf i = Some s.
Proof.
  unfold read_str. destruct (c_str buf i); [|discriminate].
  intros H. inversion H. split; reflexivity.
Qed.

(** The calls to the outside, unfolded to [emit] and [ret]. *)
Ltac unfold_calls_in H :=
  cbv beta delta
    [getenv _glfwInputError debug stat fopen fclose dbus_get_local_machine_id
     glfw_dbus_close_connection glfw_dbus_connect_to dbus_connection_get_is_connected
     glfw_dbus_call_method_with_reply glfw_dbus_call_void_method
     glfw_dbus_call_method_no_reply dbus_connection_flush dbus_bus_add_match
     dbus_connection_try_register_object_path glfw_dbus_dispatch glfw_dbus_get_args
     has_env_var snprintf_ans] in H.

Ltac run_prim H :=
  cbv beta delta [ret load store emit get_ans set_ans strdup undefined] in H;
  first [ discriminate H | inversion H; subst; clear H ].

(** Symbolic execution of a run [H : c m = Some (a, m')]: binds are split,
    operations of the monad are inverted, tests are decided by cases; a call
    of a function of the program is left as a hypothesis. *)
Ltac run_in H :=
  cbv beta zeta in H;
  lazymatch type of H with
  | bind _ _ _ = Some _ =>
      let H1 := fresh "Hrun" in
      apply bind_inv in H as (? & ? & H1 & H);
      run_in H1; run_in H
  | ret _ _ = Some _ => run_prim H
  | load _ _ = Some _ => run_prim H
  | store _ _ = Some _ => run_prim H
  | emit _ _ = Some _ => run_prim H
  | get_ans _ = Some _ => run_prim H
  | set_ans _ _ = Some _ => run_prim H
  | strdup _ _ = Some _ => run_prim H
  | undefined _ = Some _ => run_prim H
  | free _ _ = Some _ =>
      let L := fresh "Hlive" in apply free_inv in H as [L ?]; subst
  | deref _ _ = Some _ =>
      let L := fresh "Hlive" in apply deref_inv in H as (? & ? & L); subst
  | read_str _ _ _ = Some _ =>
      let L := fresh "Hstr" in apply read_str_inv in H as [? L]; subst
  | (match ?x with _ => _ end) _ = Some _ =>
      let E := fresh "Ecase" in destruct x eqn:E; run_in H
  | _ => idtac
  end.

(* ================================================================== *)
(** ** The ready flag *)

Lemma setup_connection_not_ready w m r m' :
  setup_connection w m = Some (r, m') -> ok (ibus m') = false.
Proof.
  intros H. unfold setup_connection in H.
  apply bind_inv in H as (x & m1 & _ & H).
  apply bind_inv in H as ([] & m2 & H2 & H).
  inversion H2; subst; clear H2.
  match type of H with
  | ?c _ = _ => assert (Hc : respects ok_falls c)
                  by respects_tac ok_falls_refl ok_falls_trans
  end.
  apply Hc in H. unfold ok_falls in H. simpl in H.
  destruct (ok (ibus m')); [|reflexivity].
  symmetry. apply H. reflexivity.
Qed.

Lemma input_context_created_ready w path m m' :
  input_context_created w (MsgObjectPath path) None m = Some (tt, m') ->
  ok (ibus m') = if set_capabilities_reply w path m then true else ok (ibus m).
Proof.
  intros H. unfold input_context_created in H. unfold_calls_in H.
  unfold set_capabilities_reply.
  run_in H.
  all: machine_simpl_all.
  all: rewrite ?Nat.eqb_refl in *.
  all: destruct (conn (ibus x1)) as [c|]; simpl in *;
    [ destruct (w_call_void_method w c (Some path) "SetCapabilities");
      simpl in *; congruence
    | congruence ].
Qed.

(** C1: [setup_connection] returns with [ok] false on every path; the
    continuation [input_context_created] leaves [ok] as it was on an error
    reply, on a malformed reply and when the SetCapabilities call fails, and
    sets it when the reply is an object path and SetCapabilities succeeds;
    no other function of the file raises [ok]. *)
Theorem ready_only_after_context_created :
  (forall w m r m', setup_connection w m = Some (r, m') -> ok (ibus m') = false) /\
  (forall w msg e m,
      input_context_created w msg (Some e) m =
      Some (tt, log (EInputError "IBUS: Failed to create input context with error: %s") m)) /\
  (forall w m,
      input_context_created w MsgOther None m =
      Some (tt, log (EInputError "Failed to get IBUS context path from reply") m)) /\
  (forall w path m m',
      input_context_created w (MsgObjectPath path) None m = Some (tt, m') ->
      ok (ibus m') = if set_capabilities_reply w path m then true else ok (ibus m)) /\
  (forall w, respects ok_falls (glfw_connect_to_ibus w)) /\
  (forall w focused, respects ok_falls (glfw_ibus_set_focused w focused)) /\
  (forall w x y wd h, respects ok_falls (set_cursor_geometry w x y wd h)) /\
  (forall w, respects ok_falls (check_connection w)) /\
  respects ok_falls glfw_ibus_terminate /\
  respects ok_falls glfw_ibus_dispatch.
Proof.
  split; [exact setup_connection_not_ready|].
  split; [reflexivity|].
  split; [reflexivity|].
  split; [exact input_context_created_ready|].
  split; [exact glfw_connect_to_ibus_ok_falls|].
  split; [exact glfw_ibus_set_focused_ok_falls|].
  split; [exact set_cursor_geometry_ok_falls|].
  split; [exact check_connection_ok_falls|].
  split; [exact glfw_ibus_terminate_ok_falls | exact glfw_ibus_dispatch_ok_falls].
Qed.

Lemma resolver_not_register e : resolver_event e -> not_register e.
Proof. destruct e; simpl; auto. Qed.

Lemma reader_not_register e : reader_event e -> not_register e.
Proof. destruct e; simpl; auto. Qed.

(** The trace built by a run of [setup_connection]: the events logged after
    the trace [t1] of the reader, itself after the trace [t0] of the resolver. *)
Ltac extends_tac Ht2 Ht1 Hf2 Hf1 lemma2 lemma1 :=
  repeat (apply extends_snoc; [|exact I]);
  rewrite Ht2, Ht1;
  apply extends_app;
    [ apply extends_app;
        [ apply extends_refl
        | eapply Forall_impl; [exact lemma1 | exact Hf1] ]
    | eapply Forall_impl; [exact lemma2 | exact Hf2] ].

(** C4 (the code registers the handler with a NULL path): in every run of
    [setup_connection] that returns true, the one handler registration is
    made with [input_ctx_path], which the function has set to NULL a few
    lines before and which only the continuation fills in later; no context
    path reaches [dbus_connection_try_register_object_path]. *)
Theorem handler_registered_with_null_path w m m' :
  setup_connection w m = Some (true, m') ->
  exists c pre,
    trace m' = trace m ++ pre ++ [ERegisterObjectPath c None; EFlush c] /\
    Forall not_register pre /\
    conn (ibus m') = Some c /\
    input_ctx_path (ibus m') = None.
Proof.
  intros H. unfold setup_connection in H. unfold_calls_in H.
  run_in H.
  all: match goal with
       | Hr : get_ibus_address_file_name _ _ = Some _ |- _ =>
           apply resolver_frame in Hr as (Hib & Hhp & Hbk & evs1 & Ht1 & Hf1)
       end.
  all: match goal with
       | Hr : read_ibus_address _ _ = Some _ |- _ =>
           apply reader_frame in Hr as (_ & _ & Hc2 & Hp2 & _ & _ & _ & evs2 & Ht2 & Hf2)
       end.
  all: machine_simpl_all.
  all: match goal with
       | |- exists c pre, (?PRE ++ [ERegisterObjectPath ?d None]) ++ _ = _ /\ _ =>
           assert (Hext : extends not_register (trace m) PRE)
             by extends_tac Ht2 Ht1 Hf2 Hf1 reader_not_register resolver_not_register;
           destruct Hext as (pre & Hpre & Fpre);
           exists d, pre; rewrite Hpre, <- !app_assoc; auto
       end.
Qed.

Lemma desktop_connects :
  exists m', setup_connection desktop initial = Some (true, m').
Proof. eexists. vm_compute. reflexivity. Qed.

Lemma ready_only_after_context_created_witness :
  exists m', setup_connection desktop initial = Some (true, m') /\ ok (ibus m') = false.
Proof.
  destruct desktop_connects as (m' & H). exists m'. split; [exact H|].
  exact (proj1 ready_only_after_context_created desktop initial true m' H).
Defined.

Lemma handler_registered_with_null_path_witness :
  exists m', setup_connection desktop initial = Some (true, m') /\
  exists c pre,
    trace m' = trace initial ++ pre ++ [ERegisterObjectPath c None; EFlush c] /\
    Forall not_register pre /\
    conn (ibus m') = Some c /\
    input_ctx_path (ibus m') = None.
Proof.
  destruct desktop_connects as (m' & H). exists m'. split; [exact H|].
  exact (handler_registered_with_null_path desktop initial H).
Defined.

(* ================================================================== *)
(** ** The activation gate *)

Lemma log_logs e evs m : log e (logs evs m) = logs (evs ++ [e]) m.
Proof. unfold log, logs. simpl. rewrite <- app_assoc. reflexivity. Qed.

Lemma log_as_logs e m : log e m = logs [e] m.
Proof. reflexivity. Qed.

Lemma load_run A (f : _GLFWIBUSData -> A) m : load f m = Some (f (ibus m), m).
Proof. reflexivity. Qed.

Lemma has_env_var_run w name val m :
  has_env_var w name val m = Some (env_is w name val, log (EGetenv name) m).
Proof. reflexivity. Qed.

(** C8, as the code has it: on a session that is already activated
    [glfw_connect_to_ibus] returns at once; on a session that is not, it
    sets [inited] and runs [setup_connection] exactly when one of the three
    selector variables has its expected value, and otherwise only reads the
    three variables: the session is as it was, [inited] unset, and nothing
    is asked of the bus. *)
Theorem gate_connects_when_selected (w : World) (m : Machine) :
  (inited (ibus m) = true -> glfw_connect_to_ibus w m = Some (tt, m)) /\
  (inited (ibus m) = false -> should_activate w = true ->
     glfw_connect_to_ibus w m =
     (setup_connection w ;; ret tt)
       (with_ibus (set_inited true) (logs (gate_events w) m))) /\
  (inited (ibus m) = false -> should_activate w = false ->
     glfw_connect_to_ibus w m =
     Some (tt, logs [EGetenv "XMODIFIERS"; EGetenv "GTK_IM_MODULE";
                     EGetenv "QT_IM_MODULE"] m) /\
     inited (ibus m) = false).
Proof.
  assert (Hgo : forall b, inited (ibus m) = b ->
            glfw_connect_to_ibus w m =
            if b then Some (tt, m)
            else match env_is w "XMODIFIERS" (cs "@im=ibus"),
                       env_is w "GTK_IM_MODULE" (cs "ibus"),
                       env_is w "QT_IM_MODULE" (cs "ibus") with
                 | false, false, false =>
                     Some (tt, logs [EGetenv "XMODIFIERS"; EGetenv "GTK_IM_MODULE";
                                     EGetenv "QT_IM_MODULE"] m)
                 | _, _, _ =>
                     (setup_connection w ;; ret tt)
                       (with_ibus (set_inited true) (logs (gate_events w) m))
                 end).
  { intros b Hb. unfold glfw_connect_to_ibus, gate_events.
    rewrite (bind_run _ (load_run inited m)), Hb.
    destruct b; [reflexivity|].
    rewrite (bind_run _ (has_env_var_run w _ _ m)).
    destruct (env_is w "XMODIFIERS" (cs "@im=ibus")); [reflexivity|].
    rewrite (bind_run _ (has_env_var_run w _ _ _)).
    rewrite (log_as_logs (EGetenv "XMODIFIERS") m), log_logs.
    destruct (env_is w "GTK_IM_MODULE" (cs "ibus")); [reflexivity|].
    rewrite (bind_run _ (has_env_var_run w _ _ _)).
    rewrite log_logs.
    destruct (env_is w "QT_IM_MODULE" (cs "ibus")); reflexivity. }
  unfold should_activate.
  split; [|split].
  - intros Hi. rewrite (Hgo true Hi). reflexivity.
  - intros Hi Hs. rewrite (Hgo false Hi).
    destruct (env_is w "XMODIFIERS" (cs "@im=ibus")),
      (env_is w "GTK_IM_MODULE" (cs "ibus")),
      (env_is w "QT_IM_MODULE" (cs "ibus")); try reflexivity; discriminate.
  - intros Hi Hs. rewrite (Hgo false Hi). split; [|exact Hi].
    destruct (env_is w "XMODIFIERS" (cs "@im=ibus")),
      (env_is w "GTK_IM_MODULE" (cs "ibus")),
      (env_is w "QT_IM_MODULE" (cs "ibus")); try reflexivity; discriminate.
Qed.

Lemma gate_connects_when_selected_witness :
  inited (ibus initial) = false /\ should_activate desktop = true /\
  glfw_connect_to_ibus desktop initial =
  (setup_connection desktop ;; ret tt)
    (with_ibus (set_inited true) (logs (gate_events desktop) initial)).
Proof.
  split; [reflexivity|]. split; [reflexivity|].
  exact (proj1 (proj2 (gate_connects_when_selected desktop initial)) eq_refl eq_refl).
Defined.

(** C8 as stated fails on a session that is already activated: the
    environment selects ibus, and the call returns the session untouched,
    without any call to the outside; and with no selector in the
    environment it returns with [inited] still set. *)
Lemma gate_skips_activated_session :
  (should_activate desktop = true /\
   glfw_connect_to_ibus desktop activated = Some (tt, activated) /\
   trace activated = []) /\
  (should_activate (world_of [] []) = false /\
   glfw_connect_to_ibus (world_of [] []) activated = Some (tt, activated) /\
   inited (ibus activated) = true).
Proof. repeat split. Qed.

(* ================================================================== *)
(** ** Reading the address file *)

(** C3, as the code has it: [read_ibus_address] stores the address only
    together with the mtime of the same open file; it stores the mtime alone,
    the address left as it was, on the path where the file was opened and
    statted but holds no IBUS_ADDRESS line; when the file cannot be opened or
    statted it stores neither. *)
Theorem address_stored_with_mtime w m r m' :
  read_ibus_address w m = Some (r, m') ->
  match opened w m with
  | None => r = false /\ ibus m' = ibus m /\ heap m' = heap m
  | Some f =>
      match f_mtime f with
      | None => r = false /\ ibus m' = ibus m /\ heap m' = heap m
      | Some t =>
          address_file_mtime (ibus m') = t /\
          match found_in f with
          | None =>
              r = false /\ address (ibus m') = address (ibus m) /\ heap m' = heap m
          | Some buf =>
              r = true /\
              exists a,
                c_str buf (length (cs "IBUS_ADDRESS=")) = Some a /\
                address (ibus m') = Some (brk m) /\
                heap m' = (brk m, a) :: freed (address (ibus m)) (heap m)
          end
      end
  end.
Proof.
  intros H. unfold read_ibus_address in H. unfold_calls_in H.
  unfold opened, file_name_of, found_in.
  run_in H; machine_simpl_all.
  all: repeat split; eauto.
Qed.

Lemma resolved_reads :
  exists m', read_ibus_address desktop resolved = Some (true, m').
Proof. eexists. vm_compute. reflexivity. Qed.

Lemma address_stored_with_mtime_witness :
  exists m',
    read_ibus_address desktop resolved = Some (true, m') /\
    address_file_mtime (ibus m') = 5%Z /\
    address (ibus m') = Some 2.
Proof.
  destruct resolved_reads as (m' & H). exists m'. split; [exact H|].
  pose proof (@address_stored_with_mtime desktop resolved true m' H) as Hc.
  change (opened desktop resolved) with (Some (mkFile address_file (Some 5%Z))) in Hc.
  cbv beta iota delta [f_mtime] in Hc.
  destruct Hc as (Ht & Hc).
  destruct (found_in (mkFile address_file (Some 5%Z))); [|destruct Hc; discriminate].
  destruct Hc as (_ & a & _ & Ha & _). split; [exact Ht | exact Ha].
Defined.

(** C3 as stated fails: the address file of the connected session has been
    rewritten without an address line; the call returns false with the new
    mtime 9 stored in place of 5, and the address still the old block. *)
Lemma mtime_stored_without_address :
  exists m',
    read_ibus_address restarting connected = Some (false, m') /\
    address_file_mtime (ibus connected) = 5%Z /\
    address_file_mtime (ibus m') = 9%Z /\
    address (ibus m') = address (ibus connected) /\
    heap m' = heap connected.
Proof. eexists. split; [vm_compute; reflexivity|]. repeat split. Qed.

(* ================================================================== *)
(** ** Reconnecting *)

Lemma resolver_no_bus e : resolver_event e -> no_bus e.
Proof. destruct e; simpl; unfold no_bus; simpl; auto. Qed.

Lemma reader_no_bus e : reader_event e -> no_bus e.
Proof. destruct e; simpl; unfold no_bus; simpl; auto. Qed.

Lemma read_ibus_address_true w m m' :
  read_ibus_address w m = Some (true, m') ->
  exists a,
    address (ibus m') = Some (brk m) /\
    heap m' = (brk m, a) :: freed (address (ibus m)) (heap m).
Proof.
  intros H. unfold read_ibus_address in H. unfold_calls_in H.
  run_in H; machine_simpl_all.
  eexists. split; reflexivity.
Qed.

Lemma owned_ctx_below m : owned m -> ctx_below m.
Proof.
  intros Ho p Hp. pose proof (own_ctx Ho) as Hl. rewrite Hp in Hl. simpl in Hl.
  destruct (Nat.lt_ge_cases p (brk m)) as [Hlt|Hge]; [exact Hlt|].
  exfalso. apply Hl. apply (own_fresh Ho). exact Hge.
Qed.

Lemma freed_lookup_other p h q :
  p <> Some q -> heap_lookup (freed p h) q = heap_lookup h q.
Proof.
  destruct p as [a|]; simpl; [|reflexivity].
  intros Hne. apply heap_lookup_remove_other. congruence.
Qed.

Ltac no_bus_trace Ht2 Ht1 Hf2 Hf1 :=
  repeat (apply extends_snoc; [|unfold no_bus; simpl; tauto]);
  rewrite ?Ht2, Ht1;
  repeat first
    [ apply extends_refl
    | apply extends_app;
        [ | first [ eapply Forall_impl; [exact reader_no_bus | exact Hf2]
                  | eapply Forall_impl; [exact resolver_no_bus | exact Hf1] ] ] ].

Lemma setup_connection_reconnect w m r m' :
  ctx_below m ->
  setup_connection w m = Some (r, m') ->
  (r = false /\ untouched m m') \/ reconnected w m m'.
Proof.
  intros Hbelow H. unfold setup_connection in H. unfold_calls_in H.
  run_in H.
  all: match goal with
       | Hr : get_ibus_address_file_name _ _ = Some _ |- _ =>
           apply resolver_frame in Hr as (Hib & Hhp & Hbk & evs1 & Ht1 & Hf1)
       end.
  all: try match goal with
       | Hr : read_ibus_address _ _ = Some (?b, _), E : negb ?b = false |- _ =>
           destruct b; [clear E | discriminate E];
           pose proof (@read_ibus_address_true _ _ _ Hr) as (a & Haddr & Hheap)
       end.
  all: try match goal with
       | Hr : read_ibus_address _ _ = Some _ |- _ =>
           apply reader_frame in Hr as (_ & _ & Hc2 & Hp2 & _ & _ & _ & evs2 & Ht2 & Hf2)
       end.
  all: machine_simpl_all.
  (* the runs that stop before the connection *)
  all: try solve
         [ left; split; [reflexivity|]; unfold untouched, grows; machine_simpl;
           split; [congruence | no_bus_trace Ht2 Ht1 Hf2 Hf1] ].
  (* the runs that reconnect *)
  all: right; unfold reconnected; machine_simpl.
  all: exists (evs1 ++ evs2), a, (S (brk m)).
  all: rewrite Haddr, Hheap, Hbk in *; machine_simpl_all.
  all: cbn [heap_lookup] in *; rewrite ?Nat.eqb_refl in *.
  all: unfold debug_line; rewrite Ecase2.
  all: rewrite <- Hib, <- Hc2, Ecase1; unfold closing.
  all: eexists.
  all: split; [rewrite Ht2, Ht1, <- !app_assoc; simpl; reflexivity|].
  all: split; [apply Forall_app; split;
                 [ eapply Forall_impl; [exact resolver_no_bus | exact Hf1]
                 | eapply Forall_impl; [exact reader_no_bus | exact Hf2] ] |].
  all: split; [reflexivity|].
  all: split; [lia|].
  all: split; [|congruence].
  all: try (rewrite freed_lookup_other;
            [|rewrite Hp2, Hib; intros Hq; apply Hbelow in Hq; lia]).
  all: cbn [heap_lookup]; rewrite ?Nat.eqb_refl; reflexivity.
Qed.

Lemma deref_run p m :
  live (heap m) p ->
  deref p m = Some (match p with Some a => heap_lookup (heap m) a | None => None end, m).
Proof.
  unfold deref. destruct p as [a|]; simpl; [|reflexivity].
  destruct (heap_lookup (heap m) a); [reflexivity | congruence].
Qed.

(** [check_connection] on an activated session whose connection is not
    live: the liveness test and the [stat], then the test on the mtime. *)
Lemma check_connection_probe w m :
  live (heap m) (address_file_name (ibus m)) ->
  inited (ibus m) = true -> not_live w m ->
  check_connection w m =
  if stale w m
  then (r <- read_ibus_address w ;; if negb r then ret false else setup_connection w)
         (probed m)
  else Some (false, probed m).
Proof.
  intros Hl Hi Hn.
  destruct m as [[o i t c p n a] h b an tr]. simpl in *. subst i.
  unfold not_live in Hn. cbn [ibus conn] in Hn.
  cbv beta iota delta
    [check_connection dbus_connection_get_is_connected stat bind load deref emit ret
     log logs probed stale file_name_of
     ibus heap brk ans trace inited conn address_file_name address_file_mtime].
  cbn [negb].
  destruct c as [c|]; [rewrite Hn|];
    (destruct n as [n|]; cbn [live] in Hl;
     [destruct (heap_lookup h n) as [name|]; [|congruence]|]);
    rewrite <- ?app_assoc; cbn [app].
  all: try (destruct (w_stat w name) as [st|]; [|reflexivity];
            destruct (negb (st =? t)%Z); reflexivity).
  all: reflexivity.
Qed.

Lemma reconnected_after w m m1 m' evs :
  trace m1 = trace m ++ evs -> Forall no_bus evs ->
  conn (ibus m1) = conn (ibus m) -> brk m <= brk m1 ->
  reconnected w m1 m' -> reconnected w m m'.
Proof.
  intros Ht Hf Hc Hb (pre & a & q & post & H1 & H2 & H3 & H4 & H5 & H6).
  exists (evs ++ pre), a, q, post. rewrite H1, Ht, Hc, <- !app_assoc.
  repeat split; auto.
  - apply Forall_app. split; assumption.
  - lia.
Qed.

Lemma untouched_after m m1 m' :
  untouched m m1 -> untouched m1 m' -> untouched m m'.
Proof.
  intros (Hc1 & Hg1) (Hc2 & Hg2). split; [congruence|].
  eapply grows_trans; eassumption.
Qed.

(** C2 as stated fails: the connection of the session is dead and the
    address file has a new mtime, but holds no address line: the re-read
    fails, and the call returns false with the old handle 7 still in place,
    neither closed nor replaced. *)
Lemma stale_without_reconnect :
  not_live restarting connected /\
  stale restarting connected = true /\
  exists m',
    check_connection restarting connected = Some (false, m') /\
    conn (ibus m') = Some 7 /\
    trace m' =
      [EIsConnected 7;
       EStat (Some (cs "/home/u/.config/ibus/bus/mid-unix-0"));
       EFopen (Some (cs "/home/u/.config/ibus/bus/mid-unix-0"));
       EFclose;
       EInputError "Could not find IBUS_ADDRESS in %s"].
Proof.
  split; [reflexivity|]. split; [reflexivity|].
  eexists. split; [vm_compute; reflexivity|]. split; reflexivity.
Qed.

(* ================================================================== *)
(** ** The address file name: the override *)

Lemma until_nul_app s rest :
  ~ In NUL s -> until_nul (s ++ NUL :: rest) = Some s.
Proof.
  induction s as [|ch s IH]; simpl; intros Hn; [reflexivity|].
  destruct (Ascii.eqb_spec ch NUL) as [->|Hne]; [exfalso; auto|].
  rewrite IH; [reflexivity | intros Hin; auto].
Qed.

Lemma MIN_small (a b : Z) :
  (0 <= a < 2 ^ 31)%Z -> (0 <= b < 2 ^ 31)%Z -> MIN a b = Z.min a b.
Proof.
  intros Ha Hb. unfold MIN, int_of.
  destruct (Z.ltb_spec a b).
  - rewrite Z.min_l by lia. rewrite Z.mod_small; lia.
  - rewrite Z.min_r by lia. rewrite Z.mod_small; lia.
Qed.

Lemma memcpy_count (addr : cstring) :
  length addr < PATH_MAX ->
  Z.to_nat (size_t_of (MIN (Z.of_nat (length addr)) (Z.of_nat PATH_MAX))) = length addr.
Proof.
  unfold PATH_MAX. intros H.
  rewrite MIN_small by lia. rewrite Z.min_l by lia.
  unfold size_t_of. rewrite Z.mod_small by lia. apply Nat2Z.id.
Qed.

(** Where C7 holds: an override shorter than PATH_MAX, copied over an array
    that holds a NUL right behind it (as the array of a process that has not
    resolved a longer name before), is returned character for character, and
    only the override variable is read. *)
Lemma override_verbatim w m addr pre post :
  w_getenv w "IBUS_ADDRESS" = Some addr -> addr <> [] -> ~ In NUL addr ->
  length addr < PATH_MAX ->
  ans m = pre ++ NUL :: post -> length pre = length addr ->
  get_ibus_address_file_name w m =
    Some (true, with_ans (addr ++ NUL :: post) (log (EGetenv "IBUS_ADDRESS") m)) /\
  c_str (addr ++ NUL :: post) 0 = Some addr.
Proof.
  intros He Hne Hnul Hlen Hans Hpre. split.
  - unfold get_ibus_address_file_name, getenv.
    unfold bind at 1. unfold bind at 1. unfold emit at 1. unfold ret at 1.
    rewrite He.
    destruct addr as [|ch addr']; [congruence|]. cbn [nonempty].
    remember (ch :: addr') as addr eqn:Ea.
    rewrite memcpy_count by exact Hlen.
    unfold bind, get_ans, set_ans, ret. cbn [ans log].
    unfold memcpy. rewrite Hans.
    replace (length addr <=? length (pre ++ NUL :: post)) with true
      by (symmetry; apply Nat.leb_le; rewrite length_app; simpl; lia).
    replace (length addr <=? S (length addr)) with true
      by (symmetry; apply Nat.leb_le; lia).
    cbn [andb].
    rewrite firstn_app, Nat.sub_diag, firstn_all. cbn [firstn]. rewrite app_nil_r.
    rewrite <- Hpre, skipn_app, skipn_all, Nat.sub_diag. cbn [skipn app].
    reflexivity.
  - unfold c_str. cbn [skipn]. apply until_nul_app. exact Hnul.
Qed.

(** C7 (the code returns no string for a long override, and a mixed one
    over a longer earlier name): [memcpy] copies the characters of the
    override without a terminating NUL.  With an override of PATH_MAX
    characters the array is filled to its end, so the pointer returned is
    not a C string and [setup_connection] has no defined behaviour when it
    duplicates it; with the override "/run/ibus" set after a name was
    derived from the display, the name returned is the override followed by
    the tail of the earlier name. *)
Theorem override_copied_without_terminator :
  (exists m',
      get_ibus_address_file_name too_long initial = Some (true, m') /\
      ans m' = repeat "a"%char PATH_MAX /\
      c_str (ans m') 0 = None) /\
  setup_connection too_long initial = None /\
  (exists m1 m2,
      get_ibus_address_file_name desktop initial = Some (true, m1) /\
      c_str (ans m1) 0 = Some (cs "/home/u/.config/ibus/bus/mid-unix-1") /\
      get_ibus_address_file_name overridden m1 = Some (true, m2) /\
      c_str (ans m2) 0 = Some (cs "/run/ibusconfig/ibus/bus/mid-unix-1")).
Proof.
  split; [|split].
  - eexists. split; [vm_compute; reflexivity|]. split; vm_compute; reflexivity.
  - vm_compute. reflexivity.
  - eexists. eexists. split; [vm_compute; reflexivity|].
    split; [vm_compute; reflexivity|].
    split; vm_compute; reflexivity.
Qed.

(* ================================================================== *)
(** ** The address file name: derived from the display *)

Lemma strrchr_none s ch : ~ In ch s -> strrchr s ch = None.
Proof.
  induction s as [|x s IH]; simpl; intros Hn; [reflexivity|].
  rewrite IH by tauto.
  destruct (Ascii.eqb_spec x ch); [exfalso; auto | reflexivity].
Qed.

Lemma strrchr_last pre rest ch :
  ~ In ch rest -> strrchr (pre ++ ch :: rest) ch = Some (length pre).
Proof.
  intros Hn. induction pre as [|x pre IH]; simpl.
  - rewrite strrchr_none by exact Hn. rewrite Ascii.eqb_refl. reflexivity.
  - rewrite IH. reflexivity.
Qed.

Lemma poke_app pre x rest y : poke (pre ++ x :: rest) (length pre) y = pre ++ y :: rest.
Proof.
  unfold poke. rewrite firstn_app, Nat.sub_diag, firstn_all. cbn [firstn].
  rewrite app_nil_r. f_equal. f_equal.
  replace (S (length pre)) with (length (pre ++ [x])) by (rewrite length_app; simpl; lia).
  replace (pre ++ x :: rest) with ((pre ++ [x]) ++ rest) by (rewrite <- app_assoc; reflexivity).
  rewrite skipn_app, skipn_all, Nat.sub_diag. reflexivity.
Qed.

Lemma c_str_app pre rest : c_str (pre ++ rest) (length pre) = until_nul rest.
Proof. unfold c_str. rewrite skipn_app, skipn_all, Nat.sub_diag. reflexivity. Qed.

Lemma c_str_behind pre x rest : c_str (pre ++ x :: rest) (S (length pre)) = until_nul rest.
Proof.
  replace (S (length pre)) with (length (pre ++ [x])) by (rewrite length_app; simpl; lia).
  replace (pre ++ x :: rest) with ((pre ++ [x]) ++ rest) by (rewrite <- app_assoc; reflexivity).
  apply c_str_app.
Qed.

Lemma c_str_start s rest : ~ In NUL s -> c_str (s ++ NUL :: rest) 0 = Some s.
Proof. intros H. unfold c_str. cbn [skipn]. apply until_nul_app. exact H. Qed.

(** A display with a dot behind its last colon. *)
Lemma display_segments_dot h n s :
  ~ In ":"%char n -> ~ In ":"%char s -> ~ In "."%char s ->
  ~ In NUL h -> ~ In NUL n ->
  display_segments (h ++ ":"%char :: n ++ "."%char :: s) =
  Some (match h with [] => cs "unix" | _ => h end, n).
Proof.
  intros Hcn Hcs Hds Hh Hn.
  assert (Hcolon : strrchr (h ++ ":"%char :: n ++ "."%char :: s) ":" = Some (length h)).
  { apply strrchr_last. intros Hin. apply in_app_or in Hin as [Hin|Hin]; [auto|].
    destruct Hin as [Hin|Hin]; [discriminate | auto]. }
  assert (Hdot : strrchr (h ++ ":"%char :: n ++ "."%char :: s) "." =
                 Some (length (h ++ NUL :: n))).
  { replace (h ++ ":"%char :: n ++ "."%char :: s)
      with ((h ++ ":"%char :: n) ++ "."%char :: s)
      by (rewrite <- app_assoc; reflexivity).
    rewrite strrchr_last by exact Hds. rewrite !length_app. reflexivity. }
  unfold display_segments. rewrite Hcolon, Hdot.
  rewrite <- !app_assoc. cbn [app]. rewrite poke_app.
  rewrite <- ?app_assoc. cbn [app].
  replace (h ++ NUL :: n ++ "."%char :: s ++ [NUL])
    with ((h ++ NUL :: n) ++ "."%char :: s ++ [NUL])
    by (rewrite <- !app_assoc; reflexivity).
  rewrite poke_app. rewrite <- app_assoc. cbn [app].
  rewrite c_str_start by exact Hh.
  rewrite c_str_behind, until_nul_app by exact Hn. reflexivity.
Qed.

(** A display without a dot. *)
Lemma display_segments_plain h n :
  ~ In ":"%char n -> ~ In "."%char h -> ~ In "."%char n ->
  ~ In NUL h -> ~ In NUL n ->
  display_segments (h ++ ":"%char :: n) =
  Some (match h with [] => cs "unix" | _ => h end, n).
Proof.
  intros Hcn Hdh Hdn Hh Hn. unfold display_segments.
  rewrite strrchr_last by exact Hcn.
  rewrite strrchr_none.
  2:{ intros Hin. apply in_app_or in Hin as [Hin|Hin]; [auto|].
      destruct Hin as [Hin|Hin]; [discriminate | auto]. }
  rewrite <- app_assoc. cbn [app]. rewrite poke_app.
  rewrite c_str_start by exact Hh.
  rewrite c_str_behind, until_nul_app by exact Hn. reflexivity.
Qed.

Lemma snprintf_fits buf off size text :
  length text < size ->
  snprintf buf off size text =
  firstn off buf ++ text ++ NUL :: skipn (off + (length text + 1)) buf.
Proof.
  intros H. destruct size as [|k]; [lia|]. unfold snprintf.
  rewrite (firstn_all2 text) by lia.
  rewrite length_app. cbn [length]. rewrite <- app_assoc. reflexivity.
Qed.

(** Two [snprintf] calls into an array, the second behind the first, when
    both outputs and the final NUL fit. *)
Lemma snprintf_twice N buf (conf text : cstring) :
  length conf + length text < N -> ~ In NUL (conf ++ text) ->
  c_str (snprintf (snprintf buf 0 (N - 0) conf)
                  (length conf) (N - length conf) text) 0 =
  Some (conf ++ text).
Proof.
  intros Hfit Hnul.
  rewrite (@snprintf_fits buf 0) by lia. cbn [firstn app].
  rewrite snprintf_fits by lia.
  rewrite firstn_app, Nat.sub_diag, firstn_all. cbn [firstn]. rewrite app_nil_r.
  rewrite app_assoc. apply c_str_start. exact Hnul.
Qed.
Lemma resolver_derives w m host disp conf :
  nonempty (w_getenv w "IBUS_ADDRESS") = None ->
  display_segments (display_of w) = Some (host, disp) ->
  config_home w = Some conf ->
  let name := conf ++ cs "/ibus/bus/" ++ w_machine_id w ++ cs "-" ++ host ++ cs "-" ++ disp in
  length name < PATH_MAX -> ~ In NUL name ->
  exists m',
    get_ibus_address_file_name w m = Some (true, m') /\
    c_str (ans m') 0 = Some name /\
    trace m' = trace m ++ derive_events w /\
    ibus m' = ibus m /\ heap m' = heap m /\ brk m' = brk m.
Proof.
  intros Hov Hseg Hconf name Hlen Hnul.
  unfold display_segments in Hseg.
  destruct (strrchr (display_of w) ":") as [i|] eqn:Ei; [|discriminate].
  cbv zeta in Hseg.
  match type of Hseg with
  | match c_str ?d 0 with _ => _ end = _ =>
      destruct (c_str d 0) as [h|] eqn:Eh; [|discriminate];
      destruct (c_str d (S i)) as [dn|] eqn:Ed; [|discriminate]
  end.
  inversion Hseg; subst host disp; clear Hseg.
  unfold get_ibus_address_file_name, getenv, dbus_get_local_machine_id, snprintf_ans.
  cbv beta iota zeta delta [bind emit ret get_ans set_ans read_str].
  rewrite Hov.
  fold (display_of w). rewrite Ei, Eh, Ed.
  unfold config_home in Hconf. unfold derive_events.
  assert (Hfit : length conf +
                 length (cs "/ibus/bus/" ++ w_machine_id w ++ cs "-" ++
                         match h with [] => cs "unix" | _ => h end ++ cs "-" ++ dn)
                 < PATH_MAX).
  { subst name. rewrite length_app in Hlen. exact Hlen. }
  replace (PATH_MAX <? 0) with false by reflexivity.
  destruct (nonempty (w_getenv w "XDG_CONFIG_HOME")) as [c|];
    [|destruct (nonempty (w_getenv w "HOME")) as [hm|]; [|discriminate]];
    inversion Hconf; subst conf; clear Hconf;
    cbv beta iota;
    match goal with
    | |- context [PATH_MAX <? ?n] =>
        replace (PATH_MAX <? n) with false
          by (symmetry; apply Nat.ltb_ge, Nat.lt_le_incl;
              eapply Nat.le_lt_trans; [apply Nat.le_add_r | exact Hfit])
    end;
    cbv beta iota;
    (eexists; split; [reflexivity|]); machine_simpl;
    (split; [apply snprintf_twice; [exact Hfit | exact Hnul]|]);
    (split; [rewrite <- !app_assoc; reflexivity|]);
    repeat split.
Qed.

(** C6, as the code has it: the DISPLAY string is cut at its LAST colon and
    at its LAST dot.  When that dot stands behind the colon, or when the
    string has no dot, the host is what stands before the last colon
    ("unix" when that is empty) and the display number is what stands
    between the colon and the dot, or the end.  With a configuration
    directory and a name that fits into the PATH_MAX array, the resolver
    returns <config-home>/ibus/bus/<machine-id>-<host>-<display-number>; for
    the display ":1.0" the segments are "unix" and "1" and the name ends
    with "/ibus/bus/<machine-id>-unix-1". *)
Theorem display_split_at_last_colon :
  (forall h n s,
      ~ In ":"%char n -> ~ In ":"%char s -> ~ In "."%char s ->
      ~ In NUL h -> ~ In NUL n ->
      display_segments (h ++ ":"%char :: n ++ "."%char :: s) =
      Some (match h with [] => cs "unix" | _ => h end, n)) /\
  (forall h n,
      ~ In ":"%char n -> ~ In "."%char h -> ~ In "."%char n ->
      ~ In NUL h -> ~ In NUL n ->
      display_segments (h ++ ":"%char :: n) =
      Some (match h with [] => cs "unix" | _ => h end, n)) /\
  (forall w m host disp conf,
      nonempty (w_getenv w "IBUS_ADDRESS") = None ->
      display_segments (display_of w) = Some (host, disp) ->
      config_home w = Some conf ->
      let name := conf ++ cs "/ibus/bus/" ++ w_machine_id w ++
                  cs "-" ++ host ++ cs "-" ++ disp in
      length name < PATH_MAX -> ~ In NUL name ->
      exists m',
        get_ibus_address_file_name w m = Some (true, m') /\
        c_str (ans m') 0 = Some name /\
        trace m' = trace m ++ derive_events w) /\
  display_segments (cs ":1.0") = Some (cs "unix", cs "1") /\
  (forall w m conf,
      nonempty (w_getenv w "IBUS_ADDRESS") = None ->
      w_getenv w "DISPLAY" = Some (cs ":1.0") ->
      config_home w = Some conf ->
      let name := conf ++ cs "/ibus/bus/" ++ w_machine_id w ++ cs "-unix-1" in
      length name < PATH_MAX -> ~ In NUL name ->
      exists m',
        get_ibus_address_file_name w m = Some (true, m') /\
        c_str (ans m') 0 = Some name).
Proof.
  split; [exact display_segments_dot|].
  split; [exact display_segments_plain|].
  split.
  { intros w m host disp conf Hov Hseg Hconf name Hlen Hnul.
    destruct (@resolver_derives w m host disp conf Hov Hseg Hconf Hlen Hnul)
      as (m' & H1 & H2 & H3 & _).
    exists m'. auto. }
  split; [reflexivity|].
  intros w m conf Hov Hd Hconf name Hlen Hnul.
  assert (Hseg : display_segments (display_of w) = Some (cs "unix", cs "1")).
  { unfold display_of. rewrite Hd. reflexivity. }
  assert (Hname : name = conf ++ cs "/ibus/bus/" ++ w_machine_id w ++
                         cs "-" ++ cs "unix" ++ cs "-" ++ cs "1").
  { subst name. reflexivity. }
  rewrite Hname in Hlen, Hnul.
  destruct (@resolver_derives w m _ _ conf Hov Hseg Hconf Hlen Hnul)
    as (m' & H1 & H2 & _).
  exists m'. rewrite Hname. auto.
Qed.

Lemma display_split_at_last_colon_witness :
  exists m',
    get_ibus_address_file_name desktop initial = Some (true, m') /\
    c_str (ans m') 0 = Some (cs "/home/u/.config/ibus/bus/mid-unix-1").
Proof.
  refine (proj2 (proj2 (proj2 (proj2 display_split_at_last_colon)))
            desktop initial (cs "/home/u/.config") eq_refl eq_refl eq_refl _ _).
  - vm_compute. lia.
  - vm_compute. intuition discriminate.
Defined.

(** C6 as stated fails: for the display "[::1]:0.0" the code takes the host
    "[::1]" and the display number "0", where the split at the first colon
    gives "[" and ":1]:0"; and with a configuration directory of PATH_MAX
    characters the name returned for the display ":1.0" is that directory cut
    to PATH_MAX - 1 characters, without the "-unix-1" at its end. *)
Lemma display_split_not_at_first_colon :
  display_segments (cs "[::1]:0.0") = Some (cs "[::1]", cs "0") /\
  spec_segments (cs "[::1]:0.0") = (cs "[", cs ":1]:0") /\
  (exists m',
      get_ibus_address_file_name remote_display initial = Some (true, m') /\
      c_str (ans m') 0 = Some (cs "/home/u/.config/ibus/bus/mid-[::1]-0")) /\
  (exists m',
      get_ibus_address_file_name deep_config_home initial = Some (true, m') /\
      c_str (ans m') 0 = Some (repeat "x"%char (PATH_MAX - 1))).
Proof.
  split; [reflexivity|]. split; [reflexivity|]. split.
  - eexists. split; vm_compute; reflexivity.
  - eexists. split; vm_compute; reflexivity.
Qed.

(* ================================================================== *)
(** ** The address line *)

Lemma fgets_take_line n l rest :
  ~ In LF l -> length l < n -> fgets_take n (l ++ LF :: rest) = (l ++ [LF], rest).
Proof.
  revert n. induction l as [|ch l IH]; intros n Hn Hlen; cbn [length app] in *.
  - destruct n; [lia|]. cbn [fgets_take]. rewrite Ascii.eqb_refl. reflexivity.
  - destruct n; [lia|]. cbn [fgets_take].
    destruct (Ascii.eqb_spec ch LF) as [->|Hne]; [exfalso; apply Hn; left; reflexivity|].
    rewrite IH; [reflexivity | intros Hin; apply Hn; right; exact Hin | lia].
Qed.

Lemma fgets_take_eof n l :
  ~ In LF l -> length l <= n -> fgets_take n l = (l, []).
Proof.
  revert n. induction l as [|ch l IH]; intros n Hn Hlen; cbn [length] in *.
  - destruct n; reflexivity.
  - destruct n; [lia|]. cbn [fgets_take].
    destruct (Ascii.eqb_spec ch LF) as [->|Hne]; [exfalso; apply Hn; left; reflexivity|].
    rewrite IH; [reflexivity | intros Hin; apply Hn; right; exact Hin | lia].
Qed.

Lemma fgets_line l rest :
  ~ In LF l -> length l < 1023 ->
  fgets 1024 (l ++ LF :: rest) = Some ((l ++ [LF]) ++ [NUL], rest).
Proof.
  intros Hn Hlen. unfold fgets.
  destruct (l ++ LF :: rest) eqn:E; [destruct l; discriminate|].
  rewrite <- E. replace (1024 - 1) with 1023 by reflexivity.
  rewrite fgets_take_line by assumption. reflexivity.
Qed.

Lemma fgets_last l :
  l <> [] -> ~ In LF l -> length l <= 1023 ->
  fgets 1024 l = Some (l ++ [NUL], []).
Proof.
  intros Hne Hn Hlen. unfold fgets. destruct l as [|ch l]; [congruence|].
  replace (1024 - 1) with 1023 by reflexivity.
  rewrite fgets_take_eof by assumption. reflexivity.
Qed.

(** Every [fgets] that succeeds shortens the rest of the file. *)
Lemma fgets_take_le n l : length (snd (fgets_take n l)) <= length l.
Proof.
  revert l. induction n as [|n IH]; intros l; [simpl; lia|].
  destruct l as [|ch tl]; [simpl; lia|]. cbn [fgets_take].
  destruct (Ascii.eqb ch LF); [simpl; lia|].
  specialize (IH tl). destruct (fgets_take n tl) as [a b]. simpl in *. lia.
Qed.

Lemma fgets_take_shrinks n ch tl :
  length (snd (fgets_take (S n) (ch :: tl))) < length (ch :: tl).
Proof.
  cbn [fgets_take]. destruct (Ascii.eqb ch LF); [simpl; lia|].
  pose proof (fgets_take_le n tl) as H.
  destruct (fgets_take n tl) as [a b]. simpl in *. lia.
Qed.

Lemma fgets_shrinks rest buf rest' :
  fgets 1024 rest = Some (buf, rest') -> length rest' < length rest.
Proof.
  unfold fgets. destruct rest as [|ch tl]; [discriminate|].
  replace (1024 - 1) with (S 1022) by reflexivity.
  pose proof (fgets_take_shrinks 1022 ch tl) as H.
  destruct (fgets_take (S 1022) (ch :: tl)) as [a b].
  intros E. inversion E; subst. exact H.
Qed.

(** The loop of [read_ibus_address] does not depend on its fuel, once the
    fuel is the length of what is left of the file. *)
Lemma scan_address_fuel fuel rest :
  length rest <= fuel -> scan_address fuel rest = scan_address (length rest) rest.
Proof.
  remember (length rest) as n eqn:En. revert fuel rest En.
  induction n as [n IH] using lt_wf_ind. intros fuel rest En Hfuel.
  destruct fuel as [|fuel], n as [|n]; try lia; try reflexivity.
  - destruct rest; [|discriminate]. reflexivity.
  - cbn [scan_address]. destruct (fgets 1024 rest) as [[buf rest']|] eqn:E; [|reflexivity].
    destruct (strncmp_lit buf (cs "IBUS_ADDRESS=")); [reflexivity|].
    apply fgets_shrinks in E.
    rewrite (IH (length rest')) with (fuel := fuel) by lia.
    rewrite (IH (length rest')) with (fuel := n) (rest := rest') by lia.
    reflexivity.
Qed.

Lemma key_plain : ~ In NUL address_key /\ ~ In LF address_key /\ ~ In CR address_key.
Proof. repeat split; intros H; simpl in H; intuition discriminate. Qed.

Lemma key_differs l c rest :
  firstn (length address_key) l <> address_key -> ~ In c address_key ->
  strncmp_lit (l ++ c :: rest) (cs "IBUS_ADDRESS=") = false.
Proof.
  intros Hkey Hc. unfold strncmp_lit, streq.
  destruct (list_eq_dec ascii_dec _ _) as [E|]; [|reflexivity].
  exfalso. fold address_key in E.
  destruct (Nat.le_gt_cases (length address_key) (length l)) as [Hle|Hgt].
  - apply Hkey. rewrite <- E at 2.
    rewrite firstn_app. replace (length address_key - length l) with 0 by lia.
    cbn [firstn]. rewrite app_nil_r. reflexivity.
  - apply Hc. rewrite <- E. rewrite firstn_app.
    rewrite firstn_all2 by lia. apply in_or_app. right.
    destruct (length address_key - length l) eqn:Ed; [lia|]. simpl. auto.
Qed.

Lemma other_line_differs l :
  other_line l -> strncmp_lit ((l ++ [LF]) ++ [NUL]) (cs "IBUS_ADDRESS=") = false.
Proof.
  intros (Hlf & _ & Hkey). rewrite <- app_assoc. cbn [app].
  apply key_differs; [exact Hkey | apply key_plain].
Qed.

(** The lines before the address line are read and passed over. *)
Lemma scan_address_lines lines tail fuel :
  Forall other_line lines -> length lines <= fuel ->
  scan_address fuel (lf_lines lines ++ tail) = scan_address (fuel - length lines) tail.
Proof.
  intros Hl. revert fuel. induction Hl as [|l lines Hol _ IH]; intros fuel Hfuel.
  - simpl. rewrite Nat.sub_0_r. reflexivity.
  - unfold lf_lines in *. cbn [map concat length] in *.
    destruct fuel as [|fuel]; [lia|].
    rewrite <- !app_assoc. cbn [app scan_address].
    rewrite fgets_line by apply Hol.
    rewrite other_line_differs by exact Hol.
    rewrite IH by lia. reflexivity.
Qed.

Lemma strlen_app s rest : ~ In NUL s -> strlen (s ++ NUL :: rest) = length s.
Proof. intros H. unfold strlen. rewrite until_nul_app by exact H. reflexivity. Qed.

Lemma nth_inside_differs (P rest : list ascii) i ch :
  i < length P -> ~ In ch P -> Ascii.eqb (nth i (P ++ rest) NUL) ch = false.
Proof.
  intros Hi Hn. rewrite app_nth1 by exact Hi.
  destruct (Ascii.eqb_spec (nth i P NUL) ch) as [E|]; [|reflexivity].
  exfalso. apply Hn. rewrite <- E. apply nth_In. exact Hi.
Qed.

(** The three ends of the address line under lines 134 to 136. *)
Lemma strip_lf P :
  ~ In NUL P -> ~ In CR P -> P <> [] ->
  strip_line_end (P ++ [LF; NUL]) = P ++ [NUL; NUL].
Proof.
  intros Hn Hc Hne. unfold strip_line_end.
  assert (Hlen : strlen (P ++ [LF; NUL]) = length P + 1).
  { replace (P ++ [LF; NUL]) with ((P ++ [LF]) ++ NUL :: []) by (rewrite <- app_assoc; reflexivity).
    rewrite strlen_app; [rewrite length_app; reflexivity|].
    intros Hin. apply in_app_or in Hin as [Hin|[Hin|[]]]; [auto | discriminate]. }
  rewrite Hlen. replace (length P + 1 - 1) with (length P) by lia.
  rewrite nth_middle, Ascii.eqb_refl, poke_app.
  rewrite nth_inside_differs; [reflexivity | | exact Hc].
  destruct P; [congruence | simpl; lia].
Qed.

Lemma strip_crlf P :
  ~ In NUL P -> strip_line_end (P ++ [CR; LF; NUL]) = P ++ [NUL; NUL; NUL].
Proof.
  intros Hn. unfold strip_line_end.
  assert (Hlen : strlen (P ++ [CR; LF; NUL]) = length P + 2).
  { replace (P ++ [CR; LF; NUL]) with ((P ++ [CR; LF]) ++ NUL :: [])
      by (rewrite <- app_assoc; reflexivity).
    rewrite strlen_app; [rewrite length_app; reflexivity|].
    intros Hin. apply in_app_or in Hin as [Hin|[Hin|[Hin|[]]]]; [auto | discriminate | discriminate]. }
  rewrite Hlen. replace (length P + 2 - 1) with (length (P ++ [CR])) by (rewrite length_app; simpl; lia).
  replace (length P + 2 - 2) with (length P) by lia.
  replace (P ++ [CR; LF; NUL]) with ((P ++ [CR]) ++ LF :: [NUL])
    by (rewrite <- app_assoc; reflexivity).
  rewrite nth_middle, Ascii.eqb_refl, poke_app.
  rewrite <- app_assoc. cbn [app].
  rewrite nth_middle, Ascii.eqb_refl, poke_app. reflexivity.
Qed.

Lemma strip_none P :
  ~ In NUL P -> ~ In LF P -> ~ In CR P -> 2 <= length P ->
  strip_line_end (P ++ [NUL]) = P ++ [NUL].
Proof.
  intros Hn Hl Hc Hlen. unfold strip_line_end.
  rewrite strlen_app by exact Hn.
  rewrite nth_inside_differs by (auto; lia).
  rewrite nth_inside_differs by (auto; lia).
  reflexivity.
Qed.

Lemma key_matches rest : strncmp_lit (address_key ++ rest) (cs "IBUS_ADDRESS=") = true.
Proof.
  unfold strncmp_lit. fold address_key.
  rewrite firstn_app, Nat.sub_diag, firstn_all. cbn [firstn]. rewrite app_nil_r.
  unfold streq. destruct (list_eq_dec ascii_dec address_key address_key); congruence.
Qed.

Lemma not_in_app (ch : ascii) a b : ~ In ch a -> ~ In ch b -> ~ In ch (a ++ b).
Proof. intros Ha Hb Hin. apply in_app_or in Hin as [Hin|Hin]; auto. Qed.

(** The address line is found, and the array holds the value behind the key. *)
Lemma scan_address_line fuel v eol rest :
  plain v -> ends_line eol rest ->
  length address_key + length v + length eol <= 1023 ->
  exists buf,
    scan_address fuel (address_key ++ v ++ eol ++ rest) = Some buf /\
    c_str buf (length address_key) = Some v.
Proof.
  intros (Hn & Hl & Hc) Hend Hlen.
  destruct key_plain as (Kn & Kl & Kc).
  assert (Hkv : address_key ++ v <> []) by (intros E; discriminate E).
  destruct Hend as [-> | [-> | [-> ->]]].
  - exists ((address_key ++ v) ++ [NUL; NUL]). split.
    + replace (address_key ++ v ++ [LF] ++ rest) with ((address_key ++ v) ++ LF :: rest)
        by (rewrite <- app_assoc; reflexivity).
      destruct fuel; cbn [scan_address];
        (rewrite fgets_line;
         [|apply not_in_app; assumption | rewrite length_app; simpl in *; lia]);
        rewrite <- !app_assoc; rewrite key_matches;
        cbn [app]; rewrite app_assoc, strip_lf; auto using not_in_app.
    + rewrite <- app_assoc. rewrite c_str_app. apply until_nul_app. exact Hn.
  - exists ((address_key ++ v) ++ [NUL; NUL; NUL]). split.
    + replace (address_key ++ v ++ [CR; LF] ++ rest)
        with ((address_key ++ v ++ [CR]) ++ LF :: rest)
        by (rewrite <- !app_assoc; reflexivity).
      assert (Hlf : ~ In LF (address_key ++ v ++ [CR])).
      { apply not_in_app; [exact Kl|]. apply not_in_app; [exact Hl|].
        intros [E|[]]; discriminate E. }
      destruct fuel; cbn [scan_address];
        (rewrite fgets_line;
         [|exact Hlf | rewrite !length_app; simpl in *; lia]);
        rewrite <- !app_assoc; rewrite key_matches;
        cbn [app]; rewrite app_assoc, strip_crlf; auto using not_in_app.
    + rewrite <- app_assoc. rewrite c_str_app. apply until_nul_app. exact Hn.
  - exists ((address_key ++ v) ++ [NUL]). split.
    + rewrite !app_nil_r.
      destruct fuel; cbn [scan_address];
        (rewrite fgets_last;
         [|exact Hkv | apply not_in_app; assumption | rewrite length_app; simpl in *; lia]);
        rewrite <- !app_assoc; rewrite key_matches;
        rewrite app_assoc, strip_none; auto using not_in_app;
        rewrite length_app; simpl; lia.
    + rewrite <- app_assoc. rewrite c_str_app. apply until_nul_app. exact Hn.
Qed.

(** No address line: the lines are passed over and the file ends. *)
Lemma scan_address_none fuel lines last :
  Forall other_line lines -> other_line last -> length lines <= fuel ->
  scan_address fuel (lf_lines lines ++ last) = None.
Proof.
  intros Hl (Hlf & Hlen & Hkey) Hfuel.
  rewrite scan_address_lines by assumption.
  destruct last as [|ch last'].
  - destruct (fuel - length lines); reflexivity.
  - remember (ch :: last') as last eqn:El.
    assert (Hne : last <> []) by (subst; discriminate).
    destruct (fuel - length lines) as [|fuel']; cbn [scan_address];
      (rewrite fgets_last by (auto; lia));
      (rewrite key_differs by (auto; apply key_plain));
      [reflexivity | destruct fuel'; reflexivity].
Qed.

Lemma lf_lines_length lines : length lines <= length (lf_lines lines).
Proof.
  unfold lf_lines. induction lines as [|l lines IH]; simpl; [lia|].
  rewrite !length_app. simpl. lia.
Qed.

(** The two paths of [read_ibus_address] on a file that is opened and
    statted. *)
Lemma read_ibus_address_found w m f t buf a :
  live (heap m) (address_file_name (ibus m)) -> live (heap m) (address (ibus m)) ->
  opened w m = Some f -> f_mtime f = Some t ->
  found_in f = Some buf -> c_str buf (length address_key) = Some a ->
  read_ibus_address w m =
  Some (true,
        with_ibus (set_address (Some (brk m)))
          (with_heap ((brk m, a) :: freed (address (ibus m)) (heap m)) (S (brk m))
             (with_ibus (set_address_file_mtime t)
                (logs [EFopen (file_name_of m); EFclose] m)))).
Proof.
  intros Hname Haddr Hopen Ht Hfound Ha.
  unfold opened, found_in in *.
  unfold read_ibus_address.
  rewrite (bind_run _ (load_run address_file_name m)).
  rewrite (bind_run _ (deref_run _ _ Hname)).
  fold (file_name_of m) in *.
  unfold fopen, fclose, _glfwInputError.
  cbv beta iota delta [bind emit ret]. rewrite Hopen. rewrite Ht.
  cbv beta iota delta [store]. rewrite Hfound.
  rewrite load_run.
  rewrite free_live by (machine_simpl; exact Haddr).
  unfold read_str. fold address_key. rewrite Ha.
  cbv beta iota delta [ret strdup].
  unfold with_ibus, with_heap, log, logs. machine_simpl.
  rewrite <- !app_assoc. reflexivity.
Qed.

Lemma read_ibus_address_not_found w m f t :
  live (heap m) (address_file_name (ibus m)) ->
  opened w m = Some f -> f_mtime f = Some t -> found_in f = None ->
  read_ibus_address w m =
  Some (false,
        logs [EFopen (file_name_of m); EFclose;
              EInputError "Could not find IBUS_ADDRESS in %s"]
          (with_ibus (set_address_file_mtime t) m)).
Proof.
  intros Hname Hopen Ht Hfound.
  unfold opened, found_in in *.
  unfold read_ibus_address.
  rewrite (bind_run _ (load_run address_file_name m)).
  rewrite (bind_run _ (deref_run _ _ Hname)).
  fold (file_name_of m) in *.
  unfold fopen, fclose, _glfwInputError.
  cbv beta iota delta [bind emit ret]. rewrite Hopen. rewrite Ht.
  cbv beta iota delta [store]. rewrite Hfound.
  cbv beta iota delta [ret].
  unfold logs, log, with_ibus. machine_simpl. rewrite <- !app_assoc. reflexivity.
Qed.

(** C5, as the code has it: in an address file that opens and stats, whose
    lines end with LF or CR LF (the address line may also end the file),
    each line up to the address line fitting with its newline into the 1023
    characters one [fgets] reads, and whose value behind "IBUS_ADDRESS="
    holds no NUL, CR or LF, [read_ibus_address] stores exactly that value,
    without the CR or LF that ends the line, together with the mtime of the
    file, and returns true.  When no line starts with the key it stores the
    mtime, reports "Could not find IBUS_ADDRESS" and returns false. *)
Theorem address_line_read w m f t :
  live (heap m) (address_file_name (ibus m)) -> live (heap m) (address (ibus m)) ->
  opened w m = Some f -> f_mtime f = Some t ->
  (forall lines v eol rest,
      f_contents f = lf_lines lines ++ address_key ++ v ++ eol ++ rest ->
      Forall other_line lines -> plain v -> ends_line eol rest ->
      length address_key + length v + length eol <= 1023 ->
      exists m',
        read_ibus_address w m = Some (true, m') /\
        address (ibus m') = Some (brk m) /\
        heap_lookup (heap m') (brk m) = Some v /\
        address_file_mtime (ibus m') = t) /\
  (forall lines last,
      f_contents f = lf_lines lines ++ last ->
      Forall other_line lines -> other_line last ->
      read_ibus_address w m =
      Some (false,
            logs [EFopen (file_name_of m); EFclose;
                  EInputError "Could not find IBUS_ADDRESS in %s"]
              (with_ibus (set_address_file_mtime t) m))).
Proof.
  intros Hname Haddr Hopen Ht. split.
  - intros lines v eol rest Hc Hlines Hv Hend Hlen.
    assert (Hfuel : length lines <= length (f_contents f)).
    { rewrite Hc, length_app. pose proof (lf_lines_length lines). lia. }
    destruct (@scan_address_line (length (f_contents f) - length lines) v eol rest
                Hv Hend Hlen) as (buf & Hscan & Hstr).
    assert (Hfound : found_in f = Some buf).
    { unfold found_in. rewrite Hc at 2.
      rewrite scan_address_lines by assumption. exact Hscan. }
    eexists. split; [exact (read_ibus_address_found _ _ Hname Haddr Hopen Ht Hfound Hstr)|].
    machine_simpl. cbn [heap_lookup]. rewrite Nat.eqb_refl. repeat split.
  - intros lines last Hc Hlines Hlast.
    apply (@read_ibus_address_not_found w m f t); try assumption.
    unfold found_in. rewrite Hc at 2.
    apply scan_address_none; try assumption.
    rewrite Hc, length_app. pose proof (lf_lines_length lines). lia.
Qed.

Lemma address_file_lines :
  f_contents (mkFile address_file (Some 5%Z)) =
    lf_lines [cs "# This file is created by ibus-daemon, please do not modify it"] ++
    address_key ++ cs "unix:path=/tmp/ibus" ++ [LF] ++ cs "IBUS_DAEMON_PID=1" ++ [LF] /\
  Forall other_line [cs "# This file is created by ibus-daemon, please do not modify it"] /\
  plain (cs "unix:path=/tmp/ibus").
Proof.
  split; [reflexivity|]. split.
  - constructor; [|constructor]. unfold other_line. split; [|split].
    + intros H. simpl in H. intuition discriminate.
    + apply Nat.ltb_lt. vm_compute. reflexivity.
    + vm_compute. discriminate.
  - repeat split; intros H; simpl in H; intuition discriminate.
Qed.

Lemma address_line_read_witness :
  exists m',
    read_ibus_address desktop resolved = Some (true, m') /\
    address (ibus m') = Some 2 /\
    heap_lookup (heap m') 2 = Some (cs "unix:path=/tmp/ibus") /\
    address_file_mtime (ibus m') = 5%Z.
Proof.
  destruct address_file_lines as (Hc & Hl & Hv).
  refine (proj1 (@address_line_read desktop resolved (mkFile address_file (Some 5%Z)) 5%Z
                   _ _ eq_refl eq_refl) _ _ [LF] _ Hc Hl Hv _ _).
  - simpl. discriminate.
  - exact I.
  - left. reflexivity.
  - apply Nat.leb_le. vm_compute. reflexivity.
Defined.

(** C5 as stated fails for a file whose lines end with CR alone: the value
    stored runs over the CR to the end of what [fgets] read and ends with a
    CR.  A CR is cut only in the last place but one of what [fgets] read,
    with the character behind it, also where that character is no LF.  And
    in a file with LF line ends whose address line has more than 1023
    characters the value stored is cut (1010 of its 1020 characters). *)
Lemma cr_line_end_not_stripped :
  (exists m',
      read_ibus_address cr_desktop connected = Some (true, m') /\
      address (ibus m') = Some 4 /\
      heap_lookup (heap m') 4 =
        Some (cs "unix:path=/tmp/ibus" ++ [CR] ++ cs "IBUS_DAEMON_PID=1" ++ [CR])) /\
  (exists m',
      read_ibus_address cr_inside_desktop connected = Some (true, m') /\
      address (ibus m') = Some 4 /\
      heap_lookup (heap m') 4 = Some (cs "unix:path=/tmp/ibus")) /\
  (exists m',
      read_ibus_address long_desktop connected = Some (true, m') /\
      address (ibus m') = Some 4 /\
      heap_lookup (heap m') 4 = Some (repeat "a"%char 1010)).
Proof.
  split; [|split]; eexists; (split; [vm_compute; reflexivity|]); split; reflexivity.
Qed.

(* ================================================================== *)
(** ** Ownership of the strings is kept *)

Lemma heap_remove_none h a b :
  heap_lookup h b = None -> heap_lookup (heap_remove h a) b = None.
Proof.
  induction h as [|[c s] h IH]; simpl; [reflexivity|].
  destruct (Nat.eqb_spec b c) as [->|Hbc]; [discriminate|].
  intros H. destruct (Nat.eqb a c); [auto|].
  simpl. destruct (Nat.eqb_spec b c); [congruence | auto].
Qed.

Lemma freed_none p h b : heap_lookup h b = None -> heap_lookup (freed p h) b = None.
Proof. destruct p; simpl; [apply heap_remove_none | auto]. Qed.

Lemma live_below m p a :
  (forall a, brk m <= a -> heap_lookup (heap m) a = None) ->
  live (heap m) p -> p = Some a -> a < brk m.
Proof.
  intros Hf Hl ->. simpl in Hl.
  destruct (Nat.lt_ge_cases a (brk m)) as [Hlt|Hge]; [exact Hlt|].
  exfalso. apply Hl, Hf, Hge.
Qed.

Lemma live_kept h p q s b :
  live h q -> apart p q -> (forall a, q = Some a -> a <> b) ->
  live ((b, s) :: freed p h) q.
Proof.
  destruct q as [a|]; simpl; [|auto]. intros Hl Hap Hne.
  destruct (Nat.eqb_spec a b) as [E|_]; [exfalso; eapply Hne; eauto|].
  rewrite freed_lookup_other; [exact Hl|].
  destruct p; simpl in *; congruence.
Qed.

Lemma apart_sym p q : apart p q -> apart q p.
Proof. destruct p, q; simpl; auto. Qed.

(** A session that agrees with an owning session on its strings owns them. *)
Lemma owned_same m m' :
  owned m ->
  input_ctx_path (ibus m') = input_ctx_path (ibus m) ->
  address (ibus m') = address (ibus m) ->
  address_file_name (ibus m') = address_file_name (ibus m) ->
  heap m' = heap m -> brk m' = brk m ->
  owned m'.
Proof.
  intros [H1 H2 H3 H4 H5 H6 H7] Ec Ea En Eh Eb.
  constructor; rewrite ?Ec, ?Ea, ?En, ?Eh, ?Eb; assumption.
Qed.

Lemma below_fresh h b q :
  (forall a, b <= a -> heap_lookup h a = None) -> live h q ->
  forall a, q = Some a -> a <> b.
Proof.
  intros Hf Hl a -> ->. simpl in Hl. apply Hl, Hf. lia.
Qed.

Lemma apart_fresh h b q :
  (forall a, b <= a -> heap_lookup h a = None) -> live h q -> apart (Some b) q.
Proof.
  intros Hf Hl. destruct q as [a|]; simpl; [|exact I].
  intros ->. simpl in Hl. apply Hl, Hf. lia.
Qed.

(** [free(p); p = strdup(s)] on a field [p], the two other fields being [q]
    and [r]; and [free(p); p = NULL]. *)
Lemma own_replace h b p q r s :
  live h p -> live h q -> live h r -> apart p q -> apart p r -> apart q r ->
  (forall a, b <= a -> heap_lookup h a = None) ->
  live ((b, s) :: freed p h) (Some b) /\
  live ((b, s) :: freed p h) q /\
  live ((b, s) :: freed p h) r /\
  apart (Some b) q /\ apart (Some b) r /\
  (forall a, S b <= a -> heap_lookup ((b, s) :: freed p h) a = None).
Proof.
  intros Hp Hq Hr Hpq Hpr Hqr Hf.
  split; [simpl; rewrite Nat.eqb_refl; discriminate|].
  split; [apply live_kept; eauto using below_fresh|].
  split; [apply live_kept; eauto using below_fresh|].
  split; [eapply apart_fresh; eassumption|].
  split; [eapply apart_fresh; eassumption|].
  intros a Ha. simpl. destruct (Nat.eqb_spec a b); [lia|].
  apply freed_none, Hf. lia.
Qed.

Lemma own_clear h b p q r :
  live h q -> live h r -> apart p q -> apart p r ->
  (forall a, b <= a -> heap_lookup h a = None) ->
  live (freed p h) q /\ live (freed p h) r /\
  (forall a, b <= a -> heap_lookup (freed p h) a = None).
Proof.
  intros Hq Hr Hpq Hpr Hf.
  split; [apply live_freed; assumption|].
  split; [apply live_freed; assumption|].
  intros a Ha. apply freed_none, Hf, Ha.
Qed.

Lemma owned_replace_ctx m m' s :
  owned m ->
  input_ctx_path (ibus m') = Some (brk m) ->
  address (ibus m') = address (ibus m) ->
  address_file_name (ibus m') = address_file_name (ibus m) ->
  heap m' = (brk m, s) :: freed (input_ctx_path (ibus m)) (heap m) ->
  brk m' = S (brk m) ->
  owned m'.
Proof.
  intros [H1 H2 H3 H4 H5 H6 H7] Ec Ea En Eh Eb.
  destruct (@own_replace _ _ _ _ _ s H1 H2 H3 H4 H5 H6 H7) as (L1 & L2 & L3 & A1 & A2 & F).
  constructor; rewrite ?Ec, ?Ea, ?En, ?Eh, ?Eb; assumption.
Qed.

Lemma owned_replace_address m m' s :
  owned m ->
  input_ctx_path (ibus m') = input_ctx_path (ibus m) ->
  address (ibus m') = Some (brk m) ->
  address_file_name (ibus m') = address_file_name (ibus m) ->
  heap m' = (brk m, s) :: freed (address (ibus m)) (heap m) ->
  brk m' = S (brk m) ->
  owned m'.
Proof.
  intros [H1 H2 H3 H4 H5 H6 H7] Ec Ea En Eh Eb.
  destruct (@own_replace _ _ _ _ _ s H2 H1 H3 (apart_sym _ _ H4) H6 H5 H7)
    as (L1 & L2 & L3 & A1 & A2 & F).
  constructor; rewrite ?Ec, ?Ea, ?En, ?Eh, ?Eb; auto using apart_sym.
Qed.

Lemma owned_replace_name m m' s :
  owned m ->
  input_ctx_path (ibus m') = input_ctx_path (ibus m) ->
  address (ibus m') = address (ibus m) ->
  address_file_name (ibus m') = Some (brk m) ->
  heap m' = (brk m, s) :: freed (address_file_name (ibus m)) (heap m) ->
  brk m' = S (brk m) ->
  owned m'.
Proof.
  intros [H1 H2 H3 H4 H5 H6 H7] Ec Ea En Eh Eb.
  destruct (@own_replace _ _ _ _ _ s H3 H1 H2 (apart_sym _ _ H5) (apart_sym _ _ H6) H4 H7)
    as (L1 & L2 & L3 & A1 & A2 & F).
  constructor; rewrite ?Ec, ?Ea, ?En, ?Eh, ?Eb; auto using apart_sym.
Qed.

Lemma owned_clear_ctx m m' :
  owned m ->
  input_ctx_path (ibus m') = None ->
  address (ibus m') = address (ibus m) ->
  address_file_name (ibus m') = address_file_name (ibus m) ->
  heap m' = freed (input_ctx_path (ibus m)) (heap m) ->
  brk m' = brk m ->
  owned m'.
Proof.
  intros [H1 H2 H3 H4 H5 H6 H7] Ec Ea En Eh Eb.
  destruct (@own_clear _ (brk m) _ _ _ H2 H3 H4 H5 H7) as (L2 & L3 & F).
  constructor; rewrite ?Ec, ?Ea, ?En, ?Eh, ?Eb; simpl; auto.
Qed.

(** The end of an ownership proof: the machine reached agrees with an
    owning one up to one of the four updates. *)
Ltac owned_fin :=
  match goal with
  | Ho : owned ?x |- owned _ =>
      first
        [ exact Ho
        | eapply (@owned_same x); [exact Ho | machine_simpl; first [reflexivity | congruence] ..]
        | eapply (@owned_clear_ctx x); [exact Ho | machine_simpl; first [reflexivity | congruence] ..]
        | eapply (@owned_replace_ctx x); [exact Ho | machine_simpl; first [reflexivity | congruence] ..]
        | eapply (@owned_replace_address x); [exact Ho | machine_simpl; first [reflexivity | congruence] ..]
        | eapply (@owned_replace_name x); [exact Ho | machine_simpl; first [reflexivity | congruence] ..] ]
  end.

Lemma resolver_owned w m r m' :
  get_ibus_address_file_name w m = Some (r, m') -> owned m -> owned m'.
Proof.
  intros H Ho. apply resolver_frame in H as (Hib & Hhp & Hbk & _). owned_fin.
Qed.

Lemma read_ibus_address_owned w m r m' :
  read_ibus_address w m = Some (r, m') -> owned m -> owned m'.
Proof.
  intros H Ho. unfold read_ibus_address in H. unfold_calls_in H.
  run_in H; owned_fin.
Qed.

(** The calls of functions of the program left by [run_in], turned into the
    ownership of the machine they return. *)
Ltac owned_calls lemmas :=
  repeat match goal with
         | Hr : get_ibus_address_file_name _ _ = Some _ |- _ =>
             apply resolver_owned in Hr; [|owned_fin]
         | Hr : read_ibus_address _ _ = Some _ |- _ =>
             apply read_ibus_address_owned in Hr; [|owned_fin]
         | Hr : _ = Some _ |- _ => lemmas Hr
         end.

Ltac no_more Hr := fail.

Lemma setup_connection_owned w m r m' :
  setup_connection w m = Some (r, m') -> owned m -> owned m'.
Proof.
  intros H Ho. unfold setup_connection in H. unfold_calls_in H.
  run_in H; owned_calls no_more; owned_fin.
Qed.

Ltac with_setup Hr :=
  match type of Hr with
  | setup_connection _ _ = Some _ => apply setup_connection_owned in Hr; [|owned_fin]
  end.

Lemma check_connection_owned w m r m' :
  check_connection w m = Some (r, m') -> owned m -> owned m'.
Proof.
  intros H Ho. unfold check_connection in H. unfold_calls_in H.
  run_in H; owned_calls with_setup; owned_fin.
Qed.

Ltac with_check Hr :=
  match type of Hr with
  | check_connection _ _ = Some _ => apply check_connection_owned in Hr; [|owned_fin]
  end.

Lemma glfw_ibus_set_focused_owned w focused m r m' :
  glfw_ibus_set_focused w focused m = Some (r, m') -> owned m -> owned m'.
Proof.
  intros H Ho. unfold glfw_ibus_set_focused, simple_message in H. unfold_calls_in H.
  run_in H; owned_calls with_check; owned_fin.
Qed.

Lemma set_cursor_geometry_owned w x y wd h m r m' :
  set_cursor_geometry w x y wd h m = Some (r, m') -> owned m -> owned m'.
Proof.
  intros H Ho. unfold set_cursor_geometry in H. unfold_calls_in H.
  run_in H; owned_calls with_check; owned_fin.
Qed.

Ltac with_messages Hr :=
  match type of Hr with
  | glfw_ibus_set_focused _ _ _ = Some _ =>
      apply glfw_ibus_set_focused_owned in Hr; [|owned_fin]
  | set_cursor_geometry _ _ _ _ _ _ = Some _ =>
      apply set_cursor_geometry_owned in Hr; [|owned_fin]
  end.

Lemma input_context_created_owned w msg errmsg m r m' :
  input_context_created w msg errmsg m = Some (r, m') -> owned m -> owned m'.
Proof.
  intros H Ho. unfold input_context_created in H. unfold_calls_in H.
  run_in H; owned_calls with_messages; owned_fin.
Qed.

Lemma glfw_connect_to_ibus_owned w m r m' :
  glfw_connect_to_ibus w m = Some (r, m') -> owned m -> owned m'.
Proof.
  intros H Ho. unfold glfw_connect_to_ibus in H. unfold_calls_in H.
  run_in H; owned_calls with_setup; owned_fin.
Qed.

Lemma terminated_owned m : owned m -> owned (terminated m).
Proof.
  intros Ho. constructor; simpl; auto.
  intros a Ha. repeat apply freed_none. apply (own_fresh Ho). exact Ha.
Qed.

Lemma initial_owned : owned initial.
Proof. constructor; simpl; auto. Qed.

(** The sessions the program can reach own their strings: the initial
    session does, and every function of the file that returns keeps it so. *)
Theorem ownership_kept :
  owned initial /\
  (forall w m r m', glfw_connect_to_ibus w m = Some (r, m') -> owned m -> owned m') /\
  (forall w msg e m r m',
      input_context_created w msg e m = Some (r, m') -> owned m -> owned m') /\
  (forall w focused m r m',
      glfw_ibus_set_focused w focused m = Some (r, m') -> owned m -> owned m') /\
  (forall w x y wd h m r m',
      set_cursor_geometry w x y wd h m = Some (r, m') -> owned m -> owned m') /\
  (forall w m r m', check_connection w m = Some (r, m') -> owned m -> owned m') /\
  (forall w m r m', setup_connection w m = Some (r, m') -> owned m -> owned m') /\
  (forall m r m', glfw_ibus_terminate m = Some (r, m') -> owned m -> owned m') /\
  (forall m r m', glfw_ibus_dispatch m = Some (r, m') -> owned m -> owned m').
Proof.
  split; [exact initial_owned|].
  split; [exact glfw_connect_to_ibus_owned|].
  split; [exact input_context_created_owned|].
  split; [exact glfw_ibus_set_focused_owned|].
  split; [exact set_cursor_geometry_owned|].
  split; [exact check_connection_owned|].
  split; [exact setup_connection_owned|].
  split.
  - intros m r m' H Ho. rewrite (terminate_owned Ho) in H. inversion H.
    apply terminated_owned. exact Ho.
  - intros m r m' H Ho. unfold glfw_ibus_dispatch in H. unfold_calls_in H.
    run_in H; owned_fin.
Qed.

(* ================================================================== *)
(** ** No string is leaked *)

Lemma tight_same m m' :
  tight m ->
  input_ctx_path (ibus m') = input_ctx_path (ibus m) ->
  address (ibus m') = address (ibus m) ->
  address_file_name (ibus m') = address_file_name (ibus m) ->
  heap m' = heap m ->
  tight m'.
Proof.
  intros Ht Hc Ha Hn Hh a. rewrite Hc, Ha, Hn, Hh. apply Ht.
Qed.

Lemma lookup_replaced h b s p a :
  heap_lookup ((b, s) :: freed p h) a <> None ->
  a = b \/ (heap_lookup h a <> None /\ p <> Some a).
Proof.
  simpl. destruct (Nat.eqb a b) eqn:E.
  - intros _. left. apply Nat.eqb_eq. exact E.
  - intros H. right. destruct p as [q|]; simpl in H.
    + destruct (Nat.eq_dec q a) as [->|Hne].
      * rewrite heap_lookup_remove_same in H. contradiction.
      * rewrite heap_lookup_remove_other in H by exact Hne. split; [exact H | congruence].
    + split; [exact H | discriminate].
Qed.

Lemma lookup_freed h p a :
  heap_lookup (freed p h) a <> None -> heap_lookup h a <> None /\ p <> Some a.
Proof.
  destruct p as [q|]; simpl.
  - destruct (Nat.eq_dec q a) as [->|Hne].
    + rewrite heap_lookup_remove_same. contradiction.
    + rewrite heap_lookup_remove_other by exact Hne. intros H. split; [exact H | congruence].
  - intros H. split; [exact H | discriminate].
Qed.

Lemma tight_replace_ctx m m' s :
  tight m ->
  input_ctx_path (ibus m') = Some (brk m) ->
  address (ibus m') = address (ibus m) ->
  address_file_name (ibus m') = address_file_name (ibus m) ->
  heap m' = (brk m, s) :: freed (input_ctx_path (ibus m)) (heap m) ->
  tight m'.
Proof.
  intros Ht Hc Ha Hn Hh a. rewrite Hc, Ha, Hn, Hh. intros H.
  apply lookup_replaced in H as [->|[H Hp]]; [left; reflexivity|].
  destruct (Ht a H) as [E|[E|E]]; [congruence | right; left; exact E | right; right; exact E].
Qed.

Lemma tight_replace_address m m' s :
  tight m ->
  input_ctx_path (ibus m') = input_ctx_path (ibus m) ->
  address (ibus m') = Some (brk m) ->
  address_file_name (ibus m') = address_file_name (ibus m) ->
  heap m' = (brk m, s) :: freed (address (ibus m)) (heap m) ->
  tight m'.
Proof.
  intros Ht Hc Ha Hn Hh a. rewrite Hc, Ha, Hn, Hh. intros H.
  apply lookup_replaced in H as [->|[H Hp]]; [right; left; reflexivity|].
  destruct (Ht a H) as [E|[E|E]]; [left; exact E | congruence | right; right; exact E].
Qed.

Lemma tight_replace_name m m' s :
  tight m ->
  input_ctx_path (ibus m') = input_ctx_path (ibus m) ->
  address (ibus m') = address (ibus m) ->
  address_file_name (ibus m') = Some (brk m) ->
  heap m' = (brk m, s) :: freed (address_file_name (ibus m)) (heap m) ->
  tight m'.
Proof.
  intros Ht Hc Ha Hn Hh a. rewrite Hc, Ha, Hn, Hh. intros H.
  apply lookup_replaced in H as [->|[H Hp]]; [right; right; reflexivity|].
  destruct (Ht a H) as [E|[E|E]]; [left; exact E | right; left; exact E | congruence].
Qed.

Lemma tight_clear_ctx m m' :
  tight m ->
  input_ctx_path (ibus m') = None ->
  address (ibus m') = address (ibus m) ->
  address_file_name (ibus m') = address_file_name (ibus m) ->
  heap m' = freed (input_ctx_path (ibus m)) (heap m) ->
  tight m'.
Proof.
  intros Ht Hc Ha Hn Hh a. rewrite Hc, Ha, Hn, Hh. intros H.
  apply lookup_freed in H as [H Hp].
  destruct (Ht a H) as [E|[E|E]]; [congruence | right; left; exact E | right; right; exact E].
Qed.

Ltac tight_fin :=
  match goal with
  | Ho : tight ?x |- tight _ =>
      first
        [ exact Ho
        | eapply (@tight_same x); [exact Ho | machine_simpl; first [reflexivity | congruence] ..]
        | eapply (@tight_clear_ctx x); [exact Ho | machine_simpl; first [reflexivity | congruence] ..]
        | eapply (@tight_replace_ctx x); [exact Ho | machine_simpl; first [reflexivity | congruence] ..]
        | eapply (@tight_replace_address x); [exact Ho | machine_simpl; first [reflexivity | congruence] ..]
        | eapply (@tight_replace_name x); [exact Ho | machine_simpl; first [reflexivity | congruence] ..] ]
  end.
Lemma resolver_tight w m r m' :
  get_ibus_address_file_name w m = Some (r, m') -> tight m -> tight m'.
Proof.
  intros H Ho. apply resolver_frame in H as (Hib & Hhp & Hbk & _). tight_fin.
Qed.

Lemma read_ibus_address_tight w m r m' :
  read_ibus_address w m = Some (r, m') -> tight m -> tight m'.
Proof.
  intros H Ho. unfold read_ibus_address in H. unfold_calls_in H.
  run_in H; tight_fin.
Qed.

Ltac tight_calls lemmas :=
  repeat match goal with
         | Hr : get_ibus_address_file_name _ _ = Some _ |- _ =>
             apply resolver_tight in Hr; [|tight_fin]
         | Hr : read_ibus_address _ _ = Some _ |- _ =>
             apply read_ibus_address_tight in Hr; [|tight_fin]
         | Hr : _ = Some _ |- _ => lemmas Hr
         end.

Lemma setup_connection_tight w m r m' :
  setup_connection w m = Some (r, m') -> tight m -> tight m'.
Proof.
  intros H Ho. unfold setup_connection in H. unfold_calls_in H.
  run_in H; tight_calls no_more; tight_fin.
Qed.

Ltac tight_setup Hr :=
  match type of Hr with
  | setup_connection _ _ = Some _ => apply setup_connection_tight in Hr; [|tight_fin]
  end.

Lemma check_connection_tight w m r m' :
  check_connection w m = Some (r, m') -> tight m -> tight m'.
Proof.
  intros H Ho. unfold check_connection in H. unfold_calls_in H.
  run_in H; tight_calls tight_setup; tight_fin.
Qed.

Ltac tight_check Hr :=
  match type of Hr with
  | check_connection _ _ = Some _ => apply check_connection_tight in Hr; [|tight_fin]
  end.

Lemma glfw_ibus_set_focused_tight w focused m r m' :
  glfw_ibus_set_focused w focused m = Some (r, m') -> tight m -> tight m'.
Proof.
  intros H Ho. unfold glfw_ibus_set_focused, simple_message in H. unfold_calls_in H.
  run_in H; tight_calls tight_check; tight_fin.
Qed.

Lemma set_cursor_geometry_tight w x y wd h m r m' :
  set_cursor_geometry w x y wd h m = Some (r, m') -> tight m -> tight m'.
Proof.
  intros H Ho. unfold set_cursor_geometry in H. unfold_calls_in H.
  run_in H; tight_calls tight_check; tight_fin.
Qed.

Ltac tight_messages Hr :=
  match type of Hr with
  | glfw_ibus_set_focused _ _ _ = Some _ =>
      apply glfw_ibus_set_focused_tight in Hr; [|tight_fin]
  | set_cursor_geometry _ _ _ _ _ _ = Some _ =>
      apply set_cursor_geometry_tight in Hr; [|tight_fin]
  end.

Lemma input_context_created_tight w msg errmsg m r m' :
  input_context_created w msg errmsg m = Some (r, m') -> tight m -> tight m'.
Proof.
  intros H Ho. unfold input_context_created in H. unfold_calls_in H.
  run_in H; tight_calls tight_messages; tight_fin.
Qed.

Lemma glfw_connect_to_ibus_tight w m r m' :
  glfw_connect_to_ibus w m = Some (r, m') -> tight m -> tight m'.
Proof.
  intros H Ho. unfold glfw_connect_to_ibus in H. unfold_calls_in H.
  run_in H; tight_calls tight_setup; tight_fin.
Qed.

(** After [glfw_ibus_terminate] no block of a tight session is live. *)
Lemma terminated_empty m a : tight m -> heap_lookup (heap (terminated m)) a = None.
Proof.
  intros Ht. destruct (heap_lookup (heap (terminated m)) a) eqn:E; [|reflexivity].
  exfalso. assert (H : heap_lookup (heap (terminated m)) a <> None) by congruence.
  simpl in H.
  apply lookup_freed in H as [H Hn]. apply lookup_freed in H as [H Ha].
  apply lookup_freed in H as [H Hp].
  destruct (Ht a H) as [E1|[E1|E1]]; congruence.
Qed.

Lemma terminated_tight m : tight m -> tight (terminated m).
Proof. intros Ht a H. rewrite terminated_empty in H by exact Ht. contradiction. Qed.

Lemma glfw_ibus_dispatch_same m r m' :
  glfw_ibus_dispatch m = Some (r, m') ->
  ibus m' = ibus m /\ heap m' = heap m /\ brk m' = brk m /\ ans m' = ans m.
Proof.
  intros H. unfold glfw_ibus_dispatch in H. unfold_calls_in H.
  run_in H; repeat split.
Qed.

Lemma call_owned w c m m' : call w c m = Some (tt, m') -> owned m -> owned m'.
Proof.
  destruct c; simpl; intros H Ho.
  - eapply glfw_connect_to_ibus_owned; eassumption.
  - rewrite (terminate_owned Ho) in H. inversion H. apply terminated_owned. exact Ho.
  - apply glfw_ibus_dispatch_same in H as (Hi & Hh & Hb & _).
    eapply owned_same; [exact Ho | congruence ..].
  - eapply glfw_ibus_set_focused_owned; eassumption.
  - eapply input_context_created_owned; eassumption.
Qed.

Lemma call_tight w c m m' : call w c m = Some (tt, m') -> owned m -> tight m -> tight m'.
Proof.
  destruct c; simpl; intros H Ho Ht.
  - eapply glfw_connect_to_ibus_tight; eassumption.
  - rewrite (terminate_owned Ho) in H. inversion H. apply terminated_tight. exact Ht.
  - apply glfw_ibus_dispatch_same in H as (Hi & Hh & Hb & _).
    eapply tight_same; [exact Ht | congruence ..].
  - eapply glfw_ibus_set_focused_tight; eassumption.
  - eapply input_context_created_tight; eassumption.
Qed.

Lemma initial_tight : tight initial.
Proof. intros a H. simpl in H. contradiction. Qed.

Lemma reachable_sound m : reachable m -> owned m /\ tight m.
Proof.
  induction 1 as [|w c m m' _ [Ho Ht] H].
  - split; [exact initial_owned | exact initial_tight].
  - split; [eapply call_owned | eapply call_tight]; eassumption.
Qed.

Lemma desktop_session :
  exists m', call desktop ConnectToIbus initial = Some (tt, m').
Proof. eexists. vm_compute. reflexivity. Qed.

(** X2: no reachable session leaks a string: every live block is the string
    one of the three fields points to, since each field is freed before it
    is assigned again.  (The copy of DISPLAY and the machine id are freed by
    the resolver itself on each of its paths; they are local to it and not
    part of this heap.) *)
Theorem session_leaks_no_string m : reachable m -> tight m.
Proof.
  intros H. cut (owned m /\ tight m); [tauto|].
  induction H as [|w c m m' _ [Ho Ht] H].
  - split; [exact initial_owned | exact initial_tight].
  - split; [eapply call_owned | eapply call_tight]; eassumption.
Qed.

Lemma session_leaks_no_string_witness :
  exists m', call desktop ConnectToIbus initial = Some (tt, m') /\ tight m'.
Proof.
  destruct desktop_session as (m' & H). exists m'. split; [exact H|].
  apply session_leaks_no_string.
  exact (reachable_call desktop ConnectToIbus reachable_initial H).
Defined.

(** X3: on every reachable session [glfw_ibus_terminate] returns and leaves
    no block allocated: the three strings are freed, whatever state the
    session was in. *)
Theorem terminate_frees_every_string m :
  reachable m ->
  exists m', glfw_ibus_terminate m = Some (tt, m') /\
             forall a, heap_lookup (heap m') a = None.
Proof.
  intros H. apply reachable_sound in H as [Ho Ht].
  exists (terminated m). split; [apply terminate_owned; exact Ho|].
  intros a. apply terminated_empty. exact Ht.
Qed.

Lemma terminate_frees_every_string_witness :
  exists m1, call desktop ConnectToIbus initial = Some (tt, m1) /\
  exists m', glfw_ibus_terminate m1 = Some (tt, m') /\
             forall a, heap_lookup (heap m') a = None.
Proof.
  destruct desktop_session as (m1 & H). exists m1. split; [exact H|].
  apply terminate_frees_every_string.
  exact (reachable_call desktop ConnectToIbus reachable_initial H).
Defined.

(* ================================================================== *)
(** ** The activation flag *)

Lemma keeps_refl A (f : Machine -> A) m : keeps f m m.
Proof. reflexivity. Qed.

Lemma keeps_trans A (f : Machine -> A) m1 m2 m3 :
  keeps f m1 m2 -> keeps f m2 m3 -> keeps f m1 m3.
Proof. unfold keeps. congruence. Qed.

Lemma setup_connection_keeps_inited w :
  respects (keeps (fun m => inited (ibus m))) (setup_connection w).
Proof. respects_tac (@keeps_refl bool (fun m => inited (ibus m))) (@keeps_trans bool (fun m => inited (ibus m))). Qed.

Lemma check_connection_keeps_inited w :
  respects (keeps (fun m => inited (ibus m))) (check_connection w).
Proof. respects_tac (@keeps_refl bool (fun m => inited (ibus m))) (@keeps_trans bool (fun m => inited (ibus m))). Qed.

Lemma glfw_ibus_set_focused_keeps_inited w focused :
  respects (keeps (fun m => inited (ibus m))) (glfw_ibus_set_focused w focused).
Proof. respects_tac (@keeps_refl bool (fun m => inited (ibus m))) (@keeps_trans bool (fun m => inited (ibus m))). Qed.

Lemma input_context_created_keeps_inited w msg errmsg :
  respects (keeps (fun m => inited (ibus m))) (input_context_created w msg errmsg).
Proof.
  unfold input_context_created, set_cursor_geometry.
  respects_tac (@keeps_refl bool (fun m => inited (ibus m))) (@keeps_trans bool (fun m => inited (ibus m))).
Qed.

Lemma glfw_ibus_terminate_keeps_inited :
  respects (keeps (fun m => inited (ibus m))) glfw_ibus_terminate.
Proof. respects_tac (@keeps_refl bool (fun m => inited (ibus m))) (@keeps_trans bool (fun m => inited (ibus m))). Qed.

Lemma glfw_ibus_dispatch_keeps_inited :
  respects (keeps (fun m => inited (ibus m))) glfw_ibus_dispatch.
Proof. respects_tac (@keeps_refl bool (fun m => inited (ibus m))) (@keeps_trans bool (fun m => inited (ibus m))). Qed.

Lemma glfw_connect_to_ibus_inited w m m' :
  glfw_connect_to_ibus w m = Some (tt, m') ->
  inited (ibus m') = inited (ibus m) || should_activate w.
Proof.
  intros H. unfold glfw_connect_to_ibus in H.
  rewrite (bind_run _ (load_run inited m)) in H.
  destruct (inited (ibus m)) eqn:Hi.
  - inversion H. subst. rewrite Hi. reflexivity.
  - unfold should_activate. cbn [orb].
    repeat (rewrite (bind_run _ (has_env_var_run w _ _ _)) in H;
            match type of H with
            | context [env_is w ?n ?v] => destruct (env_is w n v); cbn [orb]
            end);
    try (run_in H;
         match goal with
         | Hs : setup_connection _ _ = Some _ |- _ =>
             apply setup_connection_keeps_inited in Hs; unfold keeps in Hs; exact Hs
         end).
    inversion H. exact Hi.
Qed.

Lemma call_inited w c m m' :
  call w c m = Some (tt, m') -> inited (ibus m) = true -> inited (ibus m') = true.
Proof.
  destruct c; simpl; intros H Hi.
  - apply glfw_connect_to_ibus_inited in H. rewrite H, Hi. reflexivity.
  - apply glfw_ibus_terminate_keeps_inited in H. unfold keeps in H. congruence.
  - apply glfw_ibus_dispatch_keeps_inited in H. unfold keeps in H. congruence.
  - apply glfw_ibus_set_focused_keeps_inited in H. unfold keeps in H. congruence.
  - apply input_context_created_keeps_inited in H. unfold keeps in H. congruence.
Qed.

Lemma calls_inited l m m' :
  calls l m = Some (tt, m') -> inited (ibus m) = true -> inited (ibus m') = true.
Proof.
  revert m. induction l as [|[w c] l IH]; simpl; intros m H Hi.
  - inversion H. subst. exact Hi.
  - apply bind_inv in H as ([] & m1 & H1 & H). apply (IH m1 H).
    eapply call_inited; eassumption.
Qed.

Lemma glfw_connect_to_ibus_activated w m :
  inited (ibus m) = true -> glfw_connect_to_ibus w m = Some (tt, m).
Proof.
  intros Hi. unfold glfw_connect_to_ibus.
  rewrite (bind_run _ (load_run inited m)), Hi. reflexivity.
Qed.

Lemma desktop_focus_session :
  exists m1 m2,
    glfw_connect_to_ibus desktop initial = Some (tt, m1) /\
    calls [(desktop, SetFocused true); (world_of [] [], Terminate)] m1 = Some (tt, m2).
Proof.
  assert (H : exists m2,
            (glfw_connect_to_ibus desktop ;;
             calls [(desktop, SetFocused true); (world_of [] [], Terminate)]) initial =
            Some (tt, m2)) by (eexists; vm_compute; reflexivity).
  destruct H as (m2 & H). apply bind_inv in H as ([] & m1 & H1 & H2).
  exists m1, m2. split; assumption.
Qed.

(** X4: the connection attempt of the gate is made once.  After a call of
    [glfw_connect_to_ibus] that found a selector variable, the session stays
    activated through every later call of the file, and every later
    [glfw_connect_to_ibus] returns at once, whatever the environment is then
    and whether or not the first attempt connected. *)
Theorem gate_attempts_once w l m m1 m2 :
  should_activate w = true ->
  glfw_connect_to_ibus w m = Some (tt, m1) ->
  calls l m1 = Some (tt, m2) ->
  inited (ibus m1) = true /\ inited (ibus m2) = true /\
  forall w', glfw_connect_to_ibus w' m2 = Some (tt, m2).
Proof.
  intros Hs H1 H2.
  assert (Hi1 : inited (ibus m1) = true).
  { rewrite (glfw_connect_to_ibus_inited _ _ H1), Hs. apply orb_true_r. }
  assert (Hi2 : inited (ibus m2) = true) by (eapply calls_inited; eassumption).
  split; [exact Hi1|]. split; [exact Hi2|].
  intros w'. apply glfw_connect_to_ibus_activated. exact Hi2.
Qed.

Lemma gate_attempts_once_witness :
  exists m1 m2,
    glfw_connect_to_ibus desktop initial = Some (tt, m1) /\
    calls [(desktop, SetFocused true); (world_of [] [], Terminate)] m1 = Some (tt, m2) /\
    inited (ibus m2) = true /\
    glfw_connect_to_ibus desktop m2 = Some (tt, m2).
Proof.
  destruct desktop_focus_session as (m1 & m2 & H1 & H2). exists m1, m2.
  split; [exact H1|]. split; [exact H2|].
  destruct (@gate_attempts_once desktop _ initial m1 m2 eq_refl H1 H2) as (_ & Hi & Hg).
  split; [exact Hi | exact (Hg desktop)].
Defined.

(* ================================================================== *)
(** ** Sessions that are down, sessions that are idle *)

Lemma grows_logs P evs m : Forall P evs -> grows P m (logs evs m).
Proof. intros H. exists evs. split; [reflexivity | exact H]. Qed.

Lemma call_down w c m :
  down m -> host_call c ->
  exists m', call w c m = Some (tt, m') /\
             ibus m' = ibus m /\ heap m' = heap m /\ grows no_bus m m'.
Proof.
  intros (Hi & Hc & Hp & Ha & Hn & Ho) Hh.
  destruct m as [[o i t c0 p n a] h b an tr]. simpl in *. subst.
  destruct c; simpl in *; try contradiction; eexists.
  - split; [reflexivity|]. repeat split. apply grows_refl.
  - split; [reflexivity|]. repeat split. apply grows_refl.
  - split; [reflexivity|]. repeat split. apply grows_refl.
  - split; [reflexivity|]. repeat split.
    exists [EStat None; EFopen None;
            EInputError "Failed to open IBUS address file: %s with error: %s"].
    split; [simpl; rewrite <- !app_assoc; reflexivity|].
    repeat constructor; unfold no_bus; simpl; tauto.
Qed.

Lemma calls_down l m :
  down m -> Forall (fun wc : World * Call => host_call (snd wc)) l ->
  exists m', calls l m = Some (tt, m') /\
             ibus m' = ibus m /\ heap m' = heap m /\ grows no_bus m m'.
Proof.
  revert m. induction l as [|[w c] l IH]; intros m Hd Hl.
  - exists m. split; [reflexivity|]. repeat split. apply grows_refl.
  - inversion Hl as [|? ? Hc Hl']. subst. simpl in Hc.
    destruct (@call_down w c m Hd Hc) as (m1 & H1 & Hi1 & Hh1 & Hg1).
    assert (Hd1 : down m1) by (unfold down in *; rewrite Hi1; exact Hd).
    destruct (IH m1 Hd1 Hl') as (m' & H' & Hi' & Hh' & Hg').
    exists m'. split; [simpl; rewrite (bind_run _ H1); exact H'|].
    split; [congruence|]. split; [congruence|].
    eapply grows_trans; eassumption.
Qed.

(** X5: termination is final for an activated session.  After
    [glfw_ibus_terminate], whatever the host calls next
    ([glfw_connect_to_ibus], [glfw_ibus_set_focused], [glfw_ibus_dispatch],
    [glfw_ibus_terminate], in any order and in any world) returns and leaves
    the session as it is: the connection handle stays NULL, nothing is
    allocated, and no call reaches the bus; the gate returns at once and the
    staleness check cannot get past its NULL file name. *)
Theorem terminate_is_final m l :
  owned m -> inited (ibus m) = true ->
  Forall (fun wc : World * Call => host_call (snd wc)) l ->
  exists m',
    (glfw_ibus_terminate ;; calls l) m = Some (tt, m') /\
    ibus m' = ibus (terminated m) /\
    conn (ibus m') = None /\
    heap m' = heap (terminated m) /\
    grows no_bus (terminated m) m'.
Proof.
  intros Ho Hi Hl.
  assert (Hd : down (terminated m)) by (unfold down; simpl; repeat split; auto).
  destruct (@calls_down l _ Hd Hl) as (m' & H' & Hi' & Hh' & Hg').
  exists m'. split; [rewrite (bind_run _ (terminate_owned Ho)); exact H'|].
  split; [exact Hi'|]. split; [rewrite Hi'; reflexivity|].
  split; [exact Hh' | exact Hg'].
Qed.

Lemma terminate_is_final_witness :
  exists m',
    (glfw_ibus_terminate ;;
     calls [(desktop, ConnectToIbus); (desktop, SetFocused true); (desktop, Dispatch)])
      connected = Some (tt, m') /\
    conn (ibus m') = None.
Proof.
  destruct (@terminate_is_final connected
              [(desktop, ConnectToIbus); (desktop, SetFocused true); (desktop, Dispatch)]
              connected_owned eq_refl)
    as (m' & H & _ & Hc & _).
  - repeat constructor.
  - exists m'. split; [exact H | exact Hc].
Defined.

Lemma call_idle w c m :
  idle m -> should_activate w = false -> host_call c ->
  exists m', call w c m = Some (tt, m') /\
             ibus m' = ibus m /\ heap m' = heap m /\ grows getenv_event m m'.
Proof.
  intros (Hi & Hc & Hp & Ha & Hn & Ho) Hs Hh.
  destruct c; simpl in *; try contradiction.
  - exists (logs [EGetenv "XMODIFIERS"; EGetenv "GTK_IM_MODULE"; EGetenv "QT_IM_MODULE"] m).
    split; [|repeat split; apply grows_logs; repeat constructor].
    unfold glfw_connect_to_ibus.
    rewrite (bind_run _ (load_run inited m)), Hi.
    unfold should_activate in Hs.
    apply orb_false_iff in Hs as [Hs H3]. apply orb_false_iff in Hs as [H1 H2].
    rewrite (bind_run _ (has_env_var_run w _ _ m)), H1.
    rewrite (bind_run _ (has_env_var_run w _ _ _)), H2.
    rewrite (bind_run _ (has_env_var_run w _ _ _)), H3.
    rewrite (log_as_logs (EGetenv "XMODIFIERS") m), !log_logs. reflexivity.
  - destruct m as [[o i t c0 p n a] h b an tr]. simpl in *. subst.
    eexists. split; [reflexivity|]. repeat split. apply grows_refl.
  - destruct m as [[o i t c0 p n a] h b an tr]. simpl in *. subst.
    eexists. split; [reflexivity|]. repeat split. apply grows_refl.
  - destruct m as [[o i t c0 p n a] h b an tr]. simpl in *. subst.
    eexists. split; [reflexivity|]. repeat split. apply grows_refl.
Qed.

(** X6: without a selector variable the file is inert.  As long as no
    environment the host calls in selects ibus, every sequence of host calls
    from a session that was never activated returns with the structure and
    the heap as they were, and the only calls that leave the file are the
    [getenv]s of the gate: no file is opened, the bus is never reached and
    no error is reported. *)
Theorem inert_without_selector m l :
  idle m ->
  Forall (fun wc : World * Call => should_activate (fst wc) = false /\ host_call (snd wc)) l ->
  exists m',
    calls l m = Some (tt, m') /\
    ibus m' = ibus m /\ heap m' = heap m /\ grows getenv_event m m'.
Proof.
  revert m. induction l as [|[w c] l IH]; intros m Hd Hl.
  - exists m. split; [reflexivity|]. repeat split. apply grows_refl.
  - inversion Hl as [|? ? [Hs Hc] Hl']. subst. simpl in Hs, Hc.
    destruct (@call_idle w c m Hd Hs Hc) as (m1 & H1 & Hi1 & Hh1 & Hg1).
    assert (Hd1 : idle m1) by (unfold idle in *; rewrite Hi1; exact Hd).
    destruct (IH m1 Hd1 Hl') as (m' & H' & Hi' & Hh' & Hg').
    exists m'. split; [simpl; rewrite (bind_run _ H1); exact H'|].
    split; [congruence|]. split; [congruence|].
    eapply grows_trans; eassumption.
Qed.

Lemma inert_without_selector_witness :
  exists m',
    calls [(world_of [("DISPLAY", ":0")]%string [], ConnectToIbus);
           (world_of [] [], SetFocused true);
           (world_of [] [], Terminate)] initial = Some (tt, m') /\
    ibus m' = ibus initial /\ heap m' = heap initial /\ grows getenv_event initial m'.
Proof.
  apply inert_without_selector.
  - unfold idle. simpl. repeat split.
  - repeat constructor.
Defined.

(* ================================================================== *)
(** ** The address file name: every path of the resolver *)

Lemma until_nul_in l : In NUL l -> exists s, until_nul l = Some s /\ length s < length l.
Proof.
  induction l as [|x l IH]; [intros []|].
  intros H. simpl. destruct (Ascii.eqb x NUL) eqn:E.
  - exists []. split; [reflexivity | simpl; lia].
  - destruct H as [H|H]; [subst x; rewrite Ascii.eqb_refl in E; discriminate|].
    destruct (IH H) as (s & Hs & Hl). rewrite Hs. exists (x :: s).
    split; [reflexivity | simpl; lia].
Qed.

Lemma strrchr_lt s ch i : strrchr s ch = Some i -> i < length s.
Proof.
  revert i. induction s as [|x s IH]; simpl; [discriminate|].
  intros i. destruct (strrchr s ch) as [j|].
  - intros H. inversion H. subst. specialize (IH j eq_refl). lia.
  - destruct (Ascii.eqb x ch); [|discriminate]. intros H. inversion H. lia.
Qed.

Lemma poke_length buf i ch : i < length buf -> length (poke buf i ch) = length buf.
Proof.
  intros H. unfold poke. rewrite length_app, length_firstn. cbn [length].
  rewrite length_skipn. lia.
Qed.

Lemma poke_inside d i ch x :
  i < length d -> poke (d ++ [x]) i ch = poke d i ch ++ [x].
Proof.
  intros H. unfold poke.
  rewrite firstn_app, skipn_app.
  replace (i - length d) with 0 by lia.
  replace (S i - length d) with 0 by lia.
  cbn [firstn skipn]. rewrite app_nil_r, <- app_assoc. reflexivity.
Qed.

Lemma c_str_terminated d k :
  k <= length d -> exists s, c_str (d ++ [NUL]) k = Some s /\ k + length s <= length d.
Proof.
  intros H. unfold c_str. rewrite skipn_app.
  replace (k - length d) with 0 by lia. cbn [skipn].
  destruct (@until_nul_in (skipn k d ++ [NUL])) as (s & Hs & Hl).
  { apply in_or_app. right. left. reflexivity. }
  exists s. split; [exact Hs|].
  rewrite length_app, length_skipn in Hl. simpl in Hl. lia.
Qed.

(** The two segments are always there when the string has a colon. *)
Lemma display_segments_defined de i :
  strrchr de ":" = Some i ->
  exists host disp, display_segments de = Some (host, disp).
Proof.
  intros Hi. unfold display_segments. rewrite Hi. cbv zeta.
  pose proof (@strrchr_lt _ _ _ Hi) as Hlt.
  rewrite (@poke_inside de i NUL NUL Hlt).
  assert (Hd : exists d, length d = length de /\
            match strrchr de "." with
            | Some j => poke (poke de i NUL ++ [NUL]) j NUL
            | None => poke de i NUL ++ [NUL]
            end = d ++ [NUL]).
  { destruct (strrchr de ".") as [j|] eqn:Ej.
    - pose proof (@strrchr_lt _ _ _ Ej) as Hj.
      exists (poke (poke de i NUL) j NUL). split.
      + rewrite !poke_length; [reflexivity | exact Hlt | rewrite poke_length; assumption].
      + apply poke_inside. rewrite poke_length; assumption.
    - exists (poke de i NUL). split; [apply poke_length; exact Hlt | reflexivity]. }
  destruct Hd as (d & Hlen & ->).
  destruct (@c_str_terminated d 0) as (h & -> & _); [lia|].
  destruct (@c_str_terminated d (S i)) as (n & -> & _); [lia|].
  eexists. eexists. reflexivity.
Qed.

(** The resolver without an override, path by path. *)
Lemma resolver_paths w m :
  nonempty (w_getenv w "IBUS_ADDRESS") = None ->
  get_ibus_address_file_name w m =
  match display_segments (display_of w) with
  | None =>
      Some (false,
            logs [EGetenv "IBUS_ADDRESS"; EGetenv "DISPLAY";
                  EInputError "Could not get IBUS address file name as DISPLAY env var has no colon"]
                 m)
  | Some (host, disp) =>
      match config_home w with
      | None =>
          Some (false,
                logs [EGetenv "IBUS_ADDRESS"; EGetenv "DISPLAY"; EGetenv "XDG_CONFIG_HOME";
                      EGetenv "HOME";
                      EInputError "Could not get IBUS address file name as no HOME env var is set"]
                     (with_ans (repeat NUL PATH_MAX) m))
      | Some conf =>
          if PATH_MAX <? length conf then None
          else
            Some (true,
                  logs (derive_events w)
                    (with_ans
                       (snprintf (snprintf (repeat NUL PATH_MAX) 0 (PATH_MAX - 0) conf)
                          (length conf) (PATH_MAX - length conf)
                          (cs "/ibus/bus/" ++ w_machine_id w ++ cs "-" ++ host ++
                           cs "-" ++ disp))
                       m))
      end
  end.
Proof.
  intros Hov.
  unfold get_ibus_address_file_name, getenv, dbus_get_local_machine_id, snprintf_ans,
    _glfwInputError.
  cbv beta iota zeta delta [bind emit ret get_ans set_ans read_str].
  rewrite Hov. fold (display_of w).
  destruct (strrchr (display_of w) ":") as [i|] eqn:Ei.
  - destruct (@display_segments_defined _ _ Ei) as (host & disp & Hseg).
    rewrite Hseg. unfold display_segments in Hseg. rewrite Ei in Hseg. cbv zeta in Hseg.
    match type of Hseg with
    | match c_str ?d 0 with _ => _ end = _ =>
        destruct (c_str d 0) as [h|] eqn:Eh; [|discriminate];
        destruct (c_str d (S i)) as [dn|] eqn:Ed; [|discriminate]
    end.
    inversion Hseg; subst host disp; clear Hseg.
    unfold config_home, derive_events.
    replace (PATH_MAX <? 0) with false by reflexivity.
    destruct (nonempty (w_getenv w "XDG_CONFIG_HOME")) as [c|];
      [|destruct (nonempty (w_getenv w "HOME")) as [hm|]];
      cbv beta iota;
      try match goal with
          | |- context [PATH_MAX <? ?n] => destruct (PATH_MAX <? n); [reflexivity|]
          end;
      unfold logs, log, with_ans; cbn [ibus heap brk ans trace];
      rewrite <- ?app_assoc; reflexivity.
  - unfold display_segments. rewrite Ei.
    unfold logs, log; cbn [ibus heap brk ans trace]. rewrite <- ?app_assoc. reflexivity.
Qed.

(** X7: a DISPLAY without a colon.  With the override unset, the resolver
    reports the error and returns NULL after two [getenv]s;
    [setup_connection] then clears [ok] and returns false.  Nothing else
    happens: no file is opened, the machine id is not asked for, the bus is
    not reached, and the strings and the static array stay as they were. *)
Theorem display_without_colon w m :
  nonempty (w_getenv w "IBUS_ADDRESS") = None ->
  strrchr (display_of w) ":" = None ->
  get_ibus_address_file_name w m =
    Some (false,
          logs [EGetenv "IBUS_ADDRESS"; EGetenv "DISPLAY";
                EInputError "Could not get IBUS address file name as DISPLAY env var has no colon"]
               m) /\
  setup_connection w m =
    Some (false,
          with_ibus (set_ok false)
            (logs [EGetenv "IBUS_ADDRESS"; EGetenv "DISPLAY";
                   EInputError "Could not get IBUS address file name as DISPLAY env var has no colon"]
                  m)).
Proof.
  intros Hov Hd.
  assert (Hr := resolver_paths w m Hov).
  unfold display_segments in Hr. rewrite Hd in Hr.
  split; [exact Hr|].
  unfold setup_connection. cbv zeta. rewrite (bind_run _ Hr). reflexivity.
Qed.

Lemma display_without_colon_witness :
  setup_connection colonless initial =
    Some (false,
          with_ibus (set_ok false)
            (logs [EGetenv "IBUS_ADDRESS"; EGetenv "DISPLAY";
                   EInputError "Could not get IBUS address file name as DISPLAY env var has no colon"]
                  initial)).
Proof.
  exact (proj2 (@display_without_colon colonless initial eq_refl eq_refl)).
Defined.

(** X8: no configuration directory.  With the override unset and a DISPLAY
    that has a colon, but neither XDG_CONFIG_HOME nor HOME set to a
    non-empty string, the resolver reports the error and returns NULL; the
    static array has been cleared by then.  [setup_connection] returns false
    with [ok] cleared; the machine id is not asked for, no file is opened and
    the bus is not reached. *)
Theorem no_config_home w m i :
  nonempty (w_getenv w "IBUS_ADDRESS") = None ->
  strrchr (display_of w) ":" = Some i ->
  config_home w = None ->
  get_ibus_address_file_name w m =
    Some (false,
          logs [EGetenv "IBUS_ADDRESS"; EGetenv "DISPLAY"; EGetenv "XDG_CONFIG_HOME";
                EGetenv "HOME";
                EInputError "Could not get IBUS address file name as no HOME env var is set"]
               (with_ans (repeat NUL PATH_MAX) m)) /\
  setup_connection w m =
    Some (false,
          with_ibus (set_ok false)
            (logs [EGetenv "IBUS_ADDRESS"; EGetenv "DISPLAY"; EGetenv "XDG_CONFIG_HOME";
                   EGetenv "HOME";
                   EInputError "Could not get IBUS address file name as no HOME env var is set"]
                  (with_ans (repeat NUL PATH_MAX) m))).
Proof.
  intros Hov Hd Hc.
  assert (Hr := resolver_paths w m Hov).
  destruct (@display_segments_defined _ _ Hd) as (host & disp & Hseg).
  rewrite Hseg, Hc in Hr.
  split; [exact Hr|].
  unfold setup_connection. cbv zeta. rewrite (bind_run _ Hr). reflexivity.
Qed.

Lemma no_config_home_witness :
  setup_connection homeless initial =
    Some (false,
          with_ibus (set_ok false)
            (logs [EGetenv "IBUS_ADDRESS"; EGetenv "DISPLAY"; EGetenv "XDG_CONFIG_HOME";
                   EGetenv "HOME";
                   EInputError "Could not get IBUS address file name as no HOME env var is set"]
                  (with_ans (repeat NUL PATH_MAX) initial))).
Proof.
  exact (proj2 (@no_config_home homeless initial 0 eq_refl eq_refl eq_refl)).
Defined.

(** X9: a configuration directory longer than the array.  With the
    override unset and a DISPLAY that has a colon, a configuration directory
    (XDG_CONFIG_HOME, or HOME with "/.config") of more than PATH_MAX
    characters makes the second [snprintf] write at [ans + offset] with
    [offset] past the end of the array: the resolver, and [setup_connection]
    with it, has no defined behaviour. *)
Theorem config_home_overruns w m i conf :
  nonempty (w_getenv w "IBUS_ADDRESS") = None ->
  strrchr (display_of w) ":" = Some i ->
  config_home w = Some conf ->
  PATH_MAX < length conf ->
  get_ibus_address_file_name w m = None /\ setup_connection w m = None.
Proof.
  intros Hov Hd Hc Hlen.
  assert (Hr := resolver_paths w m Hov).
  destruct (@display_segments_defined _ _ Hd) as (host & disp & Hseg).
  rewrite Hseg, Hc in Hr.
  apply Nat.ltb_lt in Hlen. rewrite Hlen in Hr.
  split; [exact Hr|].
  unfold setup_connection. cbv zeta. unfold bind at 1. rewrite Hr. reflexivity.
Qed.

Lemma config_home_overruns_witness :
  get_ibus_address_file_name overlong_config_home initial = None /\
  setup_connection overlong_config_home initial = None.
Proof.
  apply (@config_home_overruns overlong_config_home initial 0 (repeat "x"%char (S PATH_MAX)));
    try reflexivity.
  apply Nat.ltb_lt. vm_compute. reflexivity.
Defined.

Lemma firstn_no (ch : ascii) n l : ~ In ch l -> ~ In ch (firstn n l).
Proof.
  revert n. induction l as [|x l IH]; intros n H.
  - rewrite firstn_nil. exact H.
  - destruct n as [|n]; simpl; [tauto|].
    intros [E|E]; [apply H; left; exact E|].
    apply (IH n); [intros Hin; apply H; right; exact Hin | exact E].
Qed.

(** Two [snprintf] calls into the cleared array, the second behind the
    first: what the array holds as a string is the whole output cut to
    [N - 1] characters. *)
Lemma snprintf_twice_cut N (conf text : cstring) :
  0 < N -> length conf <= N -> ~ In NUL (conf ++ text) ->
  c_str (snprintf (snprintf (repeat NUL N) 0 (N - 0) conf)
                  (length conf) (N - length conf) text) 0 =
  Some (firstn (N - 1) (conf ++ text)).
Proof.
  intros HN Hconf Hnul.
  destruct (Nat.lt_ge_cases (length conf + length text) N) as [Hfit|Hbig].
  - rewrite snprintf_twice by assumption.
    rewrite firstn_all2; [reflexivity | rewrite length_app; lia].
  - assert (Hn1 : ~ In NUL (firstn (N - 1) (conf ++ text))) by (apply firstn_no; exact Hnul).
    destruct (Nat.eq_dec (length conf) N) as [Heq|Hne].
    + rewrite Heq, Nat.sub_diag, Nat.sub_0_r.
      destruct N as [|k]; [lia|].
      cbn [snprintf]. cbn [firstn app Nat.add].
      replace (S k - 1) with k in * by lia.
      rewrite firstn_app in Hn1 |- *.
      replace (k - length conf) with 0 in * by lia.
      cbn [firstn] in Hn1 |- *. rewrite app_nil_r in Hn1 |- *.
      rewrite <- app_assoc. apply c_str_start. exact Hn1.
    + rewrite (@snprintf_fits _ 0) by lia. cbn [firstn app].
      remember (N - length conf) as size eqn:Es.
      destruct size as [|k]; [lia|].
      cbn [snprintf].
      rewrite firstn_app, Nat.sub_diag, firstn_all. cbn [firstn]. rewrite app_nil_r.
      replace (firstn (N - 1) (conf ++ text)) with (conf ++ firstn k text) in *.
      * rewrite <- !app_assoc. cbn [app].
        replace (conf ++ firstn k text ++ NUL :: _) with
            ((conf ++ firstn k text) ++ NUL ::
             skipn (length conf + length (firstn k text ++ [NUL]))
               (conf ++ NUL :: skipn (0 + (length conf + 1)) (repeat NUL N)))
          by (rewrite <- app_assoc; reflexivity).
        apply c_str_start. exact Hn1.
      * rewrite firstn_app. replace (N - 1 - length conf) with k by lia.
        rewrite (firstn_all2 conf) by lia. reflexivity.
Qed.

(** X10: the derived name is cut to the array.  With the override unset, a
    DISPLAY that has a colon and a configuration directory of at most
    PATH_MAX characters, the resolver returns the array, which holds as a C
    string the name <config-home>/ibus/bus/<machine-id>-<host>-<display>
    cut to its first PATH_MAX - 1 characters: a name that does not fit is
    shortened without an error, and the string always ends inside the array. *)
Theorem derived_name_cut_to_array w m host disp conf :
  nonempty (w_getenv w "IBUS_ADDRESS") = None ->
  display_segments (display_of w) = Some (host, disp) ->
  config_home w = Some conf ->
  length conf <= PATH_MAX ->
  let name := conf ++ cs "/ibus/bus/" ++ w_machine_id w ++ cs "-" ++ host ++ cs "-" ++ disp in
  ~ In NUL name ->
  exists m',
    get_ibus_address_file_name w m = Some (true, m') /\
    c_str (ans m') 0 = Some (firstn (PATH_MAX - 1) name) /\
    trace m' = trace m ++ derive_events w /\
    ibus m' = ibus m /\ heap m' = heap m.
Proof.
  intros Hov Hseg Hc Hlen name Hnul.
  assert (Hr := resolver_paths w m Hov).
  rewrite Hseg, Hc in Hr.
  replace (PATH_MAX <? length conf) with false in Hr
    by (symmetry; apply Nat.ltb_ge; exact Hlen).
  eexists. split; [exact Hr|]. machine_simpl.
  split; [|repeat split].
  apply snprintf_twice_cut; [unfold PATH_MAX; lia | exact Hlen | exact Hnul].
Qed.

Lemma derived_name_cut_to_array_witness :
  exists m',
    get_ibus_address_file_name deep_config_home initial = Some (true, m') /\
    c_str (ans m') 0 =
      Some (firstn (PATH_MAX - 1)
              (repeat "x"%char PATH_MAX ++ cs "/ibus/bus/" ++ cs "mid" ++ cs "-" ++
               cs "unix" ++ cs "-" ++ cs "1")).
Proof.
  destruct (@derived_name_cut_to_array deep_config_home initial (cs "unix") (cs "1")
              (repeat "x"%char PATH_MAX) eq_refl eq_refl eq_refl)
    as (m' & H & Hs & _).
  - apply Nat.leb_le. vm_compute. reflexivity.
  - intros Hin. apply in_app_or in Hin as [Hin|Hin].
    + apply repeat_spec in Hin. discriminate.
    + simpl in Hin. intuition discriminate.
  - exists m'. split; [exact H | exact Hs].
Defined.

(* ================================================================== *)
(** ** The address file name: the bounds of the override copy *)

(** [MIN] as the file uses it: through its [GLFWbool] return type the
    minimum with [sizeof(ans)] still comes out right. *)
Lemma MIN_PATH_MAX n :
  Z.to_nat (size_t_of (MIN (Z.of_nat n) (Z.of_nat PATH_MAX))) = Nat.min n PATH_MAX.
Proof.
  unfold MIN, int_of, size_t_of, PATH_MAX.
  destruct (Z.ltb_spec (Z.of_nat n) (Z.of_nat 4096)) as [H|H].
  - rewrite Nat.min_l by lia.
    rewrite (Z.mod_small (Z.of_nat n + 2 ^ 31)) by lia.
    rewrite Z.mod_small by lia. lia.
  - rewrite Nat.min_r by lia.
    rewrite (Z.mod_small (Z.of_nat 4096 + 2 ^ 31)) by lia.
    rewrite Z.mod_small by lia. lia.
Qed.

Lemma override_run w m addr :
  nonempty (w_getenv w "IBUS_ADDRESS") = Some addr ->
  length (ans m) = PATH_MAX ->
  get_ibus_address_file_name w m =
    Some (true,
          with_ans (firstn PATH_MAX addr ++ skipn (length addr) (ans m))
                   (log (EGetenv "IBUS_ADDRESS") m)).
Proof.
  intros Hov Hans.
  unfold get_ibus_address_file_name, getenv.
  cbv beta iota zeta delta [bind emit ret get_ans set_ans].
  rewrite Hov. rewrite MIN_PATH_MAX. cbn [ans log].
  unfold memcpy. rewrite Hans.
  replace (Nat.min (length addr) PATH_MAX <=? PATH_MAX) with true
    by (symmetry; apply Nat.leb_le; apply Nat.le_min_r).
  replace (Nat.min (length addr) PATH_MAX <=? S (length addr)) with true
    by (symmetry; apply Nat.leb_le; etransitivity; [apply Nat.le_min_l | apply Nat.le_succ_diag_r]).
  cbn [andb].
  destruct (Nat.le_gt_cases (length addr) PATH_MAX) as [Hle|Hgt].
  - rewrite Nat.min_l by exact Hle.
    rewrite firstn_app, Nat.sub_diag, firstn_all. cbn [firstn]. rewrite app_nil_r.
    rewrite (firstn_all2 addr) by exact Hle. reflexivity.
  - rewrite Nat.min_r by (apply Nat.lt_le_incl; exact Hgt).
    rewrite firstn_app.
    replace (PATH_MAX - length addr) with 0
      by (symmetry; apply Nat.sub_0_le, Nat.lt_le_incl; exact Hgt).
    cbn [firstn]. rewrite app_nil_r.
    rewrite (skipn_all2 (ans m)) by (rewrite Hans; apply Nat.le_refl).
    rewrite (skipn_all2 (ans m)) by (rewrite Hans; apply Nat.lt_le_incl; exact Hgt).
    reflexivity.
Qed.

(** X11: the override copy stays inside the array.  With IBUS_ADDRESS set
    and non-empty the resolver reads no other variable and copies the first
    min(strlen, PATH_MAX) characters of the value over the start of the
    array; the bytes behind them are left as they were and no NUL is
    written.  So the call itself never writes outside the array, whatever
    the length of the value. *)
Theorem override_copy_bounded w m addr :
  nonempty (w_getenv w "IBUS_ADDRESS") = Some addr ->
  length (ans m) = PATH_MAX ->
  get_ibus_address_file_name w m =
    Some (true,
          with_ans (firstn PATH_MAX addr ++ skipn (length addr) (ans m))
                   (log (EGetenv "IBUS_ADDRESS") m)) /\
  length (firstn PATH_MAX addr ++ skipn (length addr) (ans m)) = PATH_MAX.
Proof.
  intros Hov Hans. split.
  - apply override_run; assumption.
  - rewrite length_app, length_firstn, length_skipn, Hans.
    destruct (Nat.le_gt_cases (length addr) PATH_MAX) as [Hle|Hgt].
    + rewrite Nat.min_r by exact Hle.
      rewrite Nat.add_comm. apply Nat.sub_add. exact Hle.
    + rewrite Nat.min_l by (apply Nat.lt_le_incl; exact Hgt).
      replace (PATH_MAX - length addr) with 0
        by (symmetry; apply Nat.sub_0_le, Nat.lt_le_incl; exact Hgt).
      apply Nat.add_0_r.
Qed.

Lemma override_copy_bounded_witness :
  get_ibus_address_file_name too_long initial =
    Some (true,
          with_ans (firstn PATH_MAX (repeat "a"%char PATH_MAX) ++
                    skipn (length (repeat "a"%char PATH_MAX)) (ans initial))
                   (log (EGetenv "IBUS_ADDRESS") initial)).
Proof.
  refine (proj1 (@override_copy_bounded too_long initial (repeat "a"%char PATH_MAX) _ _)).
  - reflexivity.
  - apply repeat_length.
Defined.

(* ================================================================== *)
(** ** The address file is closed *)

(** X12: [read_ibus_address] opens the file once and closes it exactly when
    the open succeeded, before anything is reported; a failure (open, fstat,
    no address line) is reported once, a success not at all.  No exit path
    leaves the file open. *)
Theorem address_file_closed w m r m' :
  read_ibus_address w m = Some (r, m') ->
  exists report,
    trace m' =
      trace m ++
      EFopen (file_name_of m) ::
      match opened w m with Some _ => [EFclose] | None => [] end ++ report /\
    (r = true -> report = []) /\
    (r = false -> exists fmt, report = [EInputError fmt]).
Proof.
  intros H. unfold read_ibus_address in H. unfold_calls_in H.
  unfold opened, file_name_of.
  run_in H; machine_simpl_all.
  all: rewrite <- ?app_assoc; cbn [app].
  all: first [ exists (@nil Event); split; [reflexivity|]; split; [reflexivity|]; discriminate
             | eexists; split; [reflexivity|]; split; [discriminate|];
               intros _; eexists; reflexivity ].
Qed.

Lemma mtime_reads :
  exists m', read_ibus_address restarting connected = Some (false, m').
Proof. eexists. vm_compute. reflexivity. Qed.

Lemma address_file_closed_witness :
  exists m' report,
    read_ibus_address restarting connected = Some (false, m') /\
    trace m' =
      trace connected ++
      EFopen (file_name_of connected) ::
      match opened restarting connected with Some _ => [EFclose] | None => [] end ++ report.
Proof.
  destruct mtime_reads as (m' & H).
  destruct (address_file_closed _ _ H) as (report & Ht & _).
  exists m', report. split; [exact H | exact Ht].
Defined.

(* ================================================================== *)
(** ** An address line longer than the line buffer *)

Lemma fgets_take_full l rest :
  ~ In LF l -> fgets_take (length l) (l ++ rest) = (l, rest).
Proof.
  induction l as [|ch l IH]; intros Hn; cbn [length app].
  - reflexivity.
  - cbn [fgets_take].
    destruct (Ascii.eqb_spec ch LF) as [->|Hne]; [exfalso; apply Hn; left; reflexivity|].
    rewrite IH; [reflexivity | intros Hin; apply Hn; right; exact Hin].
Qed.

Lemma scan_address_long fuel v rest :
  plain v -> length address_key + length v = 1023 ->
  exists buf,
    scan_address fuel (address_key ++ v ++ rest) = Some buf /\
    c_str buf (length address_key) = Some v.
Proof.
  intros (Hn & Hl & Hc) Hlen.
  destruct key_plain as (Kn & Kl & Kc).
  exists ((address_key ++ v) ++ [NUL]). split.
  - assert (Hf : fgets 1024 (address_key ++ v ++ rest) =
                 Some ((address_key ++ v) ++ [NUL], rest)).
    { unfold fgets. replace (1024 - 1) with (length (address_key ++ v))
        by (rewrite length_app; exact Hlen).
      rewrite app_assoc. rewrite fgets_take_full by (apply not_in_app; assumption).
      destruct ((address_key ++ v) ++ rest) eqn:E; [discriminate E | reflexivity]. }
    destruct fuel; cbn [scan_address]; rewrite Hf;
      rewrite <- !app_assoc; rewrite key_matches;
      rewrite app_assoc, strip_none; auto using not_in_app;
      rewrite length_app; simpl; lia.
  - rewrite <- app_assoc. rewrite c_str_app. apply until_nul_app. exact Hn.
Qed.

(** X13: an address line longer than the line buffer.  [fgets] reads 1023
    characters at a time, so when the 1010 characters that follow
    "IBUS_ADDRESS=" hold no line end, the address stored is exactly these
    1010 characters: whatever the line holds behind them is not part of
    the address, and nothing is reported. *)
Theorem address_line_cut_to_buffer w m f t lines v rest :
  live (heap m) (address_file_name (ibus m)) -> live (heap m) (address (ibus m)) ->
  opened w m = Some f -> f_mtime f = Some t ->
  f_contents f = lf_lines lines ++ address_key ++ v ++ rest ->
  Forall other_line lines -> plain v -> length v = 1010 ->
  exists m',
    read_ibus_address w m = Some (true, m') /\
    address (ibus m') = Some (brk m) /\
    heap_lookup (heap m') (brk m) = Some v /\
    trace m' = trace m ++ [EFopen (file_name_of m); EFclose].
Proof.
  intros Hname Haddr Hopen Ht Hc Hlines Hv Hlen.
  assert (Hfuel : length lines <= length (f_contents f)).
  { rewrite Hc, length_app. pose proof (lf_lines_length lines). lia. }
  destruct (@scan_address_long (length (f_contents f) - length lines) v rest Hv)
    as (buf & Hscan & Hstr).
  { rewrite Hlen. reflexivity. }
  assert (Hfound : found_in f = Some buf).
  { unfold found_in. rewrite Hc at 2.
    rewrite scan_address_lines by assumption. exact Hscan. }
  eexists. split; [exact (read_ibus_address_found _ _ Hname Haddr Hopen Ht Hfound Hstr)|].
  machine_simpl. cbn [heap_lookup]. rewrite Nat.eqb_refl. repeat split.
Qed.

Lemma address_line_cut_to_buffer_witness :
  exists m',
    read_ibus_address long_line_desktop resolved = Some (true, m') /\
    address (ibus m') = Some 2 /\
    heap_lookup (heap m') 2 = Some (repeat "a"%char 1010).
Proof.
  destruct (@address_line_cut_to_buffer long_line_desktop resolved
              (mkFile (cs "IBUS_ADDRESS=" ++ repeat "a"%char 1010 ++ repeat "b"%char 977 ++ [LF])
                      (Some 9%Z))
              9%Z [] (repeat "a"%char 1010) (repeat "b"%char 977 ++ [LF]))
    as (m' & H & Ha & Hh & _).
  - simpl. discriminate.
  - exact I.
  - reflexivity.
  - reflexivity.
  - reflexivity.
  - constructor.
  - repeat split; intros Hin; apply repeat_spec in Hin; discriminate Hin.
  - apply repeat_length.
  - exists m'. split; [exact H|]. split; [exact Ha | exact Hh].
Defined.

(* ================================================================== *)
(** ** The two tests on the end of the address line *)

(** X14: what lines 134 to 136 make of a line that ends with the characters
    [x] and [y].  A final LF is cut; then a CR in the place before the last
    one is cut, whether or not an LF stood behind it.  So "...CR LF" and
    "...LF" lose their line end, a line that ends in CR alone keeps it, and a
    line without LF whose last character but one is CR loses that CR and the
    character behind it. *)
Theorem line_end_tests (P : list ascii) (x y : ascii) :
  ~ In NUL (P ++ [x; y]) ->
  until_nul (strip_line_end (P ++ [x; y; NUL])) =
  Some (if Ascii.eqb x CR then P
        else if Ascii.eqb y LF then P ++ [x]
        else P ++ [x; y]).
Proof.
  intros Hn. unfold strip_line_end.
  assert (HP : ~ In NUL P) by (intros Hin; apply Hn; apply in_or_app; left; exact Hin).
  assert (Hlen : strlen (P ++ [x; y; NUL]) = length P + 2).
  { replace (P ++ [x; y; NUL]) with ((P ++ [x; y]) ++ NUL :: [])
      by (rewrite <- app_assoc; reflexivity).
    rewrite strlen_app by exact Hn. rewrite length_app. reflexivity. }
  rewrite Hlen.
  replace (length P + 2 - 1) with (length (P ++ [x])) by (rewrite length_app; simpl; lia).
  replace (length P + 2 - 2) with (length P) by lia.
  replace (P ++ [x; y; NUL]) with ((P ++ [x]) ++ y :: [NUL])
    by (rewrite <- app_assoc; reflexivity).
  rewrite nth_middle.
  destruct (Ascii.eqb y LF) eqn:Ey.
  - rewrite poke_app. rewrite <- app_assoc. cbn [app].
    rewrite nth_middle.
    destruct (Ascii.eqb x CR) eqn:Ex.
    + rewrite poke_app. apply until_nul_app. exact HP.
    + replace (P ++ x :: NUL :: [NUL]) with ((P ++ [x]) ++ NUL :: [NUL])
        by (rewrite <- app_assoc; reflexivity).
      apply until_nul_app.
      intros Hin. apply Hn. apply in_app_or in Hin as [Hin|Hin];
        apply in_or_app; [left; exact Hin | right; simpl in *; tauto].
  - rewrite <- app_assoc. cbn [app].
    rewrite nth_middle.
    destruct (Ascii.eqb x CR) eqn:Ex.
    + rewrite poke_app. apply until_nul_app. exact HP.
    + replace (P ++ x :: y :: [NUL]) with ((P ++ [x; y]) ++ NUL :: [])
        by (rewrite <- app_assoc; reflexivity).
      apply until_nul_app. exact Hn.
Qed.

Lemma line_end_tests_witness :
  until_nul (strip_line_end (cs "IBUS_ADDRESS=unix:path=/tmp/ibus" ++ [CR; "x"%char; NUL])) =
  Some (cs "IBUS_ADDRESS=unix:path=/tmp/ibus").
Proof.
  refine (@line_end_tests (cs "IBUS_ADDRESS=unix:path=/tmp/ibus") CR "x"%char _).
  simpl. intuition discriminate.
Defined.

(* ================================================================== *)
(** ** Messages to the input context *)

Lemma check_connection_live w m c :
  inited (ibus m) = true -> conn (ibus m) = Some c -> w_is_connected w c = true ->
  check_connection w m = Some (true, log (EIsConnected c) m).
Proof.
  intros Hi Hc Hl. unfold check_connection.
  rewrite (bind_run _ (load_run inited m)), Hi. cbn [negb].
  rewrite (bind_run _ (load_run conn m)), Hc.
  unfold dbus_connection_get_is_connected.
  cbv beta iota delta [bind emit ret]. rewrite Hl. reflexivity.
Qed.

Lemma glfw_ibus_set_focused_live w m c focused :
  inited (ibus m) = true -> conn (ibus m) = Some c -> w_is_connected w c = true ->
  live (heap m) (input_ctx_path (ibus m)) ->
  glfw_ibus_set_focused w focused m =
  Some (tt,
        logs [EIsConnected c;
              ECallVoid (Some c) IBUS_SERVICE (context_path_of m) IBUS_INPUT_INTERFACE
                (if focused then "FocusIn" else "FocusOut") []] m).
Proof.
  intros Hi Hc Hl Hp. unfold glfw_ibus_set_focused, simple_message.
  rewrite (bind_run _ (check_connection_live _ _ Hi Hc Hl)).
  rewrite (bind_run _ (load_run conn _)).
  rewrite (bind_run _ (load_run input_ctx_path _)).
  rewrite (bind_run _ (@deref_run _ (log (EIsConnected c) m) Hp)).
  machine_simpl. rewrite Hc. fold (context_path_of m).
  unfold glfw_dbus_call_void_method.
  cbv beta iota delta [bind emit ret].
  rewrite (log_as_logs (EIsConnected c) m), log_logs. reflexivity.
Qed.

Lemma set_cursor_geometry_live w m c x y wd h :
  inited (ibus m) = true -> conn (ibus m) = Some c -> w_is_connected w c = true ->
  live (heap m) (input_ctx_path (ibus m)) ->
  set_cursor_geometry w x y wd h m =
  Some (tt,
        logs [EIsConnected c;
              ECallNoReply (Some c) IBUS_SERVICE (context_path_of m) IBUS_INPUT_INTERFACE
                "SetCursorLocation" [x; y; wd; h]] m).
Proof.
  intros Hi Hc Hl Hp. unfold set_cursor_geometry.
  rewrite (bind_run _ (check_connection_live _ _ Hi Hc Hl)).
  rewrite (bind_run _ (load_run conn _)).
  rewrite (bind_run _ (load_run input_ctx_path _)).
  rewrite (bind_run _ (@deref_run _ (log (EIsConnected c) m) Hp)).
  machine_simpl. rewrite Hc. fold (context_path_of m).
  unfold glfw_dbus_call_method_no_reply.
  cbv beta iota delta [bind emit ret].
  rewrite (log_as_logs (EIsConnected c) m), log_logs. reflexivity.
Qed.

(** X15: messages on a live connection.  In an activated session whose
    connection reports itself live, [glfw_ibus_set_focused] makes two calls
    and no more: the liveness test and the message "FocusIn" (for true) or
    "FocusOut" (for false) to the stored context path;
    [set_cursor_geometry] sends "SetCursorLocation" with x, y, w, h in this
    order.  No file is touched, the session is left as it is, [ok] is not
    looked at and the answer of the bus is dropped. *)
Theorem message_on_live_connection w m c :
  inited (ibus m) = true -> conn (ibus m) = Some c -> w_is_connected w c = true ->
  live (heap m) (input_ctx_path (ibus m)) ->
  (forall focused,
      glfw_ibus_set_focused w focused m =
      Some (tt,
            logs [EIsConnected c;
                  ECallVoid (Some c) IBUS_SERVICE (context_path_of m) IBUS_INPUT_INTERFACE
                    (if focused then "FocusIn" else "FocusOut") []] m)) /\
  (forall x y wd h,
      set_cursor_geometry w x y wd h m =
      Some (tt,
            logs [EIsConnected c;
                  ECallNoReply (Some c) IBUS_SERVICE (context_path_of m) IBUS_INPUT_INTERFACE
                    "SetCursorLocation" [x; y; wd; h]] m)).
Proof.
  intros Hi Hc Hl Hp. split.
  - intros focused. apply glfw_ibus_set_focused_live; assumption.
  - intros x y wd h. apply set_cursor_geometry_live; assumption.
Qed.

Lemma message_on_live_connection_witness :
  glfw_ibus_set_focused desktop true connected =
  Some (tt,
        logs [EIsConnected 7;
              ECallVoid (Some 7) IBUS_SERVICE (context_path_of connected) IBUS_INPUT_INTERFACE
                "FocusIn" []] connected).
Proof.
  refine (proj1 (@message_on_live_connection desktop connected 7 eq_refl eq_refl eq_refl _) true).
  simpl. discriminate.
Defined.

Lemma setup_connection_true w m m' :
  setup_connection w m = Some (true, m') ->
  input_ctx_path (ibus m') = None /\ exists c, conn (ibus m') = Some c.
Proof.
  intros H. unfold setup_connection in H. unfold_calls_in H.
  run_in H; machine_simpl. all: split; [reflexivity | eexists; reflexivity].
Qed.

Lemma check_connection_true w m m' :
  not_live w m -> check_connection w m = Some (true, m') ->
  input_ctx_path (ibus m') = None /\ exists c, conn (ibus m') = Some c.
Proof.
  intros Hnl H. unfold check_connection in H. unfold_calls_in H.
  unfold not_live in Hnl.
  run_in H; machine_simpl_all;
    try match goal with
        | Hs : setup_connection _ _ = Some (true, _) |- _ =>
            exact (setup_connection_true _ _ Hs)
        end.
  all: first [ discriminate Hnl
             | match goal with
               | E : conn _ = Some _ |- _ => rewrite E in Hnl; congruence
               end ].
Qed.

(** X16: the first message after a reconnect.  When the connection was not
    live and [check_connection] has reconnected, the context path is NULL
    (the reply to CreateInputContext has not come yet), and
    [glfw_ibus_set_focused] sends its message over the new connection with
    a NULL object path. *)
Theorem message_after_reconnect w m m1 focused :
  not_live w m -> check_connection w m = Some (true, m1) ->
  input_ctx_path (ibus m1) = None /\
  (exists c, conn (ibus m1) = Some c) /\
  glfw_ibus_set_focused w focused m =
  Some (tt,
        log (ECallVoid (conn (ibus m1)) IBUS_SERVICE None IBUS_INPUT_INTERFACE
               (if focused then "FocusIn" else "FocusOut") []) m1).
Proof.
  intros Hnl H. destruct (@check_connection_true w m m1 Hnl H) as (Hp & Hc).
  split; [exact Hp|]. split; [exact Hc|].
  unfold glfw_ibus_set_focused, simple_message.
  rewrite (bind_run _ H).
  rewrite (bind_run _ (load_run conn _)).
  rewrite (bind_run _ (load_run input_ctx_path _)).
  rewrite Hp. reflexivity.
Qed.

Lemma restarted_reconnects :
  exists m1, check_connection restarted connected = Some (true, m1).
Proof. eexists. vm_compute. reflexivity. Qed.

Lemma message_after_reconnect_witness :
  exists m1,
    check_connection restarted connected = Some (true, m1) /\
    glfw_ibus_set_focused restarted true connected =
    Some (tt,
          log (ECallVoid (conn (ibus m1)) IBUS_SERVICE None IBUS_INPUT_INTERFACE
                 "FocusIn" []) m1).
Proof.
  destruct restarted_reconnects as (m1 & H). exists m1. split; [exact H|].
  refine (proj2 (proj2 (@message_after_reconnect restarted connected m1 true _ H))).
  reflexivity.
Defined.

(* ================================================================== *)
(** ** The continuation on a live connection *)

Lemma ret_run A (a : A) m : ret a m = Some (a, m).
Proof. reflexivity. Qed.

Lemma strdup_run s m :
  strdup s m = Some (Some (brk m), with_heap ((brk m, s) :: heap m) (S (brk m)) m).
Proof. reflexivity. Qed.

Lemma store_run upd m : store upd m = Some (tt, with_ibus upd m).
Proof. reflexivity. Qed.

Lemma emit_run e m : emit e m = Some (tt, log e m).
Proof. reflexivity. Qed.

(** X17: the continuation of CreateInputContext on a live connection.  With
    a reply that carries an object path, a connection that reports itself
    live and a SetCapabilities call that succeeds, [input_context_created]
    frees the old context path and stores a copy of the new one, then makes
    these calls in this order, each with the new path: SetCapabilities with
    the mask 9 (FOCUS and PREEDIT_TEXT), FocusOut, SetCursorLocation 0 0 0 0;
    then it sets [ok].  It returns with [ok] true, the connection kept and
    the context path not NULL. *)
Theorem context_created_on_live_connection w m c path :
  inited (ibus m) = true -> conn (ibus m) = Some c -> w_is_connected w c = true ->
  live (heap m) (input_ctx_path (ibus m)) ->
  w_call_void_method w c (Some path) "SetCapabilities" = true ->
  exists m',
    input_context_created w (MsgObjectPath path) None m = Some (tt, m') /\
    ok (ibus m') = true /\
    conn (ibus m') = Some c /\
    input_ctx_path (ibus m') = Some (brk m) /\
    heap m' = (brk m, path) :: freed (input_ctx_path (ibus m)) (heap m) /\
    trace m' =
      trace m ++
      [ECallVoid (Some c) IBUS_SERVICE (Some path) IBUS_INPUT_INTERFACE "SetCapabilities" [9%Z];
       EIsConnected c;
       ECallVoid (Some c) IBUS_SERVICE (Some path) IBUS_INPUT_INTERFACE "FocusOut" [];
       EIsConnected c;
       ECallNoReply (Some c) IBUS_SERVICE (Some path) IBUS_INPUT_INTERFACE "SetCursorLocation"
         [0%Z; 0%Z; 0%Z; 0%Z]] ++
      debug_line w connected_message.
Proof.
  intros Hi Hc Hl Hp Hcap.
  unfold input_context_created, glfw_dbus_get_args.
  rewrite (bind_run _ (ret_run (Some path) m)).
  rewrite (bind_run _ (load_run input_ctx_path m)).
  rewrite (bind_run _ (free_live _ _ Hp)).
  rewrite (bind_run _ (strdup_run path _)).
  rewrite (bind_run _ (store_run _ _)).
  machine_simpl.
  match goal with
  | |- context [bind (load conn) _ ?x] => set (m1 := x)
  end.
  assert (Hc1 : conn (ibus m1) = Some c) by exact Hc.
  assert (Hi1 : inited (ibus m1) = true) by exact Hi.
  assert (Hctx : context_path_of m1 = Some path).
  { unfold context_path_of, m1. machine_simpl. cbn [heap_lookup]. rewrite Nat.eqb_refl.
    reflexivity. }
  assert (Hp1 : live (heap m1) (input_ctx_path (ibus m1))).
  { unfold m1. machine_simpl. cbn [live heap_lookup]. rewrite Nat.eqb_refl. discriminate. }
  rewrite (bind_run _ (load_run conn m1)), Hc1.
  rewrite (bind_run _ (load_run input_ctx_path m1)).
  rewrite (bind_run _ (deref_run _ _ Hp1)).
  assert (Hlk : heap_lookup (heap m1) (brk m) = Some path) by exact Hctx.
  rewrite Hlk.
  unfold glfw_dbus_call_void_method at 1.
  rewrite (bind_run _ (bind_run _ (emit_run _ m1))).
  rewrite Hcap. cbn [negb].
  match goal with
  | |- context [bind (glfw_ibus_set_focused w false) _ ?x] => set (m2 := x)
  end.
  assert (Hp2 : live (heap m2) (input_ctx_path (ibus m2))) by exact Hp1.
  rewrite (bind_run _ (@glfw_ibus_set_focused_live w m2 c false Hi1 Hc1 Hl Hp2)).
  match goal with
  | |- context [bind (set_cursor_geometry w _ _ _ _) _ ?x] => set (m3 := x)
  end.
  assert (Hp3 : live (heap m3) (input_ctx_path (ibus m3))) by exact Hp1.
  rewrite (bind_run _ (@set_cursor_geometry_live w m3 c 0%Z 0%Z 0%Z 0%Z Hi1 Hc1 Hl Hp3)).
  unfold debug, debug_line.
  destruct (w_debugKeyboard w);
    (eexists; split; [reflexivity|]); machine_simpl;
    (split; [reflexivity|]); (split; [exact Hc|]); (split; [reflexivity|]);
    (split; [reflexivity|]);
    subst m3 m2 m1; unfold context_path_of; machine_simpl;
    cbn [heap_lookup]; rewrite !Nat.eqb_refl; rewrite <- !app_assoc; reflexivity.
Qed.

Lemma context_created_on_live_connection_witness :
  exists m',
    input_context_created desktop (MsgObjectPath (cs "/org/freedesktop/IBus/InputContext_2"))
      None connected = Some (tt, m') /\
    ok (ibus m') = true /\
    input_ctx_path (ibus m') = Some 4.
Proof.
  destruct (@context_created_on_live_connection desktop connected 7
              (cs "/org/freedesktop/IBus/InputContext_2") eq_refl eq_refl eq_refl)
    as (m' & H & Ho & _ & Hp & _).
  - simpl. discriminate.
  - reflexivity.
  - exists m'. split; [exact H|]. split; [exact Ho | exact Hp].
Defined.

(* ================================================================== *)
(** ** The static array keeps its last NUL *)

Lemma nth_length_last (l : list ascii) : nth (length l - 1) l NUL = last l NUL.
Proof.
  induction l as [|x [|y l] IH]; [reflexivity | reflexivity|].
  replace (length (x :: y :: l) - 1) with (S (length (y :: l) - 1)) by (simpl; lia).
  exact IH.
Qed.

Lemma nth_last_written (buf data : list ascii) off :
  off + length data <= length buf ->
  nth (length buf - 1) buf NUL = NUL ->
  (off + length data = length buf -> data <> [] /\ last data NUL = NUL) ->
  length (firstn off buf ++ data ++ skipn (off + length data) buf) = length buf /\
  nth (length buf - 1) (firstn off buf ++ data ++ skipn (off + length data) buf) NUL = NUL.
Proof.
  intros Hfit Hbuf Hlast.
  assert (Hlen : length (firstn off buf ++ data ++ skipn (off + length data) buf) = length buf).
  { rewrite !length_app, length_firstn, length_skipn. lia. }
  split; [exact Hlen|].
  destruct (Nat.eq_dec (off + length data) (length buf)) as [E|E].
  - destruct (Hlast E) as [Hne Hl].
    assert (Hd : 0 < length data) by (destruct data; [congruence | simpl; lia]).
    rewrite app_nth2 by (rewrite length_firstn; lia).
    rewrite length_firstn. replace (Nat.min off (length buf)) with off by lia.
    rewrite app_nth1 by lia.
    replace (length buf - 1 - off) with (length data - 1) by lia.
    rewrite nth_length_last. exact Hl.
  - destruct (Nat.eq_dec (length buf) 0) as [Z|Z].
    + destruct buf; [|discriminate]. destruct data; [|simpl in Hfit; lia].
      rewrite firstn_nil, skipn_nil. reflexivity.
    + rewrite app_nth2 by (rewrite length_firstn; lia).
      rewrite length_firstn. replace (Nat.min off (length buf)) with off by lia.
      rewrite app_nth2 by lia.
      rewrite nth_skipn.
      replace (off + length data + (length buf - 1 - off - length data))
        with (length buf - 1) by lia.
      exact Hbuf.
Qed.

Lemma repeat_array_ok :
  length (repeat NUL PATH_MAX) = PATH_MAX /\
  nth (PATH_MAX - 1) (repeat NUL PATH_MAX) NUL = NUL.
Proof.
  split; [apply repeat_length|].
  apply nth_repeat.
Qed.

Lemma snprintf_array_ok buf off text :
  length buf = PATH_MAX -> nth (PATH_MAX - 1) buf NUL = NUL -> off <= PATH_MAX ->
  length (snprintf buf off (PATH_MAX - off) text) = PATH_MAX /\
  nth (PATH_MAX - 1) (snprintf buf off (PATH_MAX - off) text) NUL = NUL.
Proof.
  intros Hlen Hnul Hoff. unfold snprintf.
  destruct (PATH_MAX - off) as [|k] eqn:Ek; [split; assumption|].
  rewrite <- Hlen in *.
  apply nth_last_written.
  - rewrite length_app, length_firstn. cbn [length]. lia.
  - exact Hnul.
  - intros _. split; [destruct (firstn k text); discriminate | apply last_last].
Qed.

(** The resolver returns whenever the environment fits the array, and
    leaves the array with its last NUL. *)
Lemma resolver_defined w m :
  fits w -> array_ok m ->
  exists r m', get_ibus_address_file_name w m = Some (r, m') /\ array_ok m'.
Proof.
  intros Hf [Hlen Hnul]. unfold fits in Hf.
  destruct (nonempty (w_getenv w "IBUS_ADDRESS")) as [addr|] eqn:Hov.
  - rewrite (override_run _ _ Hov Hlen). eexists. eexists. split; [reflexivity|].
    unfold array_ok. machine_simpl.
    rewrite (firstn_all2 addr) by (apply Nat.lt_le_incl; exact Hf).
    rewrite <- Hlen in *.
    change (addr ++ skipn (length addr) (ans m))
      with (firstn 0 (ans m) ++ addr ++ skipn (0 + length addr) (ans m)).
    apply nth_last_written; [simpl; lia | exact Hnul | simpl; intros E; lia].
  - rewrite (resolver_paths w m Hov).
    destruct (display_segments (display_of w)) as [[host disp]|].
    + destruct (config_home w) as [conf|].
      * replace (PATH_MAX <? length conf) with false
          by (symmetry; apply Nat.ltb_ge; exact Hf).
        eexists. eexists. split; [reflexivity|]. unfold array_ok. machine_simpl.
        destruct repeat_array_ok as [R1 R2].
        destruct (@snprintf_array_ok (repeat NUL PATH_MAX) 0 conf R1 R2) as [S1 S2];
          [apply Nat.le_0_l|].
        apply snprintf_array_ok; assumption.
      * eexists. eexists. split; [reflexivity|]. exact repeat_array_ok.
    + eexists. eexists. split; [reflexivity|]. split; assumption.
Qed.

Lemma array_ok_str m : array_ok m -> exists s, c_str (ans m) 0 = Some s.
Proof.
  intros [Hlen Hnul]. unfold c_str. cbn [skipn].
  destruct (@until_nul_in (ans m)) as (s & Hs & _); [|exists s; exact Hs].
  rewrite <- Hnul. apply nth_In. rewrite Hlen. unfold PATH_MAX. lia.
Qed.

(* ================================================================== *)
(** ** No undefined behaviour: where a run can get stuck *)

Lemma bind_none A B (c : M A) (k : A -> M B) m :
  bind c k m = None ->
  c m = None \/ exists a m1, c m = Some (a, m1) /\ k a m1 = None.
Proof.
  unfold bind. destruct (c m) as [[a m1]|]; [|left; reflexivity].
  intros H. right. exists a, m1. split; [reflexivity | exact H].
Qed.

Lemma free_none p m : free p m = None -> ~ live (heap m) p.
Proof.
  unfold free, live. destruct p as [a|]; [|discriminate].
  destruct (heap_lookup (heap m) a); [discriminate|]. intros _ H. apply H. reflexivity.
Qed.

Lemma deref_none p m : deref p m = None -> ~ live (heap m) p.
Proof.
  unfold deref, live. destruct p as [a|]; [|discriminate].
  destruct (heap_lookup (heap m) a); [discriminate|]. intros _ H. apply H. reflexivity.
Qed.

Lemma read_str_none buf i m : read_str buf i m = None -> c_str buf i = None.
Proof. unfold read_str. destruct (c_str buf i); [discriminate | reflexivity]. Qed.

(** The place where a run [H : c m = None] got stuck: the operations that
    always return are passed over, the run up to the place is executed, and
    what is left is a [free] or a string handed out that is not live, a
    string read over the end of its array, or a call of a function of the
    program that did not return. *)
Ltac stuck_prim H :=
  cbv beta delta [ret load store emit get_ans set_ans strdup] in H; discriminate H.

Ltac stuck_in H :=
  cbv beta zeta in H;
  lazymatch type of H with
  | bind _ _ _ = None =>
      let H1 := fresh "Hrun" in
      apply bind_none in H as [H | (? & ? & H1 & H)];
      [ stuck_in H | run_in H1; stuck_in H ]
  | ret _ _ = None => stuck_prim H
  | load _ _ = None => stuck_prim H
  | store _ _ = None => stuck_prim H
  | emit _ _ = None => stuck_prim H
  | get_ans _ = None => stuck_prim H
  | set_ans _ _ = None => stuck_prim H
  | strdup _ _ = None => stuck_prim H
  | free _ _ = None => apply free_none in H
  | deref _ _ = None => apply deref_none in H
  | read_str _ _ _ = None => apply read_str_none in H
  | (match ?x with _ => _ end) _ = None =>
      let E := fresh "Ecase" in destruct x eqn:E; stuck_in H
  | _ => idtac
  end.

(** The array [buf] at the [break] of the loop holds a string behind the key. *)
Lemma poke_nul_kept buf i k :
  i < length buf -> nth k buf NUL = NUL ->
  length (poke buf i NUL) = length buf /\ nth k (poke buf i NUL) NUL = NUL.
Proof.
  intros Hi Hk. split; [apply poke_length; exact Hi|].
  unfold poke.
  destruct (Nat.lt_ge_cases k i) as [Hlt|Hge].
  - rewrite app_nth1 by (rewrite length_firstn; lia).
    rewrite nth_firstn. replace (k <? i) with true by (symmetry; apply Nat.ltb_lt; exact Hlt).
    exact Hk.
  - rewrite app_nth2 by (rewrite length_firstn; lia).
    rewrite length_firstn. replace (Nat.min i (length buf)) with i by lia.
    destruct (k - i) as [|j] eqn:E; [reflexivity|].
    cbn [nth]. rewrite nth_skipn. replace (S i + j) with k by lia. exact Hk.
Qed.

Lemma strlen_le buf : In NUL buf -> strlen buf < length buf.
Proof.
  intros H. unfold strlen. destruct (until_nul_in _ H) as (s & -> & Hl). exact Hl.
Qed.

Lemma strip_line_end_nul buf k :
  In NUL buf -> nth k buf NUL = NUL ->
  length (strip_line_end buf) = length buf /\ nth k (strip_line_end buf) NUL = NUL.
Proof.
  intros Hin Hk. pose proof (strlen_le _ Hin) as Hs. unfold strip_line_end. cbv zeta.
  set (sz := strlen buf) in *.
  assert (H1 : length (if Ascii.eqb (nth (sz - 1) buf NUL) LF then poke buf (sz - 1) NUL else buf)
               = length buf /\
               nth k (if Ascii.eqb (nth (sz - 1) buf NUL) LF then poke buf (sz - 1) NUL else buf)
                 NUL = NUL).
  { destruct (Ascii.eqb (nth (sz - 1) buf NUL) LF); [|split; [reflexivity | exact Hk]].
    apply poke_nul_kept; [lia | exact Hk]. }
  destruct H1 as [L1 N1].
  match goal with
  | |- context [if Ascii.eqb (nth (sz - 2) ?b NUL) CR then _ else _] =>
      destruct (Ascii.eqb (nth (sz - 2) b NUL) CR)
  end.
  - rewrite <- L1. apply poke_nul_kept; [lia | exact N1].
  - split; assumption.
Qed.

Lemma fgets_shape size rest buf rest' :
  fgets size rest = Some (buf, rest') -> exists chunk, buf = chunk ++ [NUL].
Proof.
  unfold fgets. destruct rest as [|ch tl]; [discriminate|].
  destruct (fgets_take (size - 1) (ch :: tl)) as [chunk r].
  intros H. inversion H. exists chunk. reflexivity.
Qed.

Lemma scan_address_str fuel rest buf :
  scan_address fuel rest = Some buf ->
  exists s, c_str buf (length (cs "IBUS_ADDRESS=")) = Some s.
Proof.
  revert rest. induction fuel as [|fuel IH]; intros rest; cbn [scan_address];
    destruct (fgets 1024 rest) as [[b rest']|] eqn:Ef; try discriminate;
    destruct (strncmp_lit b (cs "IBUS_ADDRESS=")) eqn:Ek; try discriminate; try (apply IH).
  all: intros H; inversion H; subst buf; clear H.
  all: destruct (fgets_shape _ _ Ef) as (chunk & ->).
  all: unfold strncmp_lit, streq in Ek;
    destruct (list_eq_dec ascii_dec (firstn (length (cs "IBUS_ADDRESS=")) (chunk ++ [NUL]))
                (cs "IBUS_ADDRESS=")) as [Eq|]; [|discriminate].
  all: assert (Hlen : length (cs "IBUS_ADDRESS=") <= length chunk).
  1,3: destruct (Nat.le_gt_cases (length (cs "IBUS_ADDRESS=")) (length chunk)) as [Hle|Hgt];
         [exact Hle|]; exfalso;
         rewrite firstn_all2 in Eq by (rewrite length_app; simpl in *; lia);
         assert (Hin : In NUL (cs "IBUS_ADDRESS=")) by (rewrite <- Eq; apply in_or_app; right; left; reflexivity);
         simpl in Hin; intuition discriminate.
  all: destruct (@strip_line_end_nul (chunk ++ [NUL]) (length chunk)) as [SL SN];
         [apply in_or_app; right; left; reflexivity | apply nth_middle |].
  all: unfold c_str;
    destruct (@until_nul_in (skipn (length (cs "IBUS_ADDRESS=")) (strip_line_end (chunk ++ [NUL]))))
      as (s & Hs & _); [|exists s; exact Hs].
  all: rewrite <- SN at 1;
    replace (length chunk) with
      (length (cs "IBUS_ADDRESS=") + (length chunk - length (cs "IBUS_ADDRESS="))) at 1 by lia;
    rewrite <- nth_skipn; apply nth_In;
    rewrite length_skipn, SL, length_app; simpl in *; lia.
Qed.

(** A run cannot be stuck at a [free] or at a string handed out when the
    machine owns its strings there, nor at the string behind the key. *)
Ltac live_here calls :=
  match goal with
  | H : ~ live (heap ?M) ?p |- False =>
      apply H;
      first
        [ exact I
        | let Ho' := fresh "Ho" in
          assert (Ho' : owned M) by (calls; owned_fin);
          first [ exact (own_ctx Ho') | exact (own_addr Ho') | exact (own_name Ho') ] ]
  end.

Ltac string_here :=
  match goal with
  | H : c_str ?buf _ = None, E : scan_address _ _ = Some ?buf |- False =>
      destruct (scan_address_str _ _ E) as (? & Hs); rewrite Hs in H; discriminate H
  end.

Lemma read_ibus_address_defined w m :
  owned m -> exists r m', read_ibus_address w m = Some (r, m').
Proof.
  intros Ho. destruct (read_ibus_address w m) as [[r m']|] eqn:H; [eauto|].
  exfalso. unfold read_ibus_address in H. unfold_calls_in H.
  stuck_in H; first [ live_here idtac | string_here ].
Qed.

Lemma resolver_array_ok w m r m' :
  get_ibus_address_file_name w m = Some (r, m') -> fits w -> array_ok m -> array_ok m'.
Proof.
  intros H Hf Ha. destruct (@resolver_defined _ _ Hf Ha) as (r1 & m1 & H1 & Ha1).
  rewrite H in H1. inversion H1. subst. exact Ha1.
Qed.

Lemma reader_array_ok w m r m' :
  read_ibus_address w m = Some (r, m') -> fits w -> array_ok m -> array_ok m'.
Proof.
  intros H _ Ha. apply reader_frame in H. destruct H as (_ & _ & _ & _ & _ & Hans & _).
  unfold array_ok. rewrite Hans. exact Ha.
Qed.

(** The static array at a place of a run: it is the array of a machine
    that a function of the program returned, or of the machine at the start. *)
Ltac array_of lemmas :=
  unfold array_ok; machine_simpl;
  lazymatch goal with
  | |- length (ans ?x) = _ /\ _ =>
      change (array_ok x);
      first [ assumption
            | match goal with
              | Hr : _ = Some (_, x) |- _ => lemmas Hr; [assumption | array_of lemmas]
              end ]
  end.

Ltac array_lemmas1 Hr :=
  first [ apply (@resolver_array_ok _ _ _ _ Hr) | apply (@reader_array_ok _ _ _ _ Hr) ].

(** A run stuck at a call of the resolver or of the reader, or at the
    string in the static array. *)
Ltac resolver_here lemmas :=
  match goal with
  | H : get_ibus_address_file_name ?w ?M = None, Hf : fits ?w |- False =>
      let Ha' := fresh "Ha" in
      assert (Ha' : array_ok M) by array_of lemmas;
      destruct (@resolver_defined _ _ Hf Ha') as (? & ? & Hd & _);
      rewrite Hd in H; discriminate H
  end.

Ltac array_here lemmas :=
  match goal with
  | H : c_str (ans ?x) 0 = None |- False =>
      let Ha' := fresh "Ha" in
      assert (Ha' : array_ok x) by array_of lemmas;
      destruct (@array_ok_str _ Ha') as (? & Hs);
      rewrite Hs in H; discriminate H
  end.

Ltac reader_here calls :=
  match goal with
  | H : read_ibus_address ?w ?M = None |- False =>
      let Ho' := fresh "Ho" in
      assert (Ho' : owned M) by (calls; owned_fin);
      destruct (@read_ibus_address_defined w _ Ho') as (? & ? & Hd);
      rewrite Hd in H; discriminate H
  end.

Lemma setup_connection_defined w m :
  fits w -> owned m -> array_ok m -> exists r m', setup_connection w m = Some (r, m').
Proof.
  intros Hf Ho Ha. destruct (setup_connection w m) as [[r m']|] eqn:H; [eauto|].
  exfalso. unfold setup_connection in H. unfold_calls_in H.
  stuck_in H;
    first [ resolver_here array_lemmas1 | array_here array_lemmas1
          | reader_here ltac:(owned_calls no_more)
          | live_here ltac:(owned_calls no_more) ].
Qed.

Lemma setup_connection_array_ok w m r m' :
  setup_connection w m = Some (r, m') -> fits w -> array_ok m -> array_ok m'.
Proof.
  intros H Hf Ha. unfold setup_connection in H. unfold_calls_in H.
  run_in H; array_of array_lemmas1.
Qed.

Ltac array_lemmas2 Hr :=
  first [ array_lemmas1 Hr | apply (@setup_connection_array_ok _ _ _ _ Hr) ].

Ltac setup_here calls lemmas :=
  match goal with
  | H : setup_connection ?w ?M = None, Hf : fits ?w |- False =>
      let Ho' := fresh "Ho" in
      let Ha' := fresh "Ha" in
      assert (Ho' : owned M) by (calls; owned_fin);
      assert (Ha' : array_ok M) by array_of lemmas;
      destruct (@setup_connection_defined w M Hf Ho' Ha') as (? & ? & Hd);
      rewrite Hd in H; discriminate H
  end.

Lemma check_connection_defined w m :
  fits w -> owned m -> array_ok m -> exists r m', check_connection w m = Some (r, m').
Proof.
  intros Hf Ho Ha. destruct (check_connection w m) as [[r m']|] eqn:H; [eauto|].
  exfalso. unfold check_connection in H. unfold_calls_in H.
  stuck_in H;
    first [ setup_here ltac:(owned_calls no_more) array_lemmas1
          | reader_here ltac:(owned_calls no_more)
          | live_here ltac:(owned_calls no_more) ].
Qed.

Lemma check_connection_array_ok w m r m' :
  check_connection w m = Some (r, m') -> fits w -> array_ok m -> array_ok m'.
Proof.
  intros H Hf Ha. unfold check_connection in H. unfold_calls_in H.
  run_in H; array_of array_lemmas2.
Qed.

Ltac array_lemmas3 Hr :=
  first [ array_lemmas2 Hr | apply (@check_connection_array_ok _ _ _ _ Hr) ].

Ltac check_here calls lemmas :=
  match goal with
  | H : check_connection ?w ?M = None, Hf : fits ?w |- False =>
      let Ho' := fresh "Ho" in
      let Ha' := fresh "Ha" in
      assert (Ho' : owned M) by (calls; owned_fin);
      assert (Ha' : array_ok M) by array_of lemmas;
      destruct (@check_connection_defined w M Hf Ho' Ha') as (? & ? & Hd);
      rewrite Hd in H; discriminate H
  end.

Lemma glfw_ibus_set_focused_defined w focused m :
  fits w -> owned m -> array_ok m ->
  exists m', glfw_ibus_set_focused w focused m = Some (tt, m').
Proof.
  intros Hf Ho Ha. destruct (glfw_ibus_set_focused w focused m) as [[[] m']|] eqn:H; [eauto|].
  exfalso. unfold glfw_ibus_set_focused, simple_message in H. unfold_calls_in H.
  stuck_in H;
    first [ check_here ltac:(owned_calls with_check) array_lemmas3
          | live_here ltac:(owned_calls with_check) ].
Qed.

Lemma glfw_ibus_set_focused_array_ok w focused m r m' :
  glfw_ibus_set_focused w focused m = Some (r, m') -> fits w -> array_ok m -> array_ok m'.
Proof.
  intros H Hf Ha. unfold glfw_ibus_set_focused, simple_message in H. unfold_calls_in H.
  run_in H; array_of array_lemmas3.
Qed.

Lemma set_cursor_geometry_defined w x y wd h m :
  fits w -> owned m -> array_ok m ->
  exists m', set_cursor_geometry w x y wd h m = Some (tt, m').
Proof.
  intros Hf Ho Ha. destruct (set_cursor_geometry w x y wd h m) as [[[] m']|] eqn:H; [eauto|].
  exfalso. unfold set_cursor_geometry in H. unfold_calls_in H.
  stuck_in H;
    first [ check_here ltac:(owned_calls with_check) array_lemmas3
          | live_here ltac:(owned_calls with_check) ].
Qed.

Lemma set_cursor_geometry_array_ok w x y wd h m r m' :
  set_cursor_geometry w x y wd h m = Some (r, m') -> fits w -> array_ok m -> array_ok m'.
Proof.
  intros H Hf Ha. unfold set_cursor_geometry in H. unfold_calls_in H.
  run_in H; array_of array_lemmas3.
Qed.

Ltac array_lemmas4 Hr :=
  first [ array_lemmas3 Hr
        | apply (@glfw_ibus_set_focused_array_ok _ _ _ _ _ Hr)
        | apply (@set_cursor_geometry_array_ok _ _ _ _ _ _ _ _ Hr) ].

Ltac message_here calls lemmas :=
  match goal with
  | H : glfw_ibus_set_focused ?w ?f ?M = None, Hf : fits ?w |- False =>
      let Ho' := fresh "Ho" in
      let Ha' := fresh "Ha" in
      assert (Ho' : owned M) by (calls; owned_fin);
      assert (Ha' : array_ok M) by array_of lemmas;
      destruct (@glfw_ibus_set_focused_defined w f M Hf Ho' Ha') as (? & Hd);
      rewrite Hd in H; discriminate H
  | H : set_cursor_geometry ?w ?x ?y ?wd ?h ?M = None, Hf : fits ?w |- False =>
      let Ho' := fresh "Ho" in
      let Ha' := fresh "Ha" in
      assert (Ho' : owned M) by (calls; owned_fin);
      assert (Ha' : array_ok M) by array_of lemmas;
      destruct (@set_cursor_geometry_defined w x y wd h M Hf Ho' Ha') as (? & Hd);
      rewrite Hd in H; discriminate H
  end.

Lemma input_context_created_defined w msg errmsg m :
  fits w -> owned m -> array_ok m ->
  exists m', input_context_created w msg errmsg m = Some (tt, m').
Proof.
  intros Hf Ho Ha.
  destruct (input_context_created w msg errmsg m) as [[[] m']|] eqn:H; [eauto|].
  exfalso. unfold input_context_created in H. unfold_calls_in H.
  stuck_in H;
    first [ message_here ltac:(owned_calls with_messages) array_lemmas4
          | live_here ltac:(owned_calls with_messages) ].
Qed.

Lemma input_context_created_array_ok w msg errmsg m r m' :
  input_context_created w msg errmsg m = Some (r, m') -> fits w -> array_ok m -> array_ok m'.
Proof.
  intros H Hf Ha. unfold input_context_created in H. unfold_calls_in H.
  run_in H; array_of array_lemmas4.
Qed.

Lemma glfw_connect_to_ibus_defined w m :
  fits w -> owned m -> array_ok m -> exists m', glfw_connect_to_ibus w m = Some (tt, m').
Proof.
  intros Hf Ho Ha. destruct (glfw_connect_to_ibus w m) as [[[] m']|] eqn:H; [eauto|].
  exfalso. unfold glfw_connect_to_ibus in H. unfold_calls_in H.
  stuck_in H; setup_here ltac:(owned_calls no_more) array_lemmas1.
Qed.

Lemma glfw_connect_to_ibus_array_ok w m r m' :
  glfw_connect_to_ibus w m = Some (r, m') -> fits w -> array_ok m -> array_ok m'.
Proof.
  intros H Hf Ha. unfold glfw_connect_to_ibus in H. unfold_calls_in H.
  run_in H; array_of array_lemmas2.
Qed.

Lemma initial_array_ok : array_ok initial.
Proof. exact repeat_array_ok. Qed.

Lemma call_defined w c m :
  fits w -> owned m -> array_ok m ->
  exists m', call w c m = Some (tt, m') /\ owned m' /\ array_ok m'.
Proof.
  intros Hf Ho Ha. destruct c; simpl.
  - destruct (@glfw_connect_to_ibus_defined w m Hf Ho Ha) as (m' & H).
    exists m'. split; [exact H|].
    split; [exact (@glfw_connect_to_ibus_owned _ _ _ _ H Ho)
           | exact (@glfw_connect_to_ibus_array_ok _ _ _ _ H Hf Ha)].
  - exists (terminated m). split; [apply terminate_owned; exact Ho|].
    split; [apply terminated_owned; exact Ho | exact Ha].
  - destruct (glfw_ibus_dispatch m) as [[[] m']|] eqn:H.
    + exists m'. split; [reflexivity|].
      apply glfw_ibus_dispatch_same in H as (Hi & Hh & Hb & Hans).
      split; [eapply owned_same; [exact Ho | congruence ..]|].
      unfold array_ok. rewrite Hans. exact Ha.
    + exfalso. unfold glfw_ibus_dispatch in H. unfold_calls_in H. stuck_in H.
  - destruct (@glfw_ibus_set_focused_defined w focused m Hf Ho Ha) as (m' & H).
    exists m'. split; [exact H|].
    split; [exact (@glfw_ibus_set_focused_owned _ _ _ _ _ H Ho)
           | exact (@glfw_ibus_set_focused_array_ok _ _ _ _ _ H Hf Ha)].
  - destruct (@input_context_created_defined w msg errmsg m Hf Ho Ha) as (m' & H).
    exists m'. split; [exact H|].
    split; [exact (@input_context_created_owned _ _ _ _ _ _ H Ho)
           | exact (@input_context_created_array_ok _ _ _ _ _ _ H Hf Ha)].
Qed.

(** X18: no undefined behaviour while the environment fits the array.  As
    long as, at every call, IBUS_ADDRESS is shorter than PATH_MAX or (when
    it is unset or empty) the configuration directory has at most PATH_MAX
    characters, every sequence of calls from the initial session returns,
    whatever the file system and the bus answer: no call frees a block
    twice or hands out a freed string, none reads a string over the end of
    its array, none writes outside the static array.  The session then
    still owns its strings and the array still ends with a NUL. *)
Theorem session_never_undefined l :
  Forall (fun wc : World * Call => fits (fst wc)) l ->
  exists m', calls l initial = Some (tt, m') /\ owned m' /\ array_ok m'.
Proof.
  intros Hl.
  cut (forall m, owned m -> array_ok m ->
         exists m', calls l m = Some (tt, m') /\ owned m' /\ array_ok m').
  { intros Hc. apply Hc; [exact initial_owned | exact initial_array_ok]. }
  induction Hl as [|[w c] l Hf _ IH]; intros m Ho Ha.
  - exists m. split; [reflexivity|]. split; assumption.
  - simpl in Hf. destruct (@call_defined w c m Hf Ho Ha) as (m1 & H1 & Ho1 & Ha1).
    destruct (IH m1 Ho1 Ha1) as (m' & H' & Ho' & Ha').
    exists m'. split; [simpl; rewrite (bind_run _ H1); exact H'|].
    split; assumption.
Qed.

Lemma desktop_fits : fits desktop /\ fits restarted.
Proof. split; apply Nat.leb_le; reflexivity. Qed.

Lemma session_never_undefined_witness :
  exists m',
    calls [(desktop, ConnectToIbus); (restarted, SetFocused true); (desktop, Terminate)]
      initial = Some (tt, m') /\ owned m'.
Proof.
  destruct (@session_never_undefined
              [(desktop, ConnectToIbus); (restarted, SetFocused true); (desktop, Terminate)])
    as (m' & H & Ho & _).
  - apply Forall_cons; [exact (proj1 desktop_fits)|].
    apply Forall_cons; [exact (proj2 desktop_fits)|].
    apply Forall_cons; [exact (proj1 desktop_fits)|].
    apply Forall_nil.
  - exists m'. split; [exact H | exact Ho].
Defined.

(* ================================================================== *)
(** ** A dot before the colon *)

(** X19: a dot before the last colon.  [strrchr(display, '.')] is not
    limited to what stands behind the colon: when the last dot of the
    DISPLAY string stands before its last colon, the host is cut at that
    dot, and the display number is what stands behind the colon.  For a
    host given by an IPv4 address the last part of the address is lost. *)
Theorem dot_before_colon_cuts_host h t n :
  ~ In "."%char t -> ~ In "."%char n -> ~ In ":"%char n ->
  ~ In NUL h -> ~ In NUL n ->
  display_segments (h ++ "."%char :: t ++ ":"%char :: n) =
  Some (match h with [] => cs "unix" | _ => h end, n).
Proof.
  intros Hdt Hdn Hcn Hh Hn.
  assert (Hcolon : strrchr (h ++ "."%char :: t ++ ":"%char :: n) ":" =
                   Some (length (h ++ "."%char :: t))).
  { replace (h ++ "."%char :: t ++ ":"%char :: n)
      with ((h ++ "."%char :: t) ++ ":"%char :: n)
      by (rewrite <- app_assoc; reflexivity).
    apply strrchr_last. exact Hcn. }
  assert (Hdot : strrchr (h ++ "."%char :: t ++ ":"%char :: n) "." = Some (length h)).
  { apply strrchr_last. intros Hin. apply in_app_or in Hin as [Hin|Hin]; [auto|].
    destruct Hin as [Hin|Hin]; [discriminate | auto]. }
  unfold display_segments. rewrite Hcolon, Hdot.
  replace ((h ++ "."%char :: t ++ ":"%char :: n) ++ [NUL])
    with ((h ++ "."%char :: t) ++ ":"%char :: n ++ [NUL])
    by (repeat first [rewrite <- app_assoc | progress cbn [app]]; reflexivity).
  rewrite poke_app. rewrite <- app_assoc. cbn [app]. rewrite poke_app.
  rewrite c_str_start by exact Hh.
  replace (h ++ NUL :: t ++ NUL :: n ++ [NUL])
    with ((h ++ NUL :: t) ++ NUL :: n ++ [NUL])
    by (repeat first [rewrite <- app_assoc | progress cbn [app]]; reflexivity).
  replace (length (h ++ "."%char :: t)) with (length (h ++ NUL :: t))
    by (rewrite !length_app; reflexivity).
  rewrite c_str_behind, until_nul_app by exact Hn. reflexivity.
Qed.

Lemma dot_before_colon_cuts_host_witness :
  display_segments (cs "192.168.1.5:0") = Some (cs "192.168.1", cs "0").
Proof.
  refine (@dot_before_colon_cuts_host (cs "192.168.1") (cs "5") (cs "0") _ _ _ _ _);
    simpl; intuition discriminate.
Defined.

(* ================================================================== *)
(** ** MIN and its return type *)

(** X20: [MIN] returns its result through [GLFWbool], an [int].  For sizes
    whose minimum is below 2^31 the result is the minimum; from 2^31 on the
    conversion wraps, and what the caller gets back as a [size_t] is the
    minimum plus 2^64 - 2^32.  In its one use, with [sizeof(ans)], the
    result is always the minimum. *)
Theorem MIN_through_int (a b : Z) :
  (0 <= a)%Z -> (0 <= b)%Z ->
  ((Z.min a b < 2 ^ 31)%Z -> MIN a b = Z.min a b) /\
  ((2 ^ 31 <= Z.min a b < 2 ^ 32)%Z ->
     size_t_of (MIN a b) = (Z.min a b + (2 ^ 64 - 2 ^ 32))%Z) /\
  (forall n : nat,
     Z.to_nat (size_t_of (MIN (Z.of_nat n) (Z.of_nat PATH_MAX))) = Nat.min n PATH_MAX).
Proof.
  intros Ha Hb.
  assert (Hm : (if (a <? b)%Z then a else b) = Z.min a b).
  { destruct (Z.ltb_spec a b); lia. }
  unfold MIN, int_of, size_t_of. rewrite Hm.
  split; [|split].
  - intros H. rewrite Z.mod_small by lia. lia.
  - intros H.
    replace ((Z.min a b + 2 ^ 31) mod 2 ^ 32)%Z with (Z.min a b + 2 ^ 31 - 2 ^ 32)%Z.
    + rewrite <- (Z_mod_plus_full _ 1 (2 ^ 64)). rewrite Z.mod_small by lia. lia.
    + symmetry. rewrite <- (Z_mod_plus_full _ (-1) (2 ^ 32)).
      rewrite Z.mod_small by lia. lia.
  - intros n. apply MIN_PATH_MAX.
Qed.

Lemma MIN_through_int_witness :
  MIN 5 4096 = 5%Z /\
  size_t_of (MIN (2 ^ 31) (2 ^ 32)) = (2 ^ 31 + (2 ^ 64 - 2 ^ 32))%Z.
Proof.
  destruct (@MIN_through_int 5 4096) as (H1 & _ & _); [lia | lia |].
  destruct (@MIN_through_int (2 ^ 31) (2 ^ 32)) as (_ & H2 & _); [lia | lia |].
  split; [apply H1; reflexivity | apply H2; lia].
Defined.

(* ================================================================== *)
(** ** A file without an address line is read once *)

(** X21: a file without an address line is read once.  In an activated
    session without a live connection, when the address file opens and
    stats but holds no address line, [check_connection] reads it, reports
    the missing line and stores the mtime of the file all the same.  So
    while [stat] keeps answering that mtime, the next [check_connection]
    returns false after the liveness test and the [stat] alone: the file is
    not opened again and nothing more is reported until it changes. *)
Theorem file_without_address_read_once w m f t :
  live (heap m) (address_file_name (ibus m)) ->
  inited (ibus m) = true -> not_live w m ->
  opened w m = Some f -> f_mtime f = Some t -> found_in f = None ->
  match file_name_of m with Some p => w_stat w p | None => None end = Some t ->
  stale w m = true ->
  exists m1,
    check_connection w m = Some (false, m1) /\
    trace m1 = trace (probed m) ++
               [EFopen (file_name_of m); EFclose;
                EInputError "Could not find IBUS_ADDRESS in %s"] /\
    address_file_mtime (ibus m1) = t /\
    check_connection w m1 = Some (false, probed m1) /\
    trace (probed m1) =
      trace m1 ++
      match conn (ibus m) with Some c => [EIsConnected c] | None => [] end ++
      [EStat (file_name_of m)].
Proof.
  intros Hl Hi Hn Hopen Ht Hfound Hstat Hstale.
  set (m1 := logs [EFopen (file_name_of m); EFclose;
                   EInputError "Could not find IBUS_ADDRESS in %s"]
               (with_ibus (set_address_file_mtime t) (probed m))).
  assert (Hread : read_ibus_address w (probed m) = Some (false, m1)).
  { apply (@read_ibus_address_not_found w (probed m) f t); assumption. }
  exists m1. split; [|split; [|split; [|split]]].
  - rewrite (@check_connection_probe w m Hl Hi Hn), Hstale.
    rewrite (bind_run _ Hread). reflexivity.
  - reflexivity.
  - reflexivity.
  - rewrite (@check_connection_probe w m1 Hl Hi Hn).
    unfold stale. change (file_name_of m1) with (file_name_of m). rewrite Hstat.
    change (address_file_mtime (ibus m1)) with t. rewrite Z.eqb_refl. reflexivity.
  - reflexivity.
Qed.

Lemma file_without_address_read_once_witness :
  exists m1,
    check_connection restarting connected = Some (false, m1) /\
    address_file_mtime (ibus m1) = 9%Z /\
    check_connection restarting m1 = Some (false, probed m1).
Proof.
  destruct (@file_without_address_read_once restarting connected
              (mkFile (cs "# ibus-daemon is restarting" ++ [LF]) (Some 9%Z)) 9%Z)
    as (m1 & H1 & _ & Ht & H2 & _); try reflexivity.
  - simpl. discriminate.
  - exists m1. split; [exact H1|]. split; [exact Ht | exact H2].
Defined.

(* ================================================================== *)
(** ** The file that is opened is the file that was resolved *)

Lemma reader_opens w m r m' :
  read_ibus_address w m = Some (r, m') ->
  exists rest, trace m' = trace m ++ EFopen (file_name_of m) :: rest.
Proof.
  intros H. unfold read_ibus_address in H. unfold_calls_in H.
  unfold file_name_of.
  run_in H; machine_simpl_all; rewrite <- ?app_assoc; cbn [app]; eexists; reflexivity.
Qed.

Lemma reader_keeps_block w m r m' q s :
  read_ibus_address w m = Some (r, m') ->
  heap_lookup (heap m) q = Some s -> address (ibus m) <> Some q -> q < brk m ->
  heap_lookup (heap m') q = Some s.
Proof.
  intros H Hq Ha Hb. unfold read_ibus_address in H. unfold_calls_in H.
  run_in H; machine_simpl_all; try exact Hq.
  cbn [heap_lookup].
  match goal with
  | |- context [q =? ?b] =>
      replace (q =? b) with false by (symmetry; apply Nat.eqb_neq; lia)
  end.
  rewrite freed_lookup_other by exact Ha. exact Hq.
Qed.

Lemma get_ans_run m : get_ans m = Some (ans m, m).
Proof. reflexivity. Qed.

(** X22: the file that is opened is the file that was resolved.  When the
    name is derived from the display and fits the array, every run of
    [setup_connection] on a session that owns its strings asks for the
    variables of the resolver and the machine id, and then opens exactly
    <config-home>/ibus/bus/<machine-id>-<host>-<display-number>; on return
    [address_file_name] is a copy of that name. *)
Theorem resolved_file_is_opened w m host disp conf r m' :
  owned m ->
  nonempty (w_getenv w "IBUS_ADDRESS") = None ->
  display_segments (display_of w) = Some (host, disp) ->
  config_home w = Some conf ->
  let name := conf ++ cs "/ibus/bus/" ++ w_machine_id w ++ cs "-" ++ host ++ cs "-" ++ disp in
  length name < PATH_MAX -> ~ In NUL name ->
  setup_connection w m = Some (r, m') ->
  (exists rest,
      trace m' = trace m ++ derive_events w ++ EFopen (Some name) :: rest) /\
  file_name_of m' = Some name.
Proof.
  intros Ho Hov Hseg Hconf name Hlen Hnul H.
  destruct (@resolver_derives w m host disp conf Hov Hseg Hconf Hlen Hnul)
    as (m1 & Hres & Hstr1 & Htr1 & Hib1 & Hhp1 & Hbk1).
  fold name in Hstr1.
  unfold setup_connection in H. cbv zeta in H.
  rewrite (bind_run _ Hres) in H.
  rewrite (bind_run _ (store_run _ _)) in H. cbn [negb] in H.
  rewrite (bind_run _ (load_run address_file_name _)) in H.
  assert (Hl1 : live (heap (with_ibus (set_ok false) m1))
                  (address_file_name (ibus (with_ibus (set_ok false) m1)))).
  { machine_simpl. rewrite Hib1, Hhp1. exact (own_name Ho). }
  rewrite (bind_run _ (free_live _ _ Hl1)) in H.
  rewrite (bind_run _ (get_ans_run _)) in H. machine_simpl_all.
  unfold read_str in H at 1. rewrite Hstr1 in H.
  rewrite (bind_run _ (ret_run _ _)) in H.
  rewrite (bind_run _ (strdup_run _ _)) in H.
  rewrite (bind_run _ (store_run _ _)) in H.
  machine_simpl_all.
  match type of H with
  | bind (read_ibus_address w) _ ?M = _ => set (m2 := M) in *
  end.
  assert (Hname2 : file_name_of m2 = Some name).
  { unfold file_name_of, m2. machine_simpl. cbn [heap_lookup]. rewrite Nat.eqb_refl.
    reflexivity. }
  assert (Hfresh : forall p, live (heap m) p -> p <> Some (brk m)).
  { intros p Hp E. pose proof (@live_below m p (brk m) (own_fresh Ho) Hp E). lia. }
  apply bind_inv in H as (r2 & m3 & Hread & H).
  destruct (@reader_opens _ _ _ _ Hread) as (rest2 & Htr3).
  assert (Hblock : heap_lookup (heap m3) (brk m) = Some name).
  { apply (@reader_keeps_block _ _ _ _ _ _ Hread).
    - unfold m2. machine_simpl. cbn [heap_lookup]. rewrite Hbk1, Nat.eqb_refl. reflexivity.
    - unfold m2. machine_simpl. rewrite Hib1. apply Hfresh. exact (own_addr Ho).
    - unfold m2. machine_simpl. rewrite Hbk1. lia. }
  pose proof (@reader_frame _ _ _ _ Hread) as (_ & _ & _ & Hctx3 & Hnm3 & _ & _ & _).
  assert (Hnm : address_file_name (ibus m3) = Some (brk m)).
  { rewrite Hnm3. unfold m2. machine_simpl. rewrite Hbk1. reflexivity. }
  assert (Hcx : input_ctx_path (ibus m3) <> Some (brk m)).
  { rewrite Hctx3. unfold m2. machine_simpl. rewrite Hib1. apply Hfresh. exact (own_ctx Ho). }
  assert (Htr : trace m3 = trace m ++ derive_events w ++ EFopen (Some name) :: rest2).
  { rewrite Htr3, Hname2. unfold m2. machine_simpl. rewrite Htr1.
    rewrite <- app_assoc. reflexivity. }
  clear Hread Htr3 Hctx3 Hnm3.
  unfold_calls_in H.
  run_in H; machine_simpl_all; unfold file_name_of; machine_simpl;
    rewrite ?Htr, ?Hnm; rewrite <- ?app_assoc; cbn [app];
    (split; [eexists; reflexivity|]);
    rewrite ?freed_lookup_other by exact Hcx; exact Hblock.
Qed.

Lemma resolved_file_is_opened_witness :
  exists m',
    setup_connection desktop initial = Some (true, m') /\
    file_name_of m' = Some (cs "/home/u/.config/ibus/bus/mid-unix-1").
Proof.
  destruct desktop_connects as (m' & H). exists m'. split; [exact H|].
  refine (proj2 (@resolved_file_is_opened desktop initial (cs "unix") (cs "1")
                   (cs "/home/u/.config") true m' initial_owned eq_refl eq_refl eq_refl _ _ H)).
  - apply Nat.ltb_lt. vm_compute. reflexivity.
  - vm_compute. intuition discriminate.
Defined.

(* ================================================================== *)
(** ** The derived name does not depend on the array *)

Lemma some_pair_inj A B (a c : A) (b d : B) : Some (a, b) = Some (c, d) -> a = c /\ b = d.
Proof. intros H. split; congruence. Qed.

(** X23: the derived name is a function of the environment.  Without an
    override the resolver clears the array before it writes, so the answer
    and the array it returns are the same whatever the array held before
    (an earlier name, an earlier override): nothing of an earlier call is
    left in a derived name. *)
Theorem derived_name_ignores_array w m1 m2 r1 r2 m1' m2' :
  nonempty (w_getenv w "IBUS_ADDRESS") = None ->
  get_ibus_address_file_name w m1 = Some (r1, m1') ->
  get_ibus_address_file_name w m2 = Some (r2, m2') ->
  r1 = r2 /\
  (r1 = true -> ans m1' = ans m2') /\
  (r1 = false -> ans m1' = ans m1 \/ ans m1' = repeat NUL PATH_MAX).
Proof.
  intros Hov H1 H2.
  rewrite (resolver_paths w m1 Hov) in H1. rewrite (resolver_paths w m2 Hov) in H2.
  destruct (display_segments (display_of w)) as [[host disp]|];
    [destruct (config_home w) as [conf|];
       [destruct (PATH_MAX <? length conf); [discriminate|]|]|];
    apply some_pair_inj in H1 as [<- <-]; apply some_pair_inj in H2 as [<- <-];
    (split; [reflexivity|]); split; intros E; try discriminate E.
  - reflexivity.
  - right. reflexivity.
  - left. reflexivity.
Qed.

Lemma desktop_resolves :
  exists m3, get_ibus_address_file_name desktop initial = Some (true, m3).
Proof. eexists. vm_compute. reflexivity. Qed.

Lemma overridden_then_derived :
  exists m1 m2 m3,
    get_ibus_address_file_name too_long initial = Some (true, m1) /\
    get_ibus_address_file_name desktop m1 = Some (true, m2) /\
    get_ibus_address_file_name desktop initial = Some (true, m3).
Proof.
  assert (H : exists m2,
            (get_ibus_address_file_name too_long ;; get_ibus_address_file_name desktop)
              initial = Some (true, m2)) by (eexists; vm_compute; reflexivity).
  destruct H as (m2 & H). apply bind_inv in H as ([] & m1 & H1 & H2).
  - destruct desktop_resolves as (m3 & H3). exists m1, m2, m3. repeat split; assumption.
  - exfalso. revert H1. vm_compute. discriminate.
Qed.

Lemma derived_name_ignores_array_witness :
  exists m1 m2 m3,
    get_ibus_address_file_name too_long initial = Some (true, m1) /\
    get_ibus_address_file_name desktop m1 = Some (true, m2) /\
    get_ibus_address_file_name desktop initial = Some (true, m3) /\
    ans m2 = ans m3.
Proof.
  destruct overridden_then_derived as (m1 & m2 & m3 & H1 & H2 & H3).
  exists m1, m2, m3. split; [exact H1|]. split; [exact H2|]. split; [exact H3|].
  exact (proj1 (proj2 (@derived_name_ignores_array desktop m1 initial true true m2 m3
                         eq_refl H2 H3)) eq_refl).
Defined.

(* ================================================================== *)
(** ** No connection is dropped without being closed *)

Lemma kept_or_closed_refl m : kept_or_closed m m.
Proof. exists []. rewrite app_nil_r. split; [reflexivity | auto]. Qed.

Lemma kept_or_closed_trans m1 m2 m3 :
  kept_or_closed m1 m2 -> kept_or_closed m2 m3 -> kept_or_closed m1 m3.
Proof.
  intros (e1 & T1 & H1) (e2 & T2 & H2). exists (e1 ++ e2).
  split; [rewrite T2, T1, app_assoc; reflexivity|].
  intros c Hc. destruct (H1 c Hc) as [Hk|Hin].
  - destruct (H2 c Hk) as [Hk2|Hin2]; [left; exact Hk2|].
    right. apply in_or_app. right. exact Hin2.
  - right. apply in_or_app. left. exact Hin.
Qed.

Lemma kept_by_frame m m' evs :
  trace m' = trace m ++ evs -> conn (ibus m') = conn (ibus m) -> kept_or_closed m m'.
Proof.
  intros Ht Hc. exists evs. split; [exact Ht|]. intros c E. left. congruence.
Qed.

Lemma resolver_kept w m r m' :
  get_ibus_address_file_name w m = Some (r, m') -> kept_or_closed m m'.
Proof.
  intros H. apply resolver_frame in H as (Hib & _ & _ & evs & Ht & _).
  apply (@kept_by_frame _ _ _ Ht). rewrite Hib. reflexivity.
Qed.

Lemma reader_kept w m r m' :
  read_ibus_address w m = Some (r, m') -> kept_or_closed m m'.
Proof.
  intros H. apply reader_frame in H as (_ & _ & Hc & _ & _ & _ & _ & evs & Ht & _).
  exact (@kept_by_frame _ _ _ Ht Hc).
Qed.

(** A step that only logs or changes other fields, and the step that
    closes the connection and clears the handle. *)
Lemma kept_then m m1 m' :
  kept_or_closed m m1 ->
  (exists evs, trace m' = trace m1 ++ evs /\
     forall c, conn (ibus m1) = Some c -> conn (ibus m') = Some c \/ In (EClose c) evs) ->
  kept_or_closed m m'.
Proof. intros H1 H2. exact (@kept_or_closed_trans _ _ _ H1 H2). Qed.

(** The facts of the calls that [run_in] left, and the end of a run. *)
Ltac kept_calls lemmas :=
  repeat match goal with
         | Hr : get_ibus_address_file_name _ _ = Some _ |- _ => apply resolver_kept in Hr
         | Hr : read_ibus_address _ _ = Some _ |- _ => apply reader_kept in Hr
         | Hr : _ = Some _ |- _ => lemmas Hr
         end.

Ltac kept_step :=
  eexists; split;
    [ machine_simpl; rewrite <- ?app_assoc; cbn [app];
      first [ reflexivity | symmetry; apply app_nil_r ]
    | machine_simpl; intros ? ?;
      first [ left; congruence
            | right; rewrite ?in_app_iff; cbn [In];
              repeat match goal with
                     | E : conn _ = Some _ |- _ => rewrite E in *
                     end;
              first [ tauto | left; congruence | intuition congruence ] ] ].

Ltac kept_fin :=
  lazymatch goal with
  | |- kept_or_closed ?m ?m =>  apply kept_or_closed_refl
  | |- kept_or_closed ?m _ =>
      first
        [ kept_step
        | match goal with
          | Hk : kept_or_closed ?a ?x |- _ =>
              apply (@kept_or_closed_trans m a _);
              [ clear Hk; kept_fin
              | apply (@kept_or_closed_trans a x _); [exact Hk | clear Hk; kept_step] ]
          end ]
  end.

Lemma setup_connection_kept w m r m' :
  setup_connection w m = Some (r, m') -> kept_or_closed m m'.
Proof.
  intros H. unfold setup_connection in H. unfold_calls_in H.
  run_in H; kept_calls no_more; machine_simpl_all; kept_fin.
Qed.

Ltac kept_setup Hr :=
  match type of Hr with
  | setup_connection _ _ = Some _ => apply setup_connection_kept in Hr
  end.

Lemma check_connection_kept w m r m' :
  check_connection w m = Some (r, m') -> kept_or_closed m m'.
Proof.
  intros H. unfold check_connection in H. unfold_calls_in H.
  run_in H; kept_calls kept_setup; machine_simpl_all; kept_fin.
Qed.

Ltac kept_check Hr :=
  match type of Hr with
  | check_connection _ _ = Some _ => apply check_connection_kept in Hr
  end.

Lemma glfw_ibus_set_focused_kept w focused m r m' :
  glfw_ibus_set_focused w focused m = Some (r, m') -> kept_or_closed m m'.
Proof.
  intros H. unfold glfw_ibus_set_focused, simple_message in H. unfold_calls_in H.
  run_in H; kept_calls kept_check; machine_simpl_all; kept_fin.
Qed.

Lemma set_cursor_geometry_kept w x y wd h m r m' :
  set_cursor_geometry w x y wd h m = Some (r, m') -> kept_or_closed m m'.
Proof.
  intros H. unfold set_cursor_geometry in H. unfold_calls_in H.
  run_in H; kept_calls kept_check; machine_simpl_all; kept_fin.
Qed.

Ltac kept_messages Hr :=
  match type of Hr with
  | glfw_ibus_set_focused _ _ _ = Some _ => apply glfw_ibus_set_focused_kept in Hr
  | set_cursor_geometry _ _ _ _ _ _ = Some _ => apply set_cursor_geometry_kept in Hr
  end.

Lemma input_context_created_kept w msg errmsg m r m' :
  input_context_created w msg errmsg m = Some (r, m') -> kept_or_closed m m'.
Proof.
  intros H. unfold input_context_created in H. unfold_calls_in H.
  run_in H; kept_calls kept_messages; machine_simpl_all; kept_fin.
Qed.

Lemma glfw_connect_to_ibus_kept w m r m' :
  glfw_connect_to_ibus w m = Some (r, m') -> kept_or_closed m m'.
Proof.
  intros H. unfold glfw_connect_to_ibus in H. unfold_calls_in H.
  run_in H; kept_calls kept_setup; machine_simpl_all; kept_fin.
Qed.

Lemma glfw_ibus_terminate_kept m r m' :
  glfw_ibus_terminate m = Some (r, m') -> kept_or_closed m m'.
Proof.
  intros H. unfold glfw_ibus_terminate, F in H. unfold_calls_in H.
  run_in H; machine_simpl_all; kept_fin.
Qed.

Lemma glfw_ibus_dispatch_kept m r m' :
  glfw_ibus_dispatch m = Some (r, m') -> kept_or_closed m m'.
Proof.
  intros H. unfold glfw_ibus_dispatch in H. unfold_calls_in H.
  run_in H; machine_simpl_all; kept_fin.
Qed.

Lemma call_kept w c m m' : call w c m = Some (tt, m') -> kept_or_closed m m'.
Proof.
  destruct c; simpl; intros H.
  - exact (glfw_connect_to_ibus_kept _ _ H).
  - exact (glfw_ibus_terminate_kept _ H).
  - exact (glfw_ibus_dispatch_kept _ H).
  - exact (glfw_ibus_set_focused_kept _ _ _ H).
  - exact (input_context_created_kept _ _ _ _ H).
Qed.

(** X25: no connection is dropped without being closed.  Over every
    sequence of calls of the file the trace only grows, and a connection
    handle the session held before is either still its handle afterwards or
    [glfw_dbus_close_connection] was called on it in between: the handle is
    never overwritten or cleared while the connection is open. *)
Theorem connection_closed_before_dropped l m m' c :
  calls l m = Some (tt, m') -> conn (ibus m) = Some c ->
  exists evs,
    trace m' = trace m ++ evs /\
    (conn (ibus m') = Some c \/ In (EClose c) evs).
Proof.
  intros H Hc.
  cut (kept_or_closed m m').
  { intros (evs & Ht & Hk). exists evs. split; [exact Ht | exact (Hk c Hc)]. }
  clear Hc. revert m H. induction l as [|[w c0] l IH]; simpl; intros m H.
  - inversion H. apply kept_or_closed_refl.
  - apply bind_inv in H as ([] & m1 & H1 & H).
    exact (@kept_or_closed_trans _ _ _ (call_kept _ _ _ H1) (IH _ H)).
Qed.

Lemma restarted_session :
  exists m', calls [(restarted, SetFocused true)] connected = Some (tt, m').
Proof. eexists. vm_compute. reflexivity. Qed.

Lemma connection_closed_before_dropped_witness :
  exists m' evs,
    calls [(restarted, SetFocused true)] connected = Some (tt, m') /\
    trace m' = trace connected ++ evs /\
    (conn (ibus m') = Some 7 \/ In (EClose 7) evs).
Proof.
  destruct restarted_session as (m' & H).
  destruct (@connection_closed_before_dropped _ _ _ 7 H eq_refl) as (evs & Ht & Hk).
  exists m', evs. split; [exact H|]. split; [exact Ht | exact Hk].
Defined.

(* ================================================================== *)
(** ** Reconnecting: what decides a reconnect *)

Lemma untouched_no_connect m m' evs a :
  untouched m m' -> trace m' = trace m ++ evs -> In (EConnect a) evs -> False.
Proof.
  intros (_ & evs' & Ht' & Hf) Ht Hin. rewrite Ht' in Ht.
  apply app_inv_head in Ht. subst evs'.
  rewrite Forall_forall in Hf. apply (Hf _ Hin). exact I.
Qed.

(** [setup_connection] up to its second read of the address file. *)
Lemma setup_connection_to_read w m1 m2 s :
  owned m1 ->
  get_ibus_address_file_name w m1 = Some (true, m2) -> c_str (ans m2) 0 = Some s ->
  setup_connection w m1 =
  (r <- read_ibus_address w ;;
   if negb r then ret false else
   c <- load conn ;;
   match c with
   | Some c => glfw_dbus_close_connection c ;; store (set_conn None)
   | None => ret tt
   end ;;
   debug w connecting_message ;;
   a <- load address ;;
   a <- deref a ;;
   c <- glfw_dbus_connect_to w a ;;
   store (set_conn c) ;;
   match c with
   | None => ret false
   | Some c =>
       p <- load input_ctx_path ;;
       free p ;;
       store (set_input_ctx_path None) ;;
       r <- glfw_dbus_call_method_with_reply w c IBUS_SERVICE IBUS_PATH IBUS_INTERFACE
              "CreateInputContext" (cs "GLFW_Application") ;;
       if negb r then ret false else
       dbus_connection_flush c ;;
       dbus_bus_add_match c "type='signal',interface='org.freedesktop.IBus.InputContext'" ;;
       p <- load input_ctx_path ;;
       p <- deref p ;;
       dbus_connection_try_register_object_path c p ;;
       dbus_connection_flush c ;;
       ret true
   end) (renamed s m2).
Proof.
  intros Ho Hres Hstr.
  pose proof (@resolver_frame _ _ _ _ Hres) as (Hib & Hhp & Hbk & _).
  unfold setup_connection. cbv zeta.
  rewrite (bind_run _ Hres).
  rewrite (bind_run _ (store_run _ _)). cbn [negb].
  rewrite (bind_run _ (load_run address_file_name _)).
  assert (Hl : live (heap (with_ibus (set_ok false) m2))
                 (address_file_name (ibus (with_ibus (set_ok false) m2)))).
  { machine_simpl. rewrite Hib, Hhp. exact (own_name Ho). }
  rewrite (bind_run _ (free_live _ _ Hl)).
  rewrite (bind_run _ (get_ans_run _)). machine_simpl.
  unfold read_str at 1. rewrite Hstr.
  rewrite (bind_run _ (ret_run _ _)).
  rewrite (bind_run _ (strdup_run _ _)).
  rewrite (bind_run _ (store_run _ _)).
  reflexivity.
Qed.

Lemma renamed_owned s m : owned m -> owned (renamed s m).
Proof. intros Ho. unfold renamed. owned_fin. Qed.

Lemma resolver_untouched w m r m' :
  get_ibus_address_file_name w m = Some (r, m') ->
  conn (ibus m') = conn (ibus m) /\ brk m' = brk m /\
  exists evs, trace m' = trace m ++ evs /\ Forall no_bus evs.
Proof.
  intros H. apply resolver_frame in H as (Hib & _ & Hbk & evs & Ht & Hf).
  split; [rewrite Hib; reflexivity|]. split; [exact Hbk|].
  exists evs. split; [exact Ht|]. eapply Forall_impl; [exact resolver_no_bus | exact Hf].
Qed.

Lemma reader_untouched w m r m' :
  read_ibus_address w m = Some (r, m') ->
  conn (ibus m') = conn (ibus m) /\ brk m <= brk m' /\
  exists evs, trace m' = trace m ++ evs /\ Forall no_bus evs.
Proof.
  intros H. apply reader_frame in H as (_ & _ & Hc & _ & _ & _ & Hb & evs & Ht & Hf).
  split; [exact Hc|]. split; [exact Hb|].
  exists evs. split; [exact Ht|]. eapply Forall_impl; [exact reader_no_bus | exact Hf].
Qed.

(** When the resolver returns NULL. *)
Lemma setup_connection_unresolved w m1 m2 :
  get_ibus_address_file_name w m1 = Some (false, m2) ->
  setup_connection w m1 = Some (false, with_ibus (set_ok false) m2) /\
  untouched m1 (with_ibus (set_ok false) m2).
Proof.
  intros Hres. split.
  - unfold setup_connection. cbv zeta. rewrite (bind_run _ Hres).
    rewrite (bind_run _ (store_run _ _)). reflexivity.
  - destruct (@resolver_untouched _ _ _ _ Hres) as (Hc & _ & evs & Ht & Hf).
    split; [exact Hc|]. exists evs. split; [exact Ht | exact Hf].
Qed.

(** When the second read of the file fails. *)
Lemma setup_connection_unread w m1 m2 s m4 :
  owned m1 ->
  get_ibus_address_file_name w m1 = Some (true, m2) -> c_str (ans m2) 0 = Some s ->
  read_ibus_address w (renamed s m2) = Some (false, m4) ->
  setup_connection w m1 = Some (false, m4) /\ untouched m1 m4.
Proof.
  intros Ho Hres Hstr Hread. split.
  - rewrite (@setup_connection_to_read _ _ _ _ Ho Hres Hstr). rewrite (bind_run _ Hread). reflexivity.
  - destruct (@resolver_untouched _ _ _ _ Hres) as (Hc & _ & evs & Ht & Hf).
    destruct (@reader_untouched _ _ _ _ Hread) as (Hc4 & _ & evs4 & Ht4 & Hf4).
    split; [rewrite Hc4; exact Hc|].
    exists (evs ++ evs4). split.
    + rewrite Ht4. unfold renamed. machine_simpl. rewrite Ht, app_assoc. reflexivity.
    + apply Forall_app. split; assumption.
Qed.

(** When both reads and the resolution succeed: the run returns and
    reconnects. *)
Lemma setup_connection_reconnects w m1 m2 s m4 :
  owned m1 ->
  get_ibus_address_file_name w m1 = Some (true, m2) -> c_str (ans m2) 0 = Some s ->
  read_ibus_address w (renamed s m2) = Some (true, m4) ->
  exists r m',
    setup_connection w m1 = Some (r, m') /\
    reconnected w m1 m' /\
    r = match conn (ibus m') with
        | Some c => w_call_method_with_reply w c "CreateInputContext"
        | None => false
        end.
Proof.
  intros Ho Hres Hstr Hread.
  pose proof (@setup_connection_to_read _ _ _ _ Ho Hres Hstr) as Hrun.
  rewrite (bind_run _ Hread) in Hrun. cbn [negb] in Hrun.
  assert (Ho4 : owned m4).
  { apply (@read_ibus_address_owned _ _ _ _ Hread). apply renamed_owned.
    exact (@resolver_owned _ _ _ _ Hres Ho). }
  destruct (@resolver_untouched _ _ _ _ Hres) as (Hc & _ & evs & Ht & Hf).
  destruct (@reader_untouched _ _ _ _ Hread) as (Hc4 & _ & evs4 & Ht4 & Hf4).
  assert (Htr : trace m4 = trace m1 ++ evs ++ evs4).
  { rewrite Ht4. unfold renamed. machine_simpl. rewrite Ht, app_assoc. reflexivity. }
  match type of Hrun with
  | _ = ?T m4 => destruct (T m4) as [[r m']|] eqn:HT
  end.
  - exists r, m'. split; [exact Hrun|].
    assert (Hre : reconnected w m1 m').
    { destruct (@setup_connection_reconnect w m1 r m' (owned_ctx_below Ho) Hrun)
        as [(_ & Hu) | Hre]; [exfalso | exact Hre].
      unfold_calls_in HT.
      run_in HT; machine_simpl_all;
        (eapply (@untouched_no_connect m1 _ _ _ Hu);
         [ machine_simpl; rewrite Htr, <- ?app_assoc; cbn [app]; reflexivity
         | rewrite ?in_app_iff; cbn [In]; auto 20 ]). }
    split; [exact Hre|].
    unfold_calls_in HT.
    run_in HT; machine_simpl_all; try reflexivity;
      repeat match goal with
             | E : negb ?b = _ |- _ => destruct b; try discriminate E; clear E
             end;
      congruence.
  - exfalso. unfold_calls_in HT.
    stuck_in HT; live_here ltac:(idtac).
Qed.

Lemma probed_untouched m : untouched m (probed m).
Proof.
  split; [reflexivity|]. unfold grows, probed. machine_simpl.
  eexists. split; [reflexivity|].
  destruct (conn (ibus m)); repeat constructor; unfold no_bus; simpl; tauto.
Qed.

Lemma probed_owned m : owned m -> owned (probed m).
Proof. intros Ho. unfold probed. owned_fin. Qed.

(** C2, as the code has it: on an activated session whose connection does
    not report itself live, [check_connection] calls [stat] on the stored
    address file name.  If the file is unchanged it returns false at once.
    If [stat] fails or the mtime differs from the stored one, it re-reads
    the address file.  When that read fails, the call returns false, the
    old handle is kept and nothing is asked of the bus.  When it succeeds,
    the call goes on as [setup_connection], which resolves the file name
    and reads the file again: when the resolution or the second read fails,
    the call again returns false with the old handle kept and the bus not
    touched; when both succeed, the call returns and has made a full
    reconnect: the old handle, if any, is closed first, then a connection
    is opened with the address just read and stored, and the result is true
    exactly when the connection was opened and the CreateInputContext
    request went out. *)
Theorem stale_connection_reconnects w m :
  owned m -> inited (ibus m) = true -> not_live w m ->
  (stale w m = false -> check_connection w m = Some (false, probed m)) /\
  (stale w m = true ->
     check_connection w m =
       (r <- read_ibus_address w ;; if negb r then ret false else setup_connection w)
         (probed m) /\
     (forall r m', check_connection w m = Some (r, m') ->
        (r = false /\ untouched m m') \/ reconnected w m m') /\
     (forall m1, read_ibus_address w (probed m) = Some (false, m1) ->
        check_connection w m = Some (false, m1) /\ untouched m m1) /\
     (forall m1, read_ibus_address w (probed m) = Some (true, m1) ->
        check_connection w m = setup_connection w m1 /\
        (forall m2, get_ibus_address_file_name w m1 = Some (false, m2) ->
           check_connection w m = Some (false, with_ibus (set_ok false) m2) /\
           untouched m (with_ibus (set_ok false) m2)) /\
        (forall m2 s,
           get_ibus_address_file_name w m1 = Some (true, m2) ->
           c_str (ans m2) 0 = Some s ->
           (forall m4, read_ibus_address w (renamed s m2) = Some (false, m4) ->
              check_connection w m = Some (false, m4) /\ untouched m m4) /\
           (forall m4, read_ibus_address w (renamed s m2) = Some (true, m4) ->
              exists r m',
                check_connection w m = Some (r, m') /\
                reconnected w m m' /\
                r = match conn (ibus m') with
                    | Some c => w_call_method_with_reply w c "CreateInputContext"
                    | None => false
                    end)))).
Proof.
  intros Ho Hi Hn.
  pose proof (@check_connection_probe w m (own_name Ho) Hi Hn) as Hck.
  split; intros Hs; rewrite Hs in Hck; [exact Hck|].
  split; [exact Hck|].
  pose proof (probed_untouched m) as Hup.
  assert (Hafter : forall m1 rd,
            read_ibus_address w (probed m) = Some (rd, m1) ->
            untouched m m1 /\ brk m <= brk m1 /\ owned m1).
  { intros m1 rd Hrd.
    destruct (@reader_untouched _ _ _ _ Hrd) as (Hc1 & Hb1 & evs1 & Ht1 & Hf1).
    split; [|split].
    - apply (untouched_after Hup). split; [exact Hc1|]. exists evs1. split; assumption.
    - exact Hb1.
    - exact (@read_ibus_address_owned _ _ _ _ Hrd (probed_owned Ho)). }
  split; [|split].
  - intros r m' H. rewrite Hck in H.
    apply bind_inv in H as (rd & m1 & Hrd & H).
    destruct (Hafter m1 rd Hrd) as (Hu & Hb1 & Ho1).
    destruct rd; cbn [negb] in H.
    + destruct (@setup_connection_reconnect w m1 r m' (owned_ctx_below Ho1) H)
        as [(Hr & Hu') | Hre].
      * left. split; [exact Hr|]. eapply untouched_after; eassumption.
      * right. destruct Hu as (Hc1 & evs' & Ht' & Hf').
        eapply reconnected_after; [exact Ht' | exact Hf' | exact Hc1 | exact Hb1 | exact Hre].
    + inversion H; subst. left. split; [reflexivity | exact Hu].
  - intros m1 Hrd. destruct (Hafter m1 false Hrd) as (Hu & _ & _).
    split; [|exact Hu]. rewrite Hck, (bind_run _ Hrd). reflexivity.
  - intros m1 Hrd. destruct (Hafter m1 true Hrd) as (Hu & Hb1 & Ho1).
    assert (Hgo : check_connection w m = setup_connection w m1).
    { rewrite Hck, (bind_run _ Hrd). reflexivity. }
    split; [exact Hgo|]. split.
    + intros m2 Hres. destruct (@setup_connection_unresolved _ _ _ Hres) as (Hrun & Hu2).
      split; [rewrite Hgo; exact Hrun|]. eapply untouched_after; eassumption.
    + intros m2 s Hres Hstr. split.
      * intros m4 Hread.
        destruct (@setup_connection_unread _ _ _ _ _ Ho1 Hres Hstr Hread) as (Hrun & Hu4).
        split; [rewrite Hgo; exact Hrun|]. eapply untouched_after; eassumption.
      * intros m4 Hread.
        destruct (@setup_connection_reconnects _ _ _ _ _ Ho1 Hres Hstr Hread)
          as (r & m' & Hrun & Hre & Hr).
        exists r, m'. split; [rewrite Hgo; exact Hrun|]. split; [|exact Hr].
        destruct Hu as (Hc1 & evs' & Ht' & Hf').
        eapply reconnected_after; [exact Ht' | exact Hf' | exact Hc1 | exact Hb1 | exact Hre].
Qed.

Lemma restarted_reads :
  exists m1 m2 s m4,
    read_ibus_address restarted (probed connected) = Some (true, m1) /\
    get_ibus_address_file_name restarted m1 = Some (true, m2) /\
    c_str (ans m2) 0 = Some s /\
    read_ibus_address restarted (renamed s m2) = Some (true, m4).
Proof.
  eexists. eexists. eexists. eexists.
  split; [vm_compute; reflexivity|].
  split; [vm_compute; reflexivity|].
  split; vm_compute; reflexivity.
Qed.

Lemma stale_connection_reconnects_witness :
  stale restarted connected = true /\
  exists r m',
    check_connection restarted connected = Some (r, m') /\
    reconnected restarted connected m'.
Proof.
  split; [reflexivity|].
  destruct restarted_reads as (m1 & m2 & s & m4 & H1 & H2 & H3 & H4).
  destruct (proj2 (@stale_connection_reconnects restarted connected
                     connected_owned eq_refl eq_refl) eq_refl)
    as (_ & _ & _ & Hread).
  destruct (Hread m1 H1) as (_ & _ & Hres).
  destruct (proj2 (Hres m2 s H2 H3) m4 H4) as (r & m' & Hrun & Hre & _).
  exists r, m'. split; [exact Hrun | exact Hre].
Defined.

(* ================================================================== *)
(** ** The calls of a connect, in their order *)

Lemma read_ibus_address_true_file w m m' :
  read_ibus_address w m = Some (true, m') ->
  exists f buf a,
    opened w m = Some f /\ found_in f = Some buf /\
    c_str buf (length address_key) = Some a /\
    address (ibus m') = Some (brk m) /\
    heap m' = (brk m, a) :: freed (address (ibus m)) (heap m).
Proof.
  intros H. unfold read_ibus_address in H. unfold_calls_in H.
  run_in H; machine_simpl_all.
  exists f, l, x1. unfold opened, file_name_of, found_in.
  repeat split; assumption.
Qed.

(** X24: the bus calls of a successful [setup_connection], and the address
    they go to.  A run that returns true has resolved the address file
    name, opened the file of that name and found in it a line that starts
    with "IBUS_ADDRESS="; after the resolver and the reader, which do not
    touch the bus, it closes the old connection if there is one and
    connects to the string behind the key on that line, which is also the
    string the [address] field points to afterwards (the context path
    being a block handed out before).  On the new connection it then makes
    exactly these calls, in this order: the request CreateInputContext with
    the client name "GLFW_Application", a flush, the match rule for the
    signals of org.freedesktop.IBus.InputContext, the registration of the
    message handler (with a NULL path), a flush. *)
Theorem connect_protocol w m m' :
  setup_connection w m = Some (true, m') ->
  exists m1 name f buf c a q pre,
    get_ibus_address_file_name w m = Some (true, m1) /\
    c_str (ans m1) 0 = Some name /\
    w_fopen w name = Some f /\
    found_in f = Some buf /\
    c_str buf (length address_key) = Some a /\
    address (ibus m') = Some q /\
    (ctx_below m -> heap_lookup (heap m') q = Some a) /\
    conn (ibus m') = Some c /\
    w_connect_to w a = Some c /\
    Forall no_bus pre /\
    trace m' =
      trace m ++ pre ++ closing (conn (ibus m)) ++
      debug_line w connecting_message ++
      [EConnect (Some a);
       ECallWithReply c IBUS_SERVICE IBUS_PATH IBUS_INTERFACE "CreateInputContext"
         (cs "GLFW_Application");
       EFlush c;
       EAddMatch c "type='signal',interface='org.freedesktop.IBus.InputContext'";
       ERegisterObjectPath c None;
       EFlush c].
Proof.
  intros H. unfold setup_connection in H. unfold_calls_in H.
  run_in H.
  all: match goal with
       | Hr : get_ibus_address_file_name _ _ = Some _ |- _ =>
           pose proof Hr as Hres;
           apply resolver_frame in Hr as (Hib & Hhp & Hbk & evs1 & Ht1 & Hf1)
       end.
  all: match goal with
       | Hr : read_ibus_address _ _ = Some (?b, _), E : negb ?b = false |- _ =>
           destruct b; [clear E | discriminate E];
           pose proof (@read_ibus_address_true_file _ _ _ Hr)
             as (f & buf & a & Hop & Hfound & Hkey & Haddr & Hheap)
       end.
  all: match goal with
       | Hr : read_ibus_address _ _ = Some _ |- _ =>
           apply reader_frame in Hr as (_ & _ & Hc2 & Hp2 & _ & _ & _ & evs2 & Ht2 & Hf2)
       end.
  all: machine_simpl_all.
  all: destruct x; [clear Ecase | discriminate Ecase].
  all: unfold opened, file_name_of in Hop; machine_simpl_all.
  all: cbn [heap_lookup] in Hop; rewrite Nat.eqb_refl in Hop.
  all: match goal with
       | E : _ = Some ?d |- context [Some ?d = Some _] =>
           exists x0, x2, f, buf, d, a, (S (brk x0)), (evs1 ++ evs2)
       end.
  all: split; [exact Hres|].
  all: split; [exact Hstr|].
  all: split; [exact Hop|].
  all: split; [exact Hfound|].
  all: split; [exact Hkey|].
  all: split; [exact Haddr|].
  all: split;
    [ intros Hctx; rewrite freed_lookup_other;
      [ rewrite Hheap; cbn [heap_lookup]; rewrite Nat.eqb_refl; reflexivity
      | rewrite Hp2, Hib; intros Hp; apply Hctx in Hp; rewrite Hbk in Hp; lia ] |].
  all: split; [reflexivity|].
  all: rewrite Haddr, Hheap in *; cbn [heap_lookup] in *; rewrite ?Nat.eqb_refl in *.
  all: split; [assumption|].
  all: split; [apply Forall_app; split;
                 [ eapply Forall_impl; [exact resolver_no_bus | exact Hf1]
                 | eapply Forall_impl; [exact reader_no_bus | exact Hf2] ] |].
  all: unfold debug_line; rewrite Ecase2.
  all: rewrite <- Hib, <- Hc2, Ecase1; unfold closing.
  all: rewrite Ht2, Ht1, <- !app_assoc; simpl; reflexivity.
Qed.

Lemma connect_protocol_witness :
  exists m' m1 name f buf c a q pre,
    setup_connection desktop initial = Some (true, m') /\
    get_ibus_address_file_name desktop initial = Some (true, m1) /\
    c_str (ans m1) 0 = Some name /\
    w_fopen desktop name = Some f /\
    found_in f = Some buf /\
    c_str buf (length address_key) = Some a /\
    address (ibus m') = Some q /\
    heap_lookup (heap m') q = Some a /\
    conn (ibus m') = Some c /\
    w_connect_to desktop a = Some c /\
    Forall no_bus pre /\
    trace m' =
      trace initial ++ pre ++ closing (conn (ibus initial)) ++
      debug_line desktop connecting_message ++
      [EConnect (Some a);
       ECallWithReply c IBUS_SERVICE IBUS_PATH IBUS_INTERFACE "CreateInputContext"
         (cs "GLFW_Application");
       EFlush c;
       EAddMatch c "type='signal',interface='org.freedesktop.IBus.InputContext'";
       ERegisterObjectPath c None;
       EFlush c].
Proof.
  destruct desktop_connects as (m' & H).
  destruct (@connect_protocol _ _ _ H)
    as (m1 & name & f & buf & c & a & q & pre &
        Hres & Hname & Hf & Hfound & Hkey & Haddr & Hheap & Hc & Hw & Hp & Ht).
  exists m', m1, name, f, buf, c, a, q, pre.
  split; [exact H|]. split; [exact Hres|]. split; [exact Hname|].
  split; [exact Hf|]. split; [exact Hfound|]. split; [exact Hkey|].
  split; [exact Haddr|].
  split; [apply Hheap; intros p Hp'; discriminate Hp'|].
  split; [exact Hc|]. split; [exact Hw|]. split; [exact Hp | exact Ht].
Defined.

(* ================================================================== *)
(** ** Where a call on a session can get stuck *)

























